(** * Psiphon for Windows: the SSH transport and its connectivity helpers

    A shallow embedding of
      - [sshtransport.cpp]: [SSHTransportBase], [SSHTransport], [OSSHTransport]
        (Cleanup, TransportConnect, TransportConnectHelper, LaunchPlonk,
        GetUserParentProxySettings, GetSSHParams, IsHandshakeRequired), and
      - [utilities.cpp]: [WaitForConnectability], [TestForOpenPort],
        [StopProcess], [GetTickCountDiff],
    and further, each with an environment of its own,
      - [sshtransport.cpp]: [SetPlonkSSHHostKey], [DoPeriodicCheck], and
      - [utilities.cpp]: [Hexlify], [Dehexlify], [UrlEncode],
        [CreateSubprocessPipes], [ExtractExecutable], [GetDeviceRegion],
        [IsOSSupported].

    Integers of the program ([int], [DWORD], [USHORT], [HANDLE]) are [Z];
    where the program's arithmetic wraps ([DWORD], and [int] on overflow)
    the wrap is written out.
    Narrow and wide strings are sequences of characters ([string]); where
    the width of a character matters ([UrlEncode]) a wide string is a list
    of 16-bit numbers.
    Everything the program obtains from outside these files (the Win32 API,
    the registry-backed settings, helpers of other translation units) is a
    field of the record [Env]; the calls the program makes are recorded, in
    order, in the [trace] of the [World] it threads. *)

From Stdlib Require Import ZArith NArith List Bool Lia.
From Stdlib Require Import Strings.String Strings.Ascii.
From Stdlib Require Import Numbers.DecimalString Numbers.DecimalPos.
Import ListNotations.

Open Scope string_scope.
Open Scope Z_scope.

(* ================================================================== *)
(** ** Strings *)

(** [tstring] is [std::basic_string<TCHAR>]. *)
Definition tstring := string.

(** [s.c_str()] handed to [operator<<]: the characters up to the first NUL. *)
Fixpoint c_str (s : tstring) : tstring :=
  match s with
  | EmptyString => EmptyString
  | String c s' => if Ascii.eqb c Ascii.zero then EmptyString
                   else String c (c_str s')
  end.

(** [stream << n] for an [int]: decimal digits, a leading minus sign. *)
Definition print_int (n : Z) : tstring :=
  NilEmpty.string_of_int (Z.to_int n).

(** [s.length() > 0] *)
Definition nonempty (s : string) : bool :=
  match s with EmptyString => false | String _ _ => true end.

(** [x] occurs in [s] as a contiguous piece of text. *)
Definition occurs_in (x s : string) : Prop :=
  exists pre post, s = pre ++ x ++ post.

Fixpoint has_nul (s : string) : bool :=
  match s with
  | EmptyString => false
  | String c s' => Ascii.eqb c Ascii.zero || has_nul s'
  end.

(** Blank characters: the separators of a command line. *)
Definition is_blank (c : ascii) : bool :=
  Ascii.eqb c " "%char || Ascii.eqb c "009"%char.

Fixpoint has_blank (s : string) : bool :=
  match s with
  | EmptyString => false
  | String c s' => is_blank c || has_blank s'
  end.

(** The blank-separated pieces of a command line that contains no quoting:
    what a quote-free command line is split into by the receiving process. *)
Fixpoint split_args (s : tstring) : list tstring :=
  match s with
  | EmptyString => []
  | String c s' =>
      if is_blank c then split_args s'
      else match s' with
           | EmptyString => [String c EmptyString]
           | String c' _ =>
               if is_blank c' then String c EmptyString :: split_args s'
               else match split_args s' with
                    | t :: ts => String c t :: ts
                    | [] => [String c EmptyString]
                    end
           end
  end.

(** The argument that follows the flag [flag] in an argument vector. *)
Fixpoint arg_after (flag : tstring) (argv : list tstring) : option tstring :=
  match argv with
  | [] => None
  | a :: rest =>
      if String.eqb a flag then
        match rest with
        | v :: _ => Some v
        | [] => None
        end
      else arg_after flag rest
  end.

(** [s] contains a double quote. *)
Fixpoint has_quote (s : string) : bool :=
  match s with
  | EmptyString => false
  | String c s' => Ascii.eqb c "034"%char || has_quote s'
  end.

(** [flag] is one of the arguments [argv]. *)
Definition has_flag (flag : tstring) (argv : list tstring) : bool :=
  existsb (fun a => String.eqb a flag) argv.

(* ================================================================== *)
(** ** Data *)

(** What the transport reads of [SessionInfo], through its getters. *)
Record SessionInfo := {
  GetServerAddress : string;
  GetSSHPort : Z;
  GetSSHObfuscatedPort : Z;
  GetSSHHostKey : string;
  GetSSHUsername : string;
  GetSSHPassword : string;
  GetSSHObfuscatedKey : string;
  GetSSHSessionID : string;
  GetClientSessionID : string
}.

(** [PROCESS_INFORMATION] *)
Record PROCESS_INFORMATION := {
  hProcess : Z;
  hThread : Z;
  dwProcessId : Z;
  dwThreadId : Z
}.

(** [ZeroMemory(&m_plonkProcessInfo, sizeof(m_plonkProcessInfo))] *)
Definition ZeroMemory_PROCESS_INFORMATION : PROCESS_INFORMATION :=
  {| hProcess := 0; hThread := 0; dwProcessId := 0; dwThreadId := 0 |}.

Definition INVALID_HANDLE_VALUE : Z := -1.

(** [StopInfo]: [stopSignal] is a pointer, here whether it is non-null. *)
Record StopInfo := {
  stopSignal : bool;
  stopReasons : Z
}.

(** Win32 result codes (WinError.h, WinBase.h). *)
Definition ERROR_SUCCESS : Z := 0.
Definition WAIT_TIMEOUT : Z := 258.
Definition ERROR_SYSTEM_PROCESS_TERMINATED : Z := 591.
Definition ERROR_OPERATION_ABORTED : Z := 995.
Definition ERROR_UNKNOWN_PORT : Z := 1796.
Definition MAXDWORD : Z := 4294967295.

Definition DEFAULT_PLONK_SOCKS_PROXY_PORT : Z := 1080.
Definition SSH_CONNECTION_TIMEOUT_SECONDS : Z := 20.

(** [DWORD] arithmetic is modulo 2^32. *)
Definition DWORD (x : Z) : Z := x mod 4294967296.
(** [int] has 32 bits. A sum that leaves [INT_MIN .. INT_MAX] overflows:
    the language leaves that undefined, and the program as compiled keeps
    the low 32 bits of the sum in two's complement, which [INT] writes
    out. *)
Definition INT_MIN : Z := -2147483648.
Definition INT_MAX : Z := 2147483647.
Definition INT (x : Z) : Z := (x + 2147483648) mod 4294967296 - 2147483648.
(** Conversion to [USHORT]. *)
Definition USHORT (x : Z) : Z := x mod 65536.

(* ================================================================== *)
(** ** The environment and the world *)

(** The calls the program makes to the outside, in order. [EvConnect] is
    one attempt to connect of [WaitForConnectability] (socket, event
    selection, connect, the wait of 100 ms and the reading of the network
    events). [EvSetPlonkSSHHostKey] is the call of the static helper
    [SetPlonkSSHHostKey], which writes the registry and whose result the
    caller discards. Two events mark calls inside the program: [EvCleanup]
    an entry into [SSHTransportBase::Cleanup], [EvWaitForConnectability] the
    return of a call of [WaitForConnectability] with its result. *)
Inductive Event :=
| EvGetTickCount (now : Z)
| EvConnect (port : Z) (connected : bool)
| EvWaitForSingleObject (handle timeout : Z) (signalled : bool)
| EvCheckSignal (reasons : Z) (raised : bool)
| EvExtractExecutable (ok : bool)
| EvSetPlonkSSHHostKey (address : tstring) (port : Z) (hostKey : tstring)
| EvCreateProcess (path commandLine : tstring) (ok : bool)
| EvWaitForInputIdle (handle : Z)
| EvCloseHandle (handle : Z)
| EvAttachConsole (pid : Z) (ok : bool)
| EvGenerateConsoleCtrlEvent (pid : Z)
| EvFreeConsole
| EvTerminateProcess (handle : Z) (ok : bool)
| EvSetSocksProxyPort (port : Z)
| EvCleanup
| EvWaitForConnectability (port timeout returnValue : Z).

(** Everything outside the modelled files. The Win32 calls whose answer the
    program looks at are oracles: the [k]-th call of its kind is answered by
    the field at [k]. *)
Record Env := {
  (** compiled with [_DEBUG] *)
  DEBUG : bool;
  (** [NarrowToTString] of utilities, converting [string] to [tstring] *)
  NarrowToTString : string -> tstring;
  (** the registry-backed settings of the user's upstream proxy *)
  UserSkipSSHParentProxySettings : bool;
  UserSSHParentProxyType : string;
  UserSSHParentProxyHostname : string;
  UserSSHParentProxyPort : Z;
  UserSSHParentProxyUsername : string;
  UserSSHParentProxyPassword : string;
  (** [SystemProxySettings::GetUserLanProxy (type, host, port)]: the result
      and the three references as it leaves them *)
  GetUserLanProxy : tstring -> tstring -> Z -> bool * (tstring * tstring * Z);
  (** [GetTickCount ()] *)
  tick_at : nat -> Z;
  (** one attempt to connect to 127.0.0.1:port, waiting up to 100 ms for
      [FD_CONNECT] without error *)
  connect_at : nat -> Z -> bool;
  (** [WaitForSingleObject (h, t) == WAIT_OBJECT_0] *)
  signalled_at : nat -> bool;
  (** [stopSignal->CheckSignal (reasons)] *)
  stop_at : nat -> bool;
  (** [ExtractExecutable]: the path written on success *)
  extract_at : nat -> option tstring;
  (** [CreateProcess]: the process information filled in on success *)
  create_at : nat -> option PROCESS_INFORMATION;
  (** [AttachConsole (pid)] *)
  attach_at : nat -> bool;
  (** [TerminateProcess (h, 0)] *)
  terminate_at : nat -> bool;
  (** [TERMINATE_PROCESS_WAIT_MS] *)
  TERMINATE_PROCESS_WAIT_MS : Z
}.

(** The state of the outside: how many calls of each kind were answered, and
    the calls made so far (oldest first). *)
Record World := {
  n_tick : nat;
  n_connect : nat;
  n_signalled : nat;
  n_stop : nat;
  n_extract : nat;
  n_create : nat;
  n_attach : nat;
  n_terminate : nat;
  trace : list Event
}.

Definition World0 : World :=
  {| n_tick := 0; n_connect := 0; n_signalled := 0; n_stop := 0;
     n_extract := 0; n_create := 0; n_attach := 0; n_terminate := 0;
     trace := [] |}.

Definition is_some {A : Type} (o : option A) : bool :=
  match o with Some _ => true | None => false end.

Definition emit (e : Event) (w : World) : World :=
  {| n_tick := n_tick w; n_connect := n_connect w;
     n_signalled := n_signalled w; n_stop := n_stop w;
     n_extract := n_extract w; n_create := n_create w;
     n_attach := n_attach w; n_terminate := n_terminate w;
     trace := trace w ++ [e] |}.

Definition GetTickCount (E : Env) (w : World) : Z * World :=
  let now := DWORD (tick_at E (n_tick w)) in
  (now,
   emit (EvGetTickCount now)
     {| n_tick := S (n_tick w); n_connect := n_connect w;
        n_signalled := n_signalled w; n_stop := n_stop w;
        n_extract := n_extract w; n_create := n_create w;
        n_attach := n_attach w; n_terminate := n_terminate w;
        trace := trace w |}).

Definition try_connect (E : Env) (port : Z) (w : World) : bool * World :=
  let ok := connect_at E (n_connect w) port in
  (ok,
   emit (EvConnect port ok)
     {| n_tick := n_tick w; n_connect := S (n_connect w);
        n_signalled := n_signalled w; n_stop := n_stop w;
        n_extract := n_extract w; n_create := n_create w;
        n_attach := n_attach w; n_terminate := n_terminate w;
        trace := trace w |}).

Definition WaitForSingleObject (E : Env) (h timeout : Z) (w : World)
  : bool * World :=
  let s := signalled_at E (n_signalled w) in
  (s,
   emit (EvWaitForSingleObject h timeout s)
     {| n_tick := n_tick w; n_connect := n_connect w;
        n_signalled := S (n_signalled w); n_stop := n_stop w;
        n_extract := n_extract w; n_create := n_create w;
        n_attach := n_attach w; n_terminate := n_terminate w;
        trace := trace w |}).

Definition CheckSignal (E : Env) (reasons : Z) (w : World) : bool * World :=
  let r := stop_at E (n_stop w) in
  (r,
   emit (EvCheckSignal reasons r)
     {| n_tick := n_tick w; n_connect := n_connect w;
        n_signalled := n_signalled w; n_stop := S (n_stop w);
        n_extract := n_extract w; n_create := n_create w;
        n_attach := n_attach w; n_terminate := n_terminate w;
        trace := trace w |}).

Definition ExtractExecutable (E : Env) (w : World) : option tstring * World :=
  let r := extract_at E (n_extract w) in
  (r,
   emit (EvExtractExecutable (is_some r))
     {| n_tick := n_tick w; n_connect := n_connect w;
        n_signalled := n_signalled w; n_stop := n_stop w;
        n_extract := S (n_extract w); n_create := n_create w;
        n_attach := n_attach w; n_terminate := n_terminate w;
        trace := trace w |}).

Definition CreateProcess (E : Env) (path commandLine : tstring) (w : World)
  : option PROCESS_INFORMATION * World :=
  let r := create_at E (n_create w) in
  (r,
   emit (EvCreateProcess path commandLine (is_some r))
     {| n_tick := n_tick w; n_connect := n_connect w;
        n_signalled := n_signalled w; n_stop := n_stop w;
        n_extract := n_extract w; n_create := S (n_create w);
        n_attach := n_attach w; n_terminate := n_terminate w;
        trace := trace w |}).

Definition AttachConsole (E : Env) (pid : Z) (w : World) : bool * World :=
  let r := attach_at E (n_attach w) in
  (r,
   emit (EvAttachConsole pid r)
     {| n_tick := n_tick w; n_connect := n_connect w;
        n_signalled := n_signalled w; n_stop := n_stop w;
        n_extract := n_extract w; n_create := n_create w;
        n_attach := S (n_attach w); n_terminate := n_terminate w;
        trace := trace w |}).

Definition TerminateProcess (E : Env) (h : Z) (w : World) : bool * World :=
  let r := terminate_at E (n_terminate w) in
  (r,
   emit (EvTerminateProcess h r)
     {| n_tick := n_tick w; n_connect := n_connect w;
        n_signalled := n_signalled w; n_stop := n_stop w;
        n_extract := n_extract w; n_create := n_create w;
        n_attach := n_attach w; n_terminate := S (n_terminate w);
        trace := trace w |}).

(* ================================================================== *)
(** ** utilities.cpp *)

(** [GetTickCountDiff (start, end)] *)
Definition GetTickCountDiff (start end_ : Z) : Z :=
  if start =? 0 then 0
  else if end_ <? start then DWORD (DWORD (MAXDWORD - start) + end_)
  else DWORD (end_ - start).

(** The outcome of one pass through the body of a loop. *)
Inductive LoopStep :=
| Break (returnValue : Z)
| Continue.

(** The test at the head of the loop of [WaitForConnectability]:
    [now < start || now >= start + maxWaitMilliseconds], on [DWORD]s. *)
Definition deadline_passed (start maxWaitMilliseconds now : Z) : bool :=
  (now <? start) || (DWORD (start + maxWaitMilliseconds) <=? now).

(** One pass through [while (true) { ... }] of [WaitForConnectability]. *)
Definition WaitForConnectability_body (E : Env)
    (port start maxWaitMilliseconds process : Z) (stopInfo : StopInfo)
    (w : World) : LoopStep * World :=
  let (now, w) := GetTickCount E w in
  if deadline_passed start maxWaitMilliseconds now then (Break WAIT_TIMEOUT, w)
  else
    (* Attempt to connect to SOCKS proxy *)
    let (connected, w) := try_connect E port w in
    if connected then (Break ERROR_SUCCESS, w)
    else
      (* If server aborted, give up *)
      let (dead, w) :=
        if process =? 0 then (false, w)
        else WaitForSingleObject E process 0 w in
      if dead then (Break ERROR_SYSTEM_PROCESS_TERMINATED, w)
      else
        (* Check if cancel is signalled *)
        let (cancel, w) :=
          if stopSignal stopInfo then CheckSignal E (stopReasons stopInfo) w
          else (false, w) in
        if cancel then (Break ERROR_OPERATION_ABORTED, w)
        else (Continue, w).

(** The loop; [None] when [fuel] passes did not reach a [break]. *)
Fixpoint WaitForConnectability_loop (E : Env) (fuel : nat)
    (port start maxWaitMilliseconds process : Z) (stopInfo : StopInfo)
    (w : World) : option (Z * World) :=
  match fuel with
  | O => None
  | S fuel' =>
      match WaitForConnectability_body E port start maxWaitMilliseconds
              process stopInfo w with
      | (Break returnValue, w') => Some (returnValue, w')
      | (Continue, w') =>
          WaitForConnectability_loop E fuel' port start maxWaitMilliseconds
            process stopInfo w'
      end
  end.

(** [WaitForConnectability (port, timeout, process, stopInfo)] *)
Definition WaitForConnectability (E : Env) (fuel : nat)
    (port timeout process : Z) (stopInfo : StopInfo) (w : World)
  : option (Z * World) :=
  let port := USHORT port in
  let timeout := DWORD timeout in
  if (port <=? 0) || (65535 <? port) then
    Some (ERROR_UNKNOWN_PORT,
          emit (EvWaitForConnectability port timeout ERROR_UNKNOWN_PORT) w)
  else
    let (start, w) := GetTickCount E w in
    match WaitForConnectability_loop E fuel port start timeout process
            stopInfo w with
    | None => None
    | Some (returnValue, w') =>
        Some (returnValue,
              emit (EvWaitForConnectability port timeout returnValue) w')
    end.

(** One pass through [do { ... } while (++targetPort <= maxPort)] of
    [TestForOpenPort]; [n] bounds the passes that remain. *)
Fixpoint TestForOpenPort_loop (E : Env) (fuel : nat) (n : nat)
    (targetPort maxPort : Z) (stopInfo : StopInfo) (w : World)
  : option (bool * Z * World) :=
  match n with
  | O => None
  | S n' =>
      let probed :=
        if (0 <? targetPort) && (targetPort <=? 65535) then
          match WaitForConnectability E fuel targetPort 100 0 stopInfo w with
          | None => None
          | Some (r, w') => Some (negb (r =? ERROR_SUCCESS), w')
          end
        else Some (false, w) in
      match probed with
      | None => None
      | Some (true, w') => Some (true, targetPort, w')
      | Some (false, w') =>
          let targetPort := INT (targetPort + 1) in
          if targetPort <=? maxPort then
            TestForOpenPort_loop E fuel n' targetPort maxPort stopInfo w'
          else Some (false, targetPort, w')
      end
  end.

(** The passes the loop of [TestForOpenPort] can make from [targetPort]:
    [maxPort - targetPort + 1] when [targetPort] is not beyond [maxPort], and
    one otherwise, unless [++targetPort] overflows: from [INT_MAX] the
    candidates go on at [INT_MIN], up to [maxPort]. When [maxPort] is
    [INT_MAX] the test [++targetPort <= maxPort] holds of every [int] and the
    loop is left only through [return true]: its passes are then bounded by
    [fuel], as those of the wait loop are. *)
Definition TestForOpenPort_passes (fuel : nat) (targetPort maxPort : Z)
  : nat :=
  if maxPort =? INT_MAX then fuel
  else if targetPort =? INT_MAX then S (Z.to_nat (maxPort - INT_MIN + 1))
  else S (Z.to_nat (maxPort - targetPort)).

(** [TestForOpenPort (targetPort, maxIncrement, stopInfo)]: the result and
    [targetPort] as the call leaves it. [targetPort], [maxIncrement] and
    [maxPort] are [int]s: the sum [targetPort + maxIncrement] and the
    increment [++targetPort] are taken in [int]. The loop runs at most
    [maxIncrement + 1] times when no sum overflows, and once when
    [maxIncrement] is negative. *)
Definition TestForOpenPort (E : Env) (fuel : nat)
    (targetPort maxIncrement : Z) (stopInfo : StopInfo) (w : World)
  : option (bool * Z * World) :=
  let maxPort := INT (targetPort + maxIncrement) in
  TestForOpenPort_loop E fuel (TestForOpenPort_passes fuel targetPort maxPort)
    targetPort maxPort stopInfo w.

(** [StopProcess (processID, process)] *)
Definition StopProcess (E : Env) (processID process : Z) (w : World) : World :=
  let terminate (w : World) : World :=
    let (terminated, w) := TerminateProcess E process w in
    if terminated then
      snd (WaitForSingleObject E process (TERMINATE_PROCESS_WAIT_MS E) w)
    else w in
  let (attached, w) := AttachConsole E processID w in
  if attached then
    let w := emit (EvGenerateConsoleCtrlEvent processID) w in
    let w := emit EvFreeConsole w in
    let (exited, w) := WaitForSingleObject E process 100 w in
    if exited then w else terminate w
  else terminate w.

(* ================================================================== *)
(** ** sshtransport.cpp *)

(** The exceptions of the transport. *)
Inductive Exception :=
| TransportFailed
| Abort
| Error (what : string).

(** How a call ends: it returns, or it throws. *)
Inductive Completion (A : Type) :=
| Returned (a : A)
| Thrown (e : Exception).
Arguments Returned {A} a.
Arguments Thrown {A} e.

(** The data members of [SSHTransportBase] (with [m_stopInfo] of the
    worker-thread base class). *)
Record SSHTransportBase := {
  m_plonkPath : tstring;
  m_plonkProcessInfo : PROCESS_INFORMATION;
  m_localSocksProxyPort : Z;
  m_stopInfo : StopInfo
}.

(** The references [GetSSHParams] writes through. *)
Record SSHParams := {
  o_serverAddress : tstring;
  o_serverPort : Z;
  o_serverHostKey : tstring;
  o_plonkCommandLine : tstring
}.

(** The references [GetUserParentProxySettings] writes through. *)
Record ParentProxy := {
  proxy_type : tstring;
  proxy_host : tstring;
  proxy_port : Z;
  proxy_username : tstring;
  proxy_password : tstring
}.

(** The virtual members that [SSHTransport] and [OSSHTransport] define:
    the slots through which [SSHTransportBase] calls them. *)
Class SSHTransportClass := {
  virtual_GetTransportProtocolName : tstring;
  virtual_GetTransportDisplayName : tstring;
  virtual_IsHandshakeRequired : SessionInfo -> bool;
  virtual_GetSSHParams :
    Env -> SSHTransportBase -> SessionInfo -> Z -> string -> SSHParams ->
    bool * SSHParams
}.

Module SSHTransportBase.

(** The constructor. *)
Definition new (stopInfo : StopInfo) : SSHTransportBase :=
  {| m_plonkPath := EmptyString;
     m_plonkProcessInfo := ZeroMemory_PROCESS_INFORMATION;
     m_localSocksProxyPort := DEFAULT_PLONK_SOCKS_PROXY_PORT;
     m_stopInfo := stopInfo |}.

Definition set_plonkPath (this : SSHTransportBase) (p : tstring) :=
  {| m_plonkPath := p;
     m_plonkProcessInfo := m_plonkProcessInfo this;
     m_localSocksProxyPort := m_localSocksProxyPort this;
     m_stopInfo := m_stopInfo this |}.

Definition set_plonkProcessInfo (this : SSHTransportBase)
    (pi : PROCESS_INFORMATION) :=
  {| m_plonkPath := m_plonkPath this;
     m_plonkProcessInfo := pi;
     m_localSocksProxyPort := m_localSocksProxyPort this;
     m_stopInfo := m_stopInfo this |}.

Definition set_localSocksProxyPort (this : SSHTransportBase) (p : Z) :=
  {| m_plonkPath := m_plonkPath this;
     m_plonkProcessInfo := m_plonkProcessInfo this;
     m_localSocksProxyPort := p;
     m_stopInfo := m_stopInfo this |}.

Definition GetSessionID (E : Env) (sessionInfo : SessionInfo) : tstring :=
  NarrowToTString E (GetSSHSessionID sessionInfo).

(** [m_plonkProcessInfo.hProcess != 0
     && m_plonkProcessInfo.hProcess != INVALID_HANDLE_VALUE] *)
Definition has_process_handle (this : SSHTransportBase) : bool :=
  negb (hProcess (m_plonkProcessInfo this) =? 0)
  && negb (hProcess (m_plonkProcessInfo this) =? INVALID_HANDLE_VALUE).

(** [Cleanup ()] *)
Definition Cleanup (E : Env) (this : SSHTransportBase) (w : World)
  : bool * SSHTransportBase * World :=
  let w := emit EvCleanup w in
  (* Give the process an opportunity for graceful shutdown, then terminate *)
  let w :=
    if has_process_handle this then
      StopProcess E (dwProcessId (m_plonkProcessInfo this))
        (hProcess (m_plonkProcessInfo this)) w
    else w in
  let w :=
    if has_process_handle this then
      emit (EvCloseHandle (hProcess (m_plonkProcessInfo this))) w
    else w in
  let this := set_plonkProcessInfo this ZeroMemory_PROCESS_INFORMATION in
  (true, this, w).

(** [IsServerSSHCapable (sessionInfo)] *)
Definition IsServerSSHCapable (sessionInfo : SessionInfo) : bool :=
  nonempty (GetSSHHostKey sessionInfo).

(** [LaunchPlonk (plonkCommandLine)] *)
Definition LaunchPlonk (E : Env) (this : SSHTransportBase)
    (plonkCommandLine : tstring) (w : World)
  : bool * SSHTransportBase * World :=
  match CreateProcess E (c_str (m_plonkPath this)) plonkCommandLine w with
  | (None, w) => (false, this, w)
  | (Some pi, w) =>
      (* Close the unneccesary handles *)
      let w := emit (EvCloseHandle (hThread pi)) w in
      let pi := {| hProcess := hProcess pi; hThread := 0;
                   dwProcessId := dwProcessId pi;
                   dwThreadId := dwThreadId pi |} in
      let this := set_plonkProcessInfo this pi in
      let w := emit (EvWaitForInputIdle (hProcess pi)) w in
      (true, this, w)
  end.

(** [GetUserParentProxySettings] *)
Definition GetUserParentProxySettings (E : Env) : bool * ParentProxy :=
  if UserSkipSSHParentProxySettings E then
    (false,
     {| proxy_type := EmptyString; proxy_host := EmptyString;
        proxy_port := 0; proxy_username := EmptyString;
        proxy_password := EmptyString |})
  else
    (* Registry values take precedence over system settings *)
    let type := NarrowToTString E (UserSSHParentProxyType E) in
    let host := NarrowToTString E (UserSSHParentProxyHostname E) in
    let port := UserSSHParentProxyPort E in
    let username := NarrowToTString E (UserSSHParentProxyUsername E) in
    let password := NarrowToTString E (UserSSHParentProxyPassword E) in
    if nonempty type && nonempty host && negb (0 =? port) then
      (true,
       {| proxy_type := type; proxy_host := host; proxy_port := port;
          proxy_username := username; proxy_password := password |})
    else
      (* if no registry values try system settings *)
      match GetUserLanProxy E type host port with
      | (found, (type, host, port)) =>
          (found,
           {| proxy_type := type; proxy_host := host; proxy_port := port;
              proxy_username := username; proxy_password := password |})
      end.

(** The text [GetSSHParams] sends to [args]. *)
Definition plonk_args (E : Env) (sessionInfo : SessionInfo)
    (serverPort localSocksProxyPort : Z) (sshPassword : string)
  : tstring :=
  (" -ssh -C -N -batch"
     ++ " -P " ++ print_int serverPort
     ++ " -l " ++ c_str (NarrowToTString E (GetSSHUsername sessionInfo))
     ++ " -pw " ++ c_str (NarrowToTString E sshPassword)
     ++ " -D " ++ print_int localSocksProxyPort
     ++ (if DEBUG E then " -v" else "")
     ++ (match GetUserParentProxySettings E with
         | (true, proxy) =>
             " -proxy_type " ++ c_str (proxy_type proxy)
               ++ " -proxy_host " ++ c_str (proxy_host proxy)
               ++ " -proxy_port " ++ print_int (proxy_port proxy)
               ++ (if nonempty (proxy_username proxy)
                   then " -proxy_username " ++ c_str (proxy_username proxy)
                   else "")
               ++ (if nonempty (proxy_password proxy)
                   then " -proxy_password " ++ c_str (proxy_password proxy)
                   else "")
         | (false, _) => ""
         end))%string.

(** [SSHTransportBase::GetSSHParams] *)
Definition GetSSHParams (E : Env) (this : SSHTransportBase)
    (sessionInfo : SessionInfo) (localSocksProxyPort : Z)
    (sshPassword : string) (out : SSHParams) : bool * SSHParams :=
  let serverAddress := NarrowToTString E (GetServerAddress sessionInfo) in
  let serverPort := GetSSHObfuscatedPort sessionInfo in
  let serverHostKey := NarrowToTString E (GetSSHHostKey sessionInfo) in
  let args :=
    plonk_args E sessionInfo serverPort localSocksProxyPort sshPassword in
  (true,
   {| o_serverAddress := serverAddress;
      o_serverPort := serverPort;
      o_serverHostKey := serverHostKey;
      o_plonkCommandLine := (m_plonkPath this ++ args)%string |}).

(** [string sshPassword =
      sessionInfo.GetClientSessionID() + sessionInfo.GetSSHPassword();] *)
Definition sshPassword (sessionInfo : SessionInfo) : string :=
  (GetClientSessionID sessionInfo ++ GetSSHPassword sessionInfo)%string.

Definition no_params : SSHParams :=
  {| o_serverAddress := EmptyString; o_serverPort := 0;
     o_serverHostKey := EmptyString; o_plonkCommandLine := EmptyString |}.

(** [TransportConnectHelper (sessionInfo, systemProxySettings)] *)
Definition TransportConnectHelper `{SSHTransportClass} (E : Env)
    (fuel : nat) (this : SSHTransportBase) (sessionInfo : SessionInfo)
    (w : World) : option (Completion unit * SSHTransportBase * World) :=
  (* Extract executables and put to disk if not already
     (a failed extraction leaves m_plonkPath as it was) *)
  let extracted :=
    if nonempty (m_plonkPath this) then (true, this, w)
    else match ExtractExecutable E w with
         | (Some path, w) => (true, set_plonkPath this path, w)
         | (None, w) => (false, this, w)
         end in
  match extracted with
  | (false, this, w) => Some (Thrown TransportFailed, this, w)
  | (true, this, w) =>
  (* Ensure we start from a disconnected/clean state *)
  match Cleanup E this w with
  | (false, this, w) => Some (Thrown (Error "Cleanup failed"), this, w)
  | (true, this, w) =>
  (* Client transmits its session ID prepended to the SSH password *)
  let sshPassword := sshPassword sessionInfo in
  let this := set_localSocksProxyPort this DEFAULT_PLONK_SOCKS_PROXY_PORT in
  (* Test if the localSocksProxyPort is already in use. *)
  match TestForOpenPort E fuel (m_localSocksProxyPort this) 10
          (m_stopInfo this) w with
  | None => None
  | Some (false, targetPort, w) =>
      Some (Thrown TransportFailed, set_localSocksProxyPort this targetPort, w)
  | Some (true, targetPort, w) =>
  let this := set_localSocksProxyPort this targetPort in
  match virtual_GetSSHParams E this sessionInfo (m_localSocksProxyPort this)
          sshPassword no_params with
  | (false, _) => Some (Thrown TransportFailed, this, w)
  | (true, params) =>
  (* Add host to Plonk's known host registry set *)
  let w := emit (EvSetPlonkSSHHostKey (o_serverAddress params)
                   (o_serverPort params) (o_serverHostKey params)) w in
  (* Create the Plonk process and connect to server *)
  match LaunchPlonk E this (c_str (o_plonkCommandLine params)) w with
  | (false, this, w) => Some (Thrown TransportFailed, this, w)
  | (true, this, w) =>
  match WaitForConnectability E fuel (m_localSocksProxyPort this)
          (SSH_CONNECTION_TIMEOUT_SECONDS * 1000)
          (hProcess (m_plonkProcessInfo this)) (m_stopInfo this) w with
  | None => None
  | Some (connected, w) =>
      if ERROR_OPERATION_ABORTED =? connected then
        Some (Thrown Abort, this, w)
      else if negb (ERROR_SUCCESS =? connected) then
        Some (Thrown TransportFailed, this, w)
      else
        let w := emit (EvSetSocksProxyPort (m_localSocksProxyPort this)) w in
        Some (Returned tt, this, w)
  end end end end end end.

(** [TransportConnect (sessionInfo, systemProxySettings)] *)
Definition TransportConnect `{SSHTransportClass} (E : Env) (fuel : nat)
    (this : SSHTransportBase) (sessionInfo : SessionInfo) (w : World)
  : option (Completion unit * SSHTransportBase * World) :=
  if negb (IsServerSSHCapable sessionInfo) then
    Some (Thrown TransportFailed, this, w)
  else
    match TransportConnectHelper E fuel this sessionInfo w with
    | None => None
    | Some (Returned tt, this, w) => Some (Returned tt, this, w)
    | Some (Thrown e, this, w) =>
        (* catch (...) { (void)Cleanup(); throw; } *)
        match Cleanup E this w with
        | (_, this, w) => Some (Thrown e, this, w)
        end
    end.

End SSHTransportBase.

Module SSHTransport.

Definition IsHandshakeRequired (sessionInfo : SessionInfo) : bool :=
  let sufficientInfo :=
    nonempty (GetServerAddress sessionInfo)
    && (0 <? GetSSHPort sessionInfo)
    && nonempty (GetSSHHostKey sessionInfo)
    && nonempty (GetSSHUsername sessionInfo)
    && nonempty (GetSSHPassword sessionInfo) in
  negb sufficientInfo.

(** [SSHTransport::GetSSHParams] *)
Definition GetSSHParams (E : Env) (this : SSHTransportBase)
    (sessionInfo : SessionInfo) (localSocksProxyPort : Z)
    (sshPassword : string) (out : SSHParams) : bool * SSHParams :=
  match SSHTransportBase.GetSSHParams E this sessionInfo
          localSocksProxyPort sshPassword out with
  | (false, base) =>
      (false,
       {| o_serverAddress := o_serverAddress base;
          o_serverPort := o_serverPort base;
          o_serverHostKey := o_serverHostKey base;
          o_plonkCommandLine := o_plonkCommandLine out |})
  | (true, base) =>
      let o_plonk_options := o_plonkCommandLine base in
      (true,
       {| o_serverAddress := o_serverAddress base;
          o_serverPort := o_serverPort base;
          o_serverHostKey := o_serverHostKey base;
          o_plonkCommandLine :=
            (o_plonk_options ++ " " ++ o_serverAddress base)%string |})
  end.

#[export] Instance class : SSHTransportClass :=
  Build_SSHTransportClass "SSH" "SSH" IsHandshakeRequired GetSSHParams.

End SSHTransport.

Module OSSHTransport.

Definition IsHandshakeRequired (sessionInfo : SessionInfo) : bool :=
  let sufficientInfo :=
    nonempty (GetServerAddress sessionInfo)
    && (0 <? GetSSHObfuscatedPort sessionInfo)
    && nonempty (GetSSHHostKey sessionInfo)
    && nonempty (GetSSHUsername sessionInfo)
    && nonempty (GetSSHPassword sessionInfo)
    && nonempty (GetSSHObfuscatedKey sessionInfo) in
  negb sufficientInfo.

(** [OSSHTransport::GetSSHParams] *)
Definition GetSSHParams (E : Env) (this : SSHTransportBase)
    (sessionInfo : SessionInfo) (localSocksProxyPort : Z)
    (sshPassword : string) (out : SSHParams) : bool * SSHParams :=
  if (GetSSHObfuscatedPort sessionInfo <=? 0)
     || negb (nonempty (GetSSHObfuscatedKey sessionInfo))
  then (false, out)
  else
    match SSHTransportBase.GetSSHParams E this sessionInfo
            localSocksProxyPort sshPassword out with
    | (false, base) =>
        (false,
         {| o_serverAddress := o_serverAddress base;
            o_serverPort := o_serverPort base;
            o_serverHostKey := o_serverHostKey base;
            o_plonkCommandLine := o_plonkCommandLine out |})
    | (true, base) =>
        let o_plonk_options := o_plonkCommandLine base in
        (true,
         {| o_serverAddress := o_serverAddress base;
            o_serverPort := o_serverPort base;
            o_serverHostKey := o_serverHostKey base;
            o_plonkCommandLine :=
              (o_plonk_options
                 ++ " -z -Z "
                 ++ c_str (NarrowToTString E (GetSSHObfuscatedKey sessionInfo))
                 ++ " " ++ c_str (o_serverAddress base))%string |})
    end.

#[export] Instance class : SSHTransportClass :=
  Build_SSHTransportClass "OSSH" "SSH+" IsHandshakeRequired GetSSHParams.

End OSSHTransport.

(* ================================================================== *)
(** ** utilities.cpp: hexadecimal and URL encoding *)

(** How a call that can throw [std::invalid_argument] ends. *)
Inductive Outcome (A : Type) :=
| Ok (a : A)
| invalid_argument (what : string).
Arguments Ok {A} a.
Arguments invalid_argument {A} what.

(** [static const char* const lut = "0123456789ABCDEF";] *)
Definition lut : string := "0123456789ABCDEF".

(** [lut[i]]; [lut[16]] is the terminating NUL of the literal. *)
Definition lut_at (i : N) : ascii :=
  match String.get (N.to_nat i) lut with
  | Some c => c
  | None => Ascii.zero
  end.

(** [Hexlify (input, length)]: the bytes are the characters of [input]. *)
Fixpoint Hexlify (input : string) : string :=
  match input with
  | EmptyString => EmptyString
  | String c rest =>
      String (lut_at (N.shiftr (N_of_ascii c) 4))
        (String (lut_at (N.land (N_of_ascii c) 15)) (Hexlify rest))
  end.

(** The value of a [char], which is signed. *)
Definition char_value (c : ascii) : Z :=
  let n := Z.of_N (N_of_ascii c) in
  if n <? 128 then n else n - 256.

(** [toupper] in the "C" locale: the letters [a-z] are put in upper case,
    every other character is left as it is. *)
Definition toupper (c : ascii) : ascii :=
  let n := N_of_ascii c in
  if ((97 <=? n) && (n <=? 122))%N then ascii_of_N (n - 32) else c.

(** [std::lower_bound (lut, lut + 16, a) - lut]: how many of the sixteen
    digits, which are in ascending order, are less than [a]. *)
Fixpoint lower_bound_from (digits : string) (a : ascii) : N :=
  match digits with
  | EmptyString => 0
  | String d rest =>
      if char_value d <? char_value a then N.succ (lower_bound_from rest a)
      else 0
  end.

Definition lower_bound_lut (a : ascii) : N := lower_bound_from lut a.

(** The body of the loop of [Dehexlify] on the two characters at [i] and
    [i + 1]: the byte, or the exception. *)
Definition Dehexlify_pair (x y : ascii) : Outcome ascii :=
  let a := toupper x in
  let p := lower_bound_lut a in
  if negb (Ascii.eqb (lut_at p) a) then
    invalid_argument "Dehexlify: not a hex digit"
  else
    let b := toupper y in
    let q := lower_bound_lut b in
    if negb (Ascii.eqb (lut_at q) b) then
      invalid_argument "Dehexlify: not a hex digit"
    else Ok (ascii_of_N (N.lor (N.shiftl p 4) q)).

(** [for (size_t i = 0; i < len; i += 2)] of [Dehexlify], on an input of
    even length. *)
Fixpoint Dehexlify_loop (input : string) : Outcome string :=
  match input with
  | String x (String y rest) =>
      match Dehexlify_pair x y with
      | invalid_argument what => invalid_argument what
      | Ok c =>
          match Dehexlify_loop rest with
          | invalid_argument what => invalid_argument what
          | Ok output => Ok (String c output)
          end
      end
  | _ => Ok EmptyString
  end.

(** [Dehexlify (input)] *)
Definition Dehexlify (input : string) : Outcome string :=
  if N.odd (N.of_nat (String.length input)) then
    invalid_argument "Dehexlify: odd length"
  else Dehexlify_loop input.

(** A character of a [tstring] at its width: the program is built with
    [UNICODE], so that [TCHAR] is [wchar_t], a number of 16 bits. *)
Definition wchar_t := N.

(** A narrow character, and a narrow string, as a wide stream writes
    them. *)
Definition widen_char (c : ascii) : wchar_t := N_of_ascii c.

Definition widen (s : string) : list wchar_t :=
  map widen_char (list_ascii_of_string s).

(** [isalnum (c)] for the value [c] of a wide character, converted to
    [int]. In the "C" locale these are the ASCII letters and digits among
    the values up to 255. For a value above 255 the C library leaves the
    behaviour undefined: [beyond] is what the call answers there, [None]
    when it does not return (the debug runtime stops the program). *)
Definition isalnum (beyond : wchar_t -> option bool) (c : wchar_t)
  : option bool :=
  if (c <? 256)%N then
    Some (((48 <=? c) && (c <=? 57))
          || ((65 <=? c) && (c <=? 90))
          || ((97 <=? c) && (c <=? 122)))%N
  else beyond c.

(** [isalnum(c) || c == '-' || c == '_' || c == '.' || c == '~'] *)
Definition kept_by_UrlEncode (beyond : wchar_t -> option bool)
    (c : wchar_t) : option bool :=
  match isalnum beyond c with
  | None => None
  | Some true => Some true
  | Some false =>
      Some ((c =? widen_char "-")%N || (c =? widen_char "_")%N
            || (c =? widen_char ".")%N || (c =? widen_char "~")%N)
  end.

(** [stream << setw (w) << s] with the fill character [fill]. *)
Definition setw_fill (w : nat) (fill : ascii) (s : string) : string :=
  (string_of_list_ascii (repeat fill (w - String.length s)) ++ s)%string.

(** [stream << hex << uppercase << v] for [0 <= v < 256]. *)
Definition print_hex_uppercase (v : N) : string :=
  if (v <? 16)%N then String (lut_at v) EmptyString
  else String (lut_at (v / 16)) (String (lut_at (v mod 16)) EmptyString).

(** What [UrlEncode] sends to the stream for one character: the character
    itself, or [%] and, in a field of two filled with [0], the hexadecimal
    numeral of [int((unsigned char)c)], the low byte of the character. *)
Definition UrlEncode_char (beyond : wchar_t -> option bool) (c : wchar_t)
  : option (list wchar_t) :=
  match kept_by_UrlEncode beyond c with
  | None => None
  | Some true => Some [c]
  | Some false =>
      Some (widen_char "%"
              :: widen (setw_fill 2 "0" (print_hex_uppercase (c mod 256)%N)))
  end.

(** [UrlEncode (input)]: the string returned, [None] when a call of
    [isalnum] does not return. *)
Fixpoint UrlEncode (beyond : wchar_t -> option bool) (input : list wchar_t)
  : option (list wchar_t) :=
  match input with
  | [] => Some []
  | c :: rest =>
      match UrlEncode_char beyond c with
      | None => None
      | Some escaped =>
          match UrlEncode beyond rest with
          | None => None
          | Some escapedURL => Some (escaped ++ escapedURL)%list
          end
      end
  end.

(* ================================================================== *)
(** ** sshtransport.cpp: SetPlonkSSHHostKey *)

(** A byte of a buffer. *)
Definition BYTE := ascii.

(** How code that reads a buffer through indices ends: with a result, with
    a read outside the buffer (behaviour the language leaves undefined), or
    with a loop that [fuel] passes did not bring to its end. *)
Inductive Run (A : Type) :=
| Finished (a : A)
| OutOfBounds
| OutOfFuel.
Arguments Finished {A} a.
Arguments OutOfBounds {A}.
Arguments OutOfFuel {A}.

(** The calls [SetPlonkSSHHostKey] makes to the registry. *)
Inductive RegistryCall :=
| EvRegCreateKeyEx (returnCode key : Z)
| EvRegSetValueExA (key : Z) (valueName data : string) (cbData : Z)
    (returnCode : Z)
| EvRegCloseKey (key : Z).

(** What [SetPlonkSSHHostKey] obtains from outside. *)
Record HostKeyEnv := {
  (** the two calls of [CryptStringToBinary] with [CRYPT_STRING_BASE64] and
      the allocation between them: the decoded bytes, [None] when one of
      the three fails *)
  CryptStringToBinary : tstring -> option (list BYTE);
  (** [TStringToNarrow] of utilities *)
  TStringToNarrow : tstring -> string;
  (** [RegCreateKeyEx (HKEY_CURRENT_USER, plonkRegistryKey, ...)]: the
      return code and the key *)
  RegCreateKeyEx : Z * Z;
  (** [RegSetValueExA (key, valueName, 0, REG_SZ, data, cbData)] *)
  RegSetValueExA : Z -> string -> string -> Z -> Z
}.

(** [decodedFields[i]] *)
Definition read_BYTE (decodedFields : list BYTE) (i : Z) : option BYTE :=
  if i <? 0 then None else nth_error decodedFields (Z.to_nat i).

(** [memcmp (decodedFields + offset, expected, n) != 0], which reads the
    [n] bytes of [expected] from the buffer. *)
Definition memcmp_differs (decodedFields : list BYTE) (offset : Z)
    (expected : list BYTE) : Run bool :=
  if offset + Z.of_nat (List.length expected)
       <=? Z.of_nat (List.length decodedFields)
  then
    Finished
      (negb (String.eqb
               (string_of_list_ascii
                  (firstn (List.length expected)
                     (skipn (Z.to_nat offset) decodedFields)))
               (string_of_list_ascii expected)))
  else OutOfBounds.

(** [ntohl] of the [long] at [decodedFields + offset]: the four bytes at
    [offset] as a number, the first byte the most significant. *)
Definition ntohl_at (decodedFields : list BYTE) (offset : Z) : option Z :=
  match read_BYTE decodedFields offset, read_BYTE decodedFields (offset + 1),
        read_BYTE decodedFields (offset + 2),
        read_BYTE decodedFields (offset + 3) with
  | Some b0, Some b1, Some b2, Some b3 =>
      Some (Z.of_N (N_of_ascii b0) * 16777216
            + Z.of_N (N_of_ascii b1) * 65536
            + Z.of_N (N_of_ascii b2) * 256
            + Z.of_N (N_of_ascii b3))
  | _, _, _, _ => None
  end.

(** [const char* hexDigits = "0123456789abcdef";] *)
Definition hexDigits : string := "0123456789abcdef".

Definition hexDigits_at (i : N) : ascii :=
  match String.get (N.to_nat i) hexDigits with
  | Some c => c
  | None => Ascii.zero
  end.

(** [field += digit] *)
Definition push_digit (field : string) (digit : ascii) : string :=
  (field ++ String digit EmptyString)%string.

(** The body of [for (unsigned long i = 0; i < nextLen; i++)] for the byte
    [b] at [decodedFields[offset + i]]. *)
Definition field_step (nextLen i : Z) (field : string) (b : BYTE) : string :=
  let digit := hexDigits_at (N.shiftr (N_of_ascii b) 4) in
  (* Don't add leading zeroes *)
  let field :=
    if negb (Ascii.eqb digit "0") || nonempty field
    then push_digit field digit else field in
  let digit := hexDigits_at (N.land (N_of_ascii b) 15) in
  (* Always include last nibble (e.g. 0x0) *)
  if (i =? DWORD (nextLen - 1))
     || (negb (Ascii.eqb digit "0") || nonempty field)
  then push_digit field digit else field.

(** [for (unsigned long i = 0; i < nextLen; i++) { ... }] from [i] on. *)
Fixpoint field_loop (fuel : nat) (decodedFields : list BYTE)
    (offset nextLen i : Z) (field : string) : Run string :=
  match fuel with
  | O => OutOfFuel
  | S fuel' =>
      if i <? nextLen then
        match read_BYTE decodedFields (DWORD (offset + i)) with
        | None => OutOfBounds
        | Some b =>
            field_loop fuel' decodedFields offset nextLen (DWORD (i + 1))
              (field_step nextLen i field b)
        end
      else Finished field
  end.

(** [while (offset < size - sizeof (unsigned long)) { ... }] of
    [SetPlonkSSHHostKey]. [offset], [nextLen] and [size] are of type
    [unsigned long], whose sums wrap at 32 bits; the difference at the
    head of the loop is taken as a 32-bit build takes it (the check of the
    key type has made [size] at least 11 by then). The inner loop reads one
    byte in each pass, at successive indices from [offset] on, so it ends,
    if only with a read outside the buffer, within as many passes as the
    buffer has bytes, and one more. *)
Fixpoint fields_loop (fuel : nat) (decodedFields : list BYTE)
    (size offset : Z) (data : string) : Run string :=
  match fuel with
  | O => OutOfFuel
  | S fuel' =>
      if offset <? DWORD (size - 4) then
        match ntohl_at decodedFields offset with
        | None => OutOfBounds
        | Some nextLen =>
            let offset := DWORD (offset + 4) in
            if (0 <? nextLen) && (DWORD (offset + nextLen) <=? size) then
              match field_loop (S (List.length decodedFields)) decodedFields
                      offset nextLen 0 EmptyString with
              | Finished field =>
                  let field := ("0x" ++ field)%string in
                  let data :=
                    if nonempty data then (data ++ ",")%string else data in
                  let data := (data ++ field)%string in
                  fields_loop fuel' decodedFields size
                    (DWORD (offset + nextLen)) data
              | OutOfBounds => OutOfBounds
              | OutOfFuel => OutOfFuel
              end
            else fields_loop fuel' decodedFields size offset data
        end
      else Finished data
  end.

(** [htonl (strlen (expectedKeyTypeValue))] as it lies in memory. *)
Definition expectedKeyTypeLen : list BYTE :=
  ["000"; "000"; "000"; "007"]%char.

Definition expectedKeyTypeValue : string := "ssh-rsa".

(** The decoding of the fields of [SetPlonkSSHHostKey]: [None] when the key
    type is not the expected one, the text for the registry otherwise. Each
    pass of the outer loop moves [offset] forward by four bytes at least,
    so the loop ends within as many passes as the buffer has bytes. *)
Definition decode_fields (decodedFields : list BYTE) : Run (option string) :=
  let size := Z.of_nat (List.length decodedFields) in
  match memcmp_differs decodedFields 0 expectedKeyTypeLen with
  | OutOfBounds => OutOfBounds
  | OutOfFuel => OutOfFuel
  | Finished true => Finished None
  | Finished false =>
      match memcmp_differs decodedFields 4
              (list_ascii_of_string expectedKeyTypeValue) with
      | OutOfBounds => OutOfBounds
      | OutOfFuel => OutOfFuel
      | Finished true => Finished None
      | Finished false =>
          let offset := 4 + Z.of_nat (String.length expectedKeyTypeValue) in
          match fields_loop (S (List.length decodedFields)) decodedFields
                  size offset EmptyString with
          | Finished data => Finished (Some data)
          | OutOfBounds => OutOfBounds
          | OutOfFuel => OutOfFuel
          end
      end
  end.

(** [SetPlonkSSHHostKey (sshServerAddress, sshServerPort,
    sshServerHostKey)]: the result and the calls to the registry. *)
Definition SetPlonkSSHHostKey (H : HostKeyEnv) (sshServerAddress : tstring)
    (sshServerPort : Z) (sshServerHostKey : tstring)
  : Run (bool * list RegistryCall) :=
  match CryptStringToBinary H sshServerHostKey with
  | None => Finished (false, [])
  | Some decodedFields =>
      match decode_fields decodedFields with
      | OutOfBounds => OutOfBounds
      | OutOfFuel => OutOfFuel
      | Finished None => Finished (false, [])
      | Finished (Some data) =>
          let value :=
            ("rsa2@" ++ print_int sshServerPort ++ ":"
               ++ TStringToNarrow H sshServerAddress)%string in
          let (returnCode, key) := RegCreateKeyEx H in
          if negb (ERROR_SUCCESS =? returnCode) then
            Finished (false, [EvRegCreateKeyEx returnCode key])
          else
            let cbData := Z.of_nat (String.length data) + 1 in
            let returnCode' := RegSetValueExA H key (c_str value) data cbData in
            Finished
              (ERROR_SUCCESS =? returnCode',
               [EvRegCreateKeyEx returnCode key;
                EvRegSetValueExA key (c_str value) data cbData returnCode';
                EvRegCloseKey key])
      end
  end.

(* ================================================================== *)
(** ** utilities.cpp: CreateSubprocessPipes *)

(** The calls [CreateSubprocessPipes] makes, with their answers. *)
Inductive PipeCall :=
| EvCreatePipe (handles : option (Z * Z))
| EvDuplicateHandle (source : Z) (inheritable : bool) (target : option Z)
| EvClosePipeHandle (handle : Z) (ok : bool).

(** The system as [CreateSubprocessPipes] sees it: the [k]-th call of a
    kind is answered by the field at [k]. [CreatePipe] answers with the
    read and the write handle, [DuplicateHandle] with the new handle; a
    call that fails leaves the handles it was to set as they were. *)
Record PipeEnv := {
  CreatePipe_at : nat -> option (Z * Z);
  DuplicateHandle_at : nat -> option Z;
  CloseHandle_at : nat -> bool
}.

Record PipeWorld := {
  n_pipe : nat;
  n_duplicate : nat;
  n_close : nat;
  pipe_calls : list PipeCall
}.

Definition PipeWorld0 : PipeWorld :=
  {| n_pipe := 0; n_duplicate := 0; n_close := 0; pipe_calls := [] |}.

Definition CreatePipe (P : PipeEnv) (w : PipeWorld)
  : option (Z * Z) * PipeWorld :=
  let r := CreatePipe_at P (n_pipe w) in
  (r, {| n_pipe := S (n_pipe w); n_duplicate := n_duplicate w;
         n_close := n_close w;
         pipe_calls := pipe_calls w ++ [EvCreatePipe r] |}).

Definition DuplicateHandle (P : PipeEnv) (source : Z) (inheritable : bool)
    (w : PipeWorld) : option Z * PipeWorld :=
  let r := DuplicateHandle_at P (n_duplicate w) in
  (r, {| n_pipe := n_pipe w; n_duplicate := S (n_duplicate w);
         n_close := n_close w;
         pipe_calls :=
           pipe_calls w ++ [EvDuplicateHandle source inheritable r] |}).

Definition ClosePipeHandle (P : PipeEnv) (handle : Z) (w : PipeWorld)
  : bool * PipeWorld :=
  let r := CloseHandle_at P (n_close w) in
  (r, {| n_pipe := n_pipe w; n_duplicate := n_duplicate w;
         n_close := S (n_close w);
         pipe_calls := pipe_calls w ++ [EvClosePipeHandle handle r] |}).

(** The local handles of [CreateSubprocessPipes]. *)
Record PipeHandles := {
  hParentOutputReadTmp : Z;
  hParentOutputRead : Z;
  hChildStdoutWrite : Z;
  hChildStderrWrite : Z;
  hChildStdinRead : Z;
  hParentInputWriteTmp : Z;
  hParentInputWrite : Z
}.

(** The references [CreateSubprocessPipes] writes through. *)
Record SubprocessPipes := {
  o_parentOutputPipe : Z;
  o_parentInputPipe : Z;
  o_childStdinPipe : Z;
  o_childStdoutPipe : Z;
  o_childStderrPipe : Z
}.

(** [if (h != INVALID_HANDLE_VALUE) CloseHandle (h);] *)
Definition close_unless_invalid (P : PipeEnv) (h : Z) (w : PipeWorld)
  : PipeWorld :=
  if h =? INVALID_HANDLE_VALUE then w else snd (ClosePipeHandle P h w).

(** The seven lines every failure branch of [CreateSubprocessPipes]
    starts with. *)
Definition close_all (P : PipeEnv) (h : PipeHandles) (w : PipeWorld)
  : PipeWorld :=
  let w := close_unless_invalid P (hParentOutputReadTmp h) w in
  let w := close_unless_invalid P (hParentOutputRead h) w in
  let w := close_unless_invalid P (hChildStdoutWrite h) w in
  let w := close_unless_invalid P (hChildStderrWrite h) w in
  let w := close_unless_invalid P (hChildStdinRead h) w in
  let w := close_unless_invalid P (hParentInputWriteTmp h) w in
  close_unless_invalid P (hParentInputWrite h) w.

Definition no_pipes : SubprocessPipes :=
  {| o_parentOutputPipe := INVALID_HANDLE_VALUE;
     o_parentInputPipe := INVALID_HANDLE_VALUE;
     o_childStdinPipe := INVALID_HANDLE_VALUE;
     o_childStdoutPipe := INVALID_HANDLE_VALUE;
     o_childStderrPipe := INVALID_HANDLE_VALUE |}.

(** [CreateSubprocessPipes (o_parentOutputPipe, o_parentInputPipe,
    o_childStdinPipe, o_childStdoutPipe, o_childStderrPipe)] *)
Definition CreateSubprocessPipes (P : PipeEnv) (w : PipeWorld)
  : bool * SubprocessPipes * PipeWorld :=
  let h :=
    {| hParentOutputReadTmp := INVALID_HANDLE_VALUE;
       hParentOutputRead := INVALID_HANDLE_VALUE;
       hChildStdoutWrite := INVALID_HANDLE_VALUE;
       hChildStderrWrite := INVALID_HANDLE_VALUE;
       hChildStdinRead := INVALID_HANDLE_VALUE;
       hParentInputWriteTmp := INVALID_HANDLE_VALUE;
       hParentInputWrite := INVALID_HANDLE_VALUE |} in
  (* Create the child output pipe. *)
  match CreatePipe P w with
  | (None, w) => (false, no_pipes, close_all P h w)
  | (Some (read, write), w) =>
  let h :=
    {| hParentOutputReadTmp := read;
       hParentOutputRead := hParentOutputRead h;
       hChildStdoutWrite := write;
       hChildStderrWrite := hChildStderrWrite h;
       hChildStdinRead := hChildStdinRead h;
       hParentInputWriteTmp := hParentInputWriteTmp h;
       hParentInputWrite := hParentInputWrite h |} in
  (* Create a duplicate of the output write handle for the std error
     write handle. *)
  match DuplicateHandle P (hChildStdoutWrite h) true w with
  | (None, w) => (false, no_pipes, close_all P h w)
  | (Some target, w) =>
  let h :=
    {| hParentOutputReadTmp := hParentOutputReadTmp h;
       hParentOutputRead := hParentOutputRead h;
       hChildStdoutWrite := hChildStdoutWrite h;
       hChildStderrWrite := target;
       hChildStdinRead := hChildStdinRead h;
       hParentInputWriteTmp := hParentInputWriteTmp h;
       hParentInputWrite := hParentInputWrite h |} in
  (* Create new output read handle; make it uninheritable. *)
  match DuplicateHandle P (hParentOutputReadTmp h) false w with
  | (None, w) => (false, no_pipes, close_all P h w)
  | (Some target, w) =>
  let h :=
    {| hParentOutputReadTmp := hParentOutputReadTmp h;
       hParentOutputRead := target;
       hChildStdoutWrite := hChildStdoutWrite h;
       hChildStderrWrite := hChildStderrWrite h;
       hChildStdinRead := hChildStdinRead h;
       hParentInputWriteTmp := hParentInputWriteTmp h;
       hParentInputWrite := hParentInputWrite h |} in
  (* Close inheritable copies of the handles you do not want to be
     inherited. *)
  match ClosePipeHandle P (hParentOutputReadTmp h) w with
  | (false, w) => (false, no_pipes, close_all P h w)
  | (true, w) =>
  let h :=
    {| hParentOutputReadTmp := INVALID_HANDLE_VALUE;
       hParentOutputRead := hParentOutputRead h;
       hChildStdoutWrite := hChildStdoutWrite h;
       hChildStderrWrite := hChildStderrWrite h;
       hChildStdinRead := hChildStdinRead h;
       hParentInputWriteTmp := hParentInputWriteTmp h;
       hParentInputWrite := hParentInputWrite h |} in
  (* Create the pipe the parent can use to write to the child's stdin *)
  match CreatePipe P w with
  | (None, w) => (false, no_pipes, close_all P h w)
  | (Some (read, write), w) =>
  let h :=
    {| hParentOutputReadTmp := hParentOutputReadTmp h;
       hParentOutputRead := hParentOutputRead h;
       hChildStdoutWrite := hChildStdoutWrite h;
       hChildStderrWrite := hChildStderrWrite h;
       hChildStdinRead := read;
       hParentInputWriteTmp := write;
       hParentInputWrite := hParentInputWrite h |} in
  (* Duplicate the parent's end of the pipe, so the child can't inherit
     it. *)
  match DuplicateHandle P (hParentInputWriteTmp h) false w with
  | (None, w) => (false, no_pipes, close_all P h w)
  | (Some target, w) =>
  let h :=
    {| hParentOutputReadTmp := hParentOutputReadTmp h;
       hParentOutputRead := hParentOutputRead h;
       hChildStdoutWrite := hChildStdoutWrite h;
       hChildStderrWrite := hChildStderrWrite h;
       hChildStdinRead := hChildStdinRead h;
       hParentInputWriteTmp := hParentInputWriteTmp h;
       hParentInputWrite := target |} in
  (* Close inheritable copies of the handles you do not want to be
     inherited. *)
  match ClosePipeHandle P (hParentInputWriteTmp h) w with
  | (false, w) => (false, no_pipes, close_all P h w)
  | (true, w) =>
      (true,
       {| o_parentOutputPipe := hParentOutputRead h;
          o_parentInputPipe := hParentInputWrite h;
          o_childStdinPipe := hChildStdinRead h;
          o_childStdoutPipe := hChildStdoutWrite h;
          o_childStderrPipe := hChildStderrWrite h |},
       w)
  end end end end end end end.

(* ================================================================== *)
(** ** utilities.cpp: GetDeviceRegion *)

(** [std::wstring]: a sequence of characters, as [tstring] is. *)
Definition wstring := string.

(** [std::transform (s.begin (), s.end (), s.begin (), op)] *)
Fixpoint transform (op : ascii -> ascii) (s : wstring) : wstring :=
  match s with
  | EmptyString => EmptyString
  | String c rest => String (op c) (transform op rest)
  end.

(** An entry of the resource [COUNTRY_DIALING_CODES.JSON], as the loop of
    [GetDeviceRegion] reads it:
    [UTF8ToWString (entry.get ("dialing_code", "").asString ())] and
    [UTF8ToWString (entry.get ("country_code", "").asString ())]. *)
Record DialingCodeEntry := {
  entry_dialing_code : wstring;
  entry_country_code : wstring
}.

(** What [GetDeviceRegion] obtains from outside. *)
Record RegionEnv := {
  (** [GetCountryDialingCode (countryDialingCode)]: the result and the
      reference as the call leaves it *)
  GetCountryDialingCode : bool * wstring;
  (** the entries of the resource, [None] when the resource cannot be
      loaded or is not parsed *)
  country_dialing_codes : option (list DialingCodeEntry);
  (** [g_uiLocale], which [SetUiLocale] sets *)
  g_uiLocale : wstring
}.

(** [const wstring GENERIC_COUNTRY = L"US";] *)
Definition GENERIC_COUNTRY : wstring := "US".

Definition localeToCountryMap : list (wstring * wstring) :=
  [("AR", "SA"); ("EN", "US"); ("FA", "IR"); ("RU", "RU");
   ("TK", "TM"); ("TR", "TR"); ("VI", "VN"); ("ZH", "CN")].

(** [map[key]] of a [std::map] of strings: the value, the empty string for
    a key that is not there. *)
Fixpoint map_at (map : list (wstring * wstring)) (key : wstring) : wstring :=
  match map with
  | [] => EmptyString
  | (k, v) :: rest => if String.eqb k key then v else map_at rest key
  end.

(** [std::find (v.begin (), v.end (), x) != v.end ()] *)
Fixpoint found_in (v : list wstring) (x : wstring) : bool :=
  match v with
  | [] => false
  | y :: rest => String.eqb y x || found_in rest x
  end.

(** [s.substr (0, s.length () - 1)] for [s.length () > 1], the empty
    string otherwise. *)
Definition truncated (s : wstring) : wstring :=
  if (1 <? String.length s)%nat
  then substring 0 (String.length s - 1) s
  else EmptyString.

(** [!v.empty ()] *)
Definition nonempty_list {A : Type} (v : list A) : bool :=
  match v with [] => false | _ :: _ => true end.

(** The loop [for (const Json::Value& entry : json)]: the countries of the
    entries that match the dialing code, and of those that match the
    truncated dialing code. *)
Fixpoint match_entries (json : list DialingCodeEntry)
    (countryDialingCode countryDialingCodeTruncated : wstring)
    (dialingCodeCountries dialingCodeCountriesTruncatedMatch : list wstring)
  : list wstring * list wstring :=
  match json with
  | [] => (dialingCodeCountries, dialingCodeCountriesTruncatedMatch)
  | entry :: rest =>
      let entryDialingCode := entry_dialing_code entry in
      let dialingCodeCountries :=
        if nonempty entryDialingCode
           && String.eqb entryDialingCode countryDialingCode
        then
          let entryCountryCode := entry_country_code entry in
          if nonempty entryCountryCode
          then (dialingCodeCountries
                  ++ [transform toupper entryCountryCode])%list
          else dialingCodeCountries
        else dialingCodeCountries in
      let dialingCodeCountriesTruncatedMatch :=
        if nonempty entryDialingCode
           && String.eqb entryDialingCode countryDialingCodeTruncated
        then
          let entryCountryCode := entry_country_code entry in
          if nonempty entryCountryCode
          then (dialingCodeCountriesTruncatedMatch
                  ++ [transform toupper entryCountryCode])%list
          else dialingCodeCountriesTruncatedMatch
        else dialingCodeCountriesTruncatedMatch in
      match_entries rest countryDialingCode countryDialingCodeTruncated
        dialingCodeCountries dialingCodeCountriesTruncatedMatch
  end.

(** The first part of [GetDeviceRegion]: [dialingCodeCountries]. *)
Definition dialing_code_countries (R : RegionEnv) : list wstring :=
  let (ok, countryDialingCode) := GetCountryDialingCode R in
  if ok && nonempty countryDialingCode then
    match country_dialing_codes R with
    | Some json =>
        let (dialingCodeCountries, dialingCodeCountriesTruncatedMatch) :=
          match_entries json countryDialingCode
            (truncated countryDialingCode) [] [] in
        if negb (nonempty_list dialingCodeCountries)
           && nonempty_list dialingCodeCountriesTruncatedMatch
        then dialingCodeCountriesTruncatedMatch
        else dialingCodeCountries
    | None => []
    end
  else [].

(** [GetDeviceRegion ()] *)
Definition GetDeviceRegion (R : RegionEnv) : wstring :=
  let dialingCodeCountries := dialing_code_countries R in
  let uiLocaleUpper := transform toupper (g_uiLocale R) in
  let uiLocaleCountry := map_at localeToCountryMap uiLocaleUpper in
  let genericCountryInDialingCodeCountries :=
    found_in dialingCodeCountries GENERIC_COUNTRY in
  if nonempty_list dialingCodeCountries
     && negb genericCountryInDialingCodeCountries
  then
    if nonempty uiLocaleCountry && found_in dialingCodeCountries uiLocaleCountry
    then uiLocaleCountry
    else hd EmptyString dialingCodeCountries
  else if nonempty uiLocaleCountry then uiLocaleCountry
  else EmptyString.

(* ================================================================== *)
(** ** utilities.cpp: ExtractExecutable *)

(** The calls [ExtractExecutable] makes, with their answers. *)
Inductive FileCall :=
| EvGetResourceBytes (resourceID : Z) (ok : bool)
| EvGetTempPath (ok : bool)
| EvPathCombine (directory file : tstring) (ok : bool)
| EvCreateFile (filePath : tstring) (handle lastError : Z)
| EvTerminateProcessByName (executableName : tstring)
| EvWriteFile (handle : Z) (data : list BYTE) (ok : bool) (written : Z)
| EvFlushFileBuffers (handle : Z) (ok : bool)
| EvCloseFile (handle : Z).

(** What [ExtractExecutable] obtains from outside. *)
Record FileEnv := {
  (** [GetResourceBytes (resourceID, RT_RCDATA, data, size)]: the bytes *)
  GetResourceBytes : Z -> option (list BYTE);
  (** [GetTempPath (tempPath)] of utilities *)
  GetTempPath : option tstring;
  (** [PathCombine (filePath, directory, file)] *)
  PathCombine : tstring -> tstring -> option tstring;
  (** the [k]-th [CreateFile (filePath, GENERIC_WRITE, 0, NULL,
      CREATE_ALWAYS, ...)]: the handle, and what [GetLastError] says
      after it *)
  CreateFile_at : nat -> Z * Z;
  (** [WriteFile (tempFile, data, size, &written, NULL)]: the result and
      [written] *)
  WriteFile : Z -> list BYTE -> bool * Z;
  (** [FlushFileBuffers (tempFile)] *)
  FlushFileBuffers : Z -> bool
}.

Definition ERROR_SHARING_VIOLATION : Z := 32.

(** How the loop of [ExtractExecutable] is left. *)
Inductive CreateOutcome :=
| FileCreated (tempFile : Z)
| FileExists
| FileRefused.

(** [while (true) { tempFile = CreateFile (...); ... }]; [k] counts the
    calls of [CreateFile] made before, [None] when [fuel] passes did not
    leave the loop. *)
Fixpoint create_loop (F : FileEnv) (fuel : nat) (filePath exeFilename : tstring)
    (succeedIfExists attemptedTerminate : bool) (k : nat)
    (calls : list FileCall) : option (CreateOutcome * list FileCall) :=
  match fuel with
  | O => None
  | S fuel' =>
      let (tempFile, lastError) := CreateFile_at F k in
      let calls := (calls ++ [EvCreateFile filePath tempFile lastError])%list in
      if tempFile =? INVALID_HANDLE_VALUE then
        if negb attemptedTerminate
           && (ERROR_SHARING_VIOLATION =? lastError)
        then
          if succeedIfExists then Some (FileExists, calls)
          else
            let calls :=
              (calls ++ [EvTerminateProcessByName exeFilename])%list in
            create_loop F fuel' filePath exeFilename succeedIfExists true
              (S k) calls
        else Some (FileRefused, calls)
      else Some (FileCreated tempFile, calls)
  end.

Module FileExtraction.

(** [ExtractExecutable (resourceID, exeFilename, path, succeedIfExists)]:
    the result, [path] as the call leaves it, and the calls made. *)
Definition ExtractExecutable (F : FileEnv) (fuel : nat) (resourceID : Z)
    (exeFilename path : tstring) (succeedIfExists : bool)
  : option (bool * tstring * list FileCall) :=
  match GetResourceBytes F resourceID with
  | None => Some (false, path, [EvGetResourceBytes resourceID false])
  | Some data =>
  let calls := [EvGetResourceBytes resourceID true] in
  match GetTempPath F with
  | None => Some (false, path, (calls ++ [EvGetTempPath false])%list)
  | Some tempPath =>
  let calls := (calls ++ [EvGetTempPath true])%list in
  match PathCombine F (c_str tempPath) exeFilename with
  | None =>
      Some (false, path,
            (calls ++ [EvPathCombine (c_str tempPath) exeFilename false])%list)
  | Some filePath =>
  let calls :=
    (calls ++ [EvPathCombine (c_str tempPath) exeFilename true])%list in
  match create_loop F fuel filePath exeFilename succeedIfExists false 0
          calls with
  | None => None
  | Some (FileRefused, calls) => Some (false, path, calls)
  | Some (FileExists, calls) => Some (true, filePath, calls)
  | Some (FileCreated tempFile, calls) =>
      let (ok, written) := WriteFile F tempFile data in
      let calls := (calls ++ [EvWriteFile tempFile data ok written])%list in
      if negb ok || negb (written =? Z.of_nat (List.length data)) then
        Some (false, path, (calls ++ [EvCloseFile tempFile])%list)
      else
        let flushed := FlushFileBuffers F tempFile in
        let calls := (calls ++ [EvFlushFileBuffers tempFile flushed])%list in
        if negb flushed then
          Some (false, path, (calls ++ [EvCloseFile tempFile])%list)
        else Some (true, filePath, (calls ++ [EvCloseFile tempFile])%list)
  end end end end.

End FileExtraction.

(* ================================================================== *)
(** ** sshtransport.cpp: DoPeriodicCheck; utilities.cpp: IsOSSupported *)

Definition WAIT_OBJECT_0 : Z := 0.

(** [SSHTransportBase::DoPeriodicCheck ()]. [WaitForSingleObject_0] is the
    result of [WaitForSingleObject (h, 0)] for a handle, [GetLastError]
    what the system reports when that call fails. *)
Definition DoPeriodicCheck (WaitForSingleObject_0 : Z -> Z)
    (GetLastError : Z) (this : SSHTransportBase) : Completion bool :=
  (* Check if we've lost the Plonk process *)
  if negb (hProcess (m_plonkProcessInfo this) =? 0) then
    let result :=
      DWORD (WaitForSingleObject_0 (hProcess (m_plonkProcessInfo this))) in
    if result =? WAIT_TIMEOUT then Returned true
    else if result =? WAIT_OBJECT_0 then Returned false
    else
      Thrown
        (Error
           ("SSHTransportBase::DoPeriodicCheck: WaitForSingleObject failed ("
              ++ print_int result ++ ", " ++ print_int GetLastError ++ ")"))
  else
    (* If we're here, then there's no Plonk process at all. *)
    Returned false.

(** [IsOSSupported ()]: the result and the static [cachedResult] as the
    call leaves it. [GetVersionEx] gives [dwMajorVersion] and
    [dwMinorVersion], [None] when the call fails. *)
Definition IsOSSupported (GetVersionEx : option (Z * Z)) (cachedResult : Z)
  : bool * Z :=
  if negb (cachedResult =? 0) then (0 <? cachedResult, cachedResult)
  else
    match GetVersionEx with
    | None => (true, cachedResult)
    | Some (dwMajorVersion, dwMinorVersion) =>
        let supported :=
          (6 <? dwMajorVersion)
          || ((dwMajorVersion =? 6) && (0 <? dwMinorVersion)) in
        (supported, if supported then 1 else -1)
    end.

(* ================================================================== *)
(** ** Sample inputs *)

(** An environment in which [NarrowToTString] keeps the characters, no
    upstream proxy is configured, the tick counter advances by 50 ms from
    one reading to the next, only port 1080 has a listener, and process
    creation succeeds. *)
Definition sample_env : Env :=
  {| DEBUG := false;
     NarrowToTString := fun s => s;
     UserSkipSSHParentProxySettings := true;
     UserSSHParentProxyType := "";
     UserSSHParentProxyHostname := "";
     UserSSHParentProxyPort := 0;
     UserSSHParentProxyUsername := "";
     UserSSHParentProxyPassword := "";
     GetUserLanProxy := fun t h p => (false, (t, h, p));
     tick_at := fun k => 50 * Z.of_nat k;
     connect_at := fun _ port => port =? 1080;
     signalled_at := fun _ => false;
     stop_at := fun _ => false;
     extract_at := fun _ => Some "plonk.exe";
     create_at := fun _ => Some {| hProcess := 44; hThread := 48;
                                   dwProcessId := 7; dwThreadId := 8 |};
     attach_at := fun _ => false;
     terminate_at := fun _ => true;
     TERMINATE_PROCESS_WAIT_MS := 5000 |}.

(** [E] with other answers of the tick counter, of the connection attempts,
    of the process handle and of the stop signal. *)
Definition with_oracles (E : Env) (ticks : nat -> Z)
    (connects : nat -> Z -> bool) (signalled stops : nat -> bool) : Env :=
  {| DEBUG := DEBUG E;
     NarrowToTString := NarrowToTString E;
     UserSkipSSHParentProxySettings := UserSkipSSHParentProxySettings E;
     UserSSHParentProxyType := UserSSHParentProxyType E;
     UserSSHParentProxyHostname := UserSSHParentProxyHostname E;
     UserSSHParentProxyPort := UserSSHParentProxyPort E;
     UserSSHParentProxyUsername := UserSSHParentProxyUsername E;
     UserSSHParentProxyPassword := UserSSHParentProxyPassword E;
     GetUserLanProxy := GetUserLanProxy E;
     tick_at := ticks;
     connect_at := connects;
     signalled_at := signalled;
     stop_at := stops;
     extract_at := extract_at E;
     create_at := create_at E;
     attach_at := attach_at E;
     terminate_at := terminate_at E;
     TERMINATE_PROCESS_WAIT_MS := TERMINATE_PROCESS_WAIT_MS E |}.

Definition sample_session : SessionInfo :=
  {| GetServerAddress := "203.0.113.5";
     GetSSHPort := 22;
     GetSSHObfuscatedPort := 8080;
     GetSSHHostKey := "AAAAB3NzaC1yc2E=";
     GetSSHUsername := "u";
     GetSSHPassword := "p";
     GetSSHObfuscatedKey := "k";
     GetSSHSessionID := "ssh-id";
     GetClientSessionID := "CS" |}.

Definition with_username (s : SessionInfo) (u : string) : SessionInfo :=
  {| GetServerAddress := GetServerAddress s;
     GetSSHPort := GetSSHPort s;
     GetSSHObfuscatedPort := GetSSHObfuscatedPort s;
     GetSSHHostKey := GetSSHHostKey s;
     GetSSHUsername := u;
     GetSSHPassword := GetSSHPassword s;
     GetSSHObfuscatedKey := GetSSHObfuscatedKey s;
     GetSSHSessionID := GetSSHSessionID s;
     GetClientSessionID := GetClientSessionID s |}.

Definition with_password (s : SessionInfo) (p : string) : SessionInfo :=
  {| GetServerAddress := GetServerAddress s;
     GetSSHPort := GetSSHPort s;
     GetSSHObfuscatedPort := GetSSHObfuscatedPort s;
     GetSSHHostKey := GetSSHHostKey s;
     GetSSHUsername := GetSSHUsername s;
     GetSSHPassword := p;
     GetSSHObfuscatedKey := GetSSHObfuscatedKey s;
     GetSSHSessionID := GetSSHSessionID s;
     GetClientSessionID := GetClientSessionID s |}.

Definition with_obfuscated_key (s : SessionInfo) (k : string) : SessionInfo :=
  {| GetServerAddress := GetServerAddress s;
     GetSSHPort := GetSSHPort s;
     GetSSHObfuscatedPort := GetSSHObfuscatedPort s;
     GetSSHHostKey := GetSSHHostKey s;
     GetSSHUsername := GetSSHUsername s;
     GetSSHPassword := GetSSHPassword s;
     GetSSHObfuscatedKey := k;
     GetSSHSessionID := GetSSHSessionID s;
     GetClientSessionID := GetClientSessionID s |}.

Definition with_host_key (s : SessionInfo) (k : string) : SessionInfo :=
  {| GetServerAddress := GetServerAddress s;
     GetSSHPort := GetSSHPort s;
     GetSSHObfuscatedPort := GetSSHObfuscatedPort s;
     GetSSHHostKey := k;
     GetSSHUsername := GetSSHUsername s;
     GetSSHPassword := GetSSHPassword s;
     GetSSHObfuscatedKey := GetSSHObfuscatedKey s;
     GetSSHSessionID := GetSSHSessionID s;
     GetClientSessionID := GetClientSessionID s |}.

Definition sample_stop : StopInfo := {| stopSignal := true; stopReasons := 1 |}.

Definition sample_transport : SSHTransportBase :=
  SSHTransportBase.set_plonkPath (SSHTransportBase.new sample_stop) "plonk.exe".

(** A password with an embedded NUL character. *)
Definition password_with_nul : string :=
  String "a" (String Ascii.zero (String "b" EmptyString)).

(** Two descriptors with different credentials and one command line. *)
Definition session_blank_in_username : SessionInfo :=
  {| GetServerAddress := "203.0.113.5";
     GetSSHPort := 22;
     GetSSHObfuscatedPort := 8080;
     GetSSHHostKey := "AAAAB3NzaC1yc2E=";
     GetSSHUsername := "u -pw x";
     GetSSHPassword := "p";
     GetSSHObfuscatedKey := "k";
     GetSSHSessionID := "ssh-id";
     GetClientSessionID := "CS" |}.

Definition session_blank_in_password : SessionInfo :=
  {| GetServerAddress := "203.0.113.5";
     GetSSHPort := 22;
     GetSSHObfuscatedPort := 8080;
     GetSSHHostKey := "AAAAB3NzaC1yc2E=";
     GetSSHUsername := "u";
     GetSSHPassword := " -pw CSp";
     GetSSHObfuscatedKey := "k";
     GetSSHSessionID := "ssh-id";
     GetClientSessionID := "x" |}.

(** An environment in which the subordinate process is found dead at the
    first look, and the stop signal is never raised. *)
Definition dying_env : Env :=
  with_oracles sample_env (fun k => 50 * Z.of_nat k)
    (fun _ _ => false) (fun _ => true) (fun _ => false).

(** An environment whose tick counter is one millisecond short of wrapping
    at the first reading (time in milliseconds goes on, the counter the
    program reads is [DWORD] of it). *)
Definition wrapping_env : Env :=
  with_oracles sample_env (fun k => MAXDWORD + Z.of_nat k)
    (fun _ _ => false) (fun _ => false) (fun _ => false).

(** As [wrapping_env], with the subordinate process found dead at every
    look. *)
Definition dying_wrapping_env : Env :=
  with_oracles sample_env (fun k => MAXDWORD + Z.of_nat k)
    (fun _ _ => false) (fun _ => true) (fun _ => false).

(** As [sample_env], with the stop signal raised at every look. *)
Definition cancelled_env : Env :=
  with_oracles sample_env (fun k => 50 * Z.of_nat k)
    (fun _ port => port =? 1080) (fun _ => false) (fun _ => true).

(** As [sample_env], with no listener on any port. *)
Definition quiet_env : Env :=
  with_oracles sample_env (fun k => 50 * Z.of_nat k)
    (fun _ _ => false) (fun _ => false) (fun _ => false).

(** An environment in which nothing listens during port negotiation and
    the launched process accepts connections from then on. *)
Definition connecting_env : Env :=
  with_oracles sample_env (fun k => 50 * Z.of_nat k)
    (fun k _ => (1 <=? k)%nat) (fun _ => false) (fun _ => false).

(** An environment in which the stop signal is raised at every look, the
    subordinate process never ends, and neither [AttachConsole] nor
    [TerminateProcess] succeeds. *)
Definition stubborn_env : Env :=
  {| DEBUG := false;
     NarrowToTString := fun s => s;
     UserSkipSSHParentProxySettings := true;
     UserSSHParentProxyType := "";
     UserSSHParentProxyHostname := "";
     UserSSHParentProxyPort := 0;
     UserSSHParentProxyUsername := "";
     UserSSHParentProxyPassword := "";
     GetUserLanProxy := fun t h p => (false, (t, h, p));
     tick_at := fun k => 50 * Z.of_nat k;
     connect_at := fun _ _ => false;
     signalled_at := fun _ => false;
     stop_at := fun _ => true;
     extract_at := fun _ => Some "plonk.exe";
     create_at := fun _ => Some {| hProcess := 44; hThread := 48;
                                   dwProcessId := 7; dwThreadId := 8 |};
     attach_at := fun _ => false;
     terminate_at := fun _ => false;
     TERMINATE_PROCESS_WAIT_MS := 5000 |}.

(** The transport as a successful attempt in [connecting_env] leaves it:
    holding the handle of the running subordinate process. *)
Definition connected_transport : SSHTransportBase :=
  {| m_plonkPath := "plonk.exe";
     m_plonkProcessInfo := {| hProcess := 44; hThread := 0;
                              dwProcessId := 7; dwThreadId := 8 |};
     m_localSocksProxyPort := 1080;
     m_stopInfo := sample_stop |}.

(* ================================================================== *)
(** ** Notions used to state the properties *)

(** [s] is empty or begins with a blank. *)
Definition starts_blank (s : string) : bool :=
  match s with
  | EmptyString => true
  | String c _ => is_blank c
  end.

(** [s] is not empty and ends with a blank. *)
Fixpoint ends_blank (s : string) : bool :=
  match s with
  | EmptyString => false
  | String c EmptyString => is_blank c
  | String _ s' => ends_blank s'
  end.

(** The blank-separated arguments of the command line that
    [SSHTransportBase::GetSSHParams] builds, field by field: every field is
    present as the pieces [split_args] cuts it into. *)
Definition plonk_argv (E : Env) (this : SSHTransportBase)
    (sessionInfo : SessionInfo) (localSocksProxyPort : Z)
    (sshPassword : string) : list tstring :=
  (split_args (m_plonkPath this)
   ++ ["-ssh"; "-C"; "-N"; "-batch"]
   ++ ["-P"; print_int (GetSSHObfuscatedPort sessionInfo)]
   ++ ["-l"] ++ split_args (c_str (NarrowToTString E (GetSSHUsername sessionInfo)))
   ++ ["-pw"] ++ split_args (c_str (NarrowToTString E sshPassword))
   ++ ["-D"; print_int localSocksProxyPort]
   ++ (if DEBUG E then ["-v"] else [])
   ++ match SSHTransportBase.GetUserParentProxySettings E with
      | (true, proxy) =>
          ["-proxy_type"] ++ split_args (c_str (proxy_type proxy))
          ++ ["-proxy_host"] ++ split_args (c_str (proxy_host proxy))
          ++ ["-proxy_port"; print_int (proxy_port proxy)]
          ++ (if nonempty (proxy_username proxy)
              then ["-proxy_username"]
                   ++ split_args (c_str (proxy_username proxy))
              else [])
          ++ (if nonempty (proxy_password proxy)
              then ["-proxy_password"]
                   ++ split_args (c_str (proxy_password proxy))
              else [])
      | (false, _) => []
      end)%list.

(** The reading of "every credential reaches the subordinate process as a
    single argument": some way [argv] of cutting a command line into
    arguments recovers, from every command line built, the user name after
    [-l] and the password after [-pw]. *)
Definition passes_credentials_atomically (argv : tstring -> list tstring)
  : Prop :=
  forall (E : Env) (this : SSHTransportBase) (sessionInfo : SessionInfo)
         (localSocksProxyPort : Z) (out : SSHParams),
    let commandLine :=
      o_plonkCommandLine
        (snd (SSHTransportBase.GetSSHParams E this sessionInfo
                localSocksProxyPort (SSHTransportBase.sshPassword sessionInfo)
                out)) in
    arg_after "-l" (argv commandLine)
      = Some (NarrowToTString E (GetSSHUsername sessionInfo))
    /\ arg_after "-pw" (argv commandLine)
      = Some (NarrowToTString E (SSHTransportBase.sshPassword sessionInfo)).

(** *** Traces *)

(** The events one pass of the loop of [WaitForConnectability] can leave. *)
Definition is_poll_event (e : Event) : bool :=
  match e with
  | EvGetTickCount _ | EvConnect _ _ | EvWaitForSingleObject _ _ _
  | EvCheckSignal _ _ => true
  | _ => false
  end.

(** The events a call of [WaitForConnectability] can leave. *)
Definition is_wait_event (e : Event) : bool :=
  match e with
  | EvWaitForConnectability _ _ _ => true
  | _ => is_poll_event e
  end.

(** The events [Cleanup] can leave after its mark. *)
Definition is_stop_event (e : Event) : bool :=
  match e with
  | EvAttachConsole _ _ | EvGenerateConsoleCtrlEvent _ | EvFreeConsole
  | EvWaitForSingleObject _ _ _ | EvTerminateProcess _ _
  | EvCloseHandle _ => true
  | _ => false
  end.

Definition is_launch (e : Event) : bool :=
  match e with
  | EvCreateProcess _ _ _ => true
  | _ => false
  end.

(** The calls of [WaitForConnectability] in a trace: port and result. *)
Fixpoint probes_of (evs : list Event) : list (Z * Z) :=
  match evs with
  | [] => []
  | EvWaitForConnectability port _ returnValue :: evs' =>
      (port, returnValue) :: probes_of evs'
  | _ :: evs' => probes_of evs'
  end.

(** The check of the process handle in one pass, when it finds the process
    alive: absent when no handle was given. *)
Definition alive_check (process : Z) : list Event :=
  if process =? 0 then [] else [EvWaitForSingleObject process 0 false].

(** The check of the stop signal in one pass, with its answer: absent when
    no signal was given. *)
Definition cancel_check (stopInfo : StopInfo) (raised : bool) : list Event :=
  if stopSignal stopInfo then [EvCheckSignal (stopReasons stopInfo) raised]
  else [].

(** The events of one pass of the loop, and how the pass ends: the process
    handle and the stop signal are looked at only after the connection
    attempt of that pass, the handle first. *)
Inductive pass_events (port process : Z) (stopInfo : StopInfo)
  : list Event -> LoopStep -> Prop :=
| pass_timeout now :
    pass_events port process stopInfo
      [EvGetTickCount now] (Break WAIT_TIMEOUT)
| pass_connected now :
    pass_events port process stopInfo
      [EvGetTickCount now; EvConnect port true] (Break ERROR_SUCCESS)
| pass_dead now :
    process <> 0 ->
    pass_events port process stopInfo
      [EvGetTickCount now; EvConnect port false;
       EvWaitForSingleObject process 0 true]
      (Break ERROR_SYSTEM_PROCESS_TERMINATED)
| pass_cancelled now :
    stopSignal stopInfo = true ->
    pass_events port process stopInfo
      ([EvGetTickCount now; EvConnect port false]
         ++ alive_check process ++ cancel_check stopInfo true)%list
      (Break ERROR_OPERATION_ABORTED)
| pass_again now :
    pass_events port process stopInfo
      ([EvGetTickCount now; EvConnect port false]
         ++ alive_check process ++ cancel_check stopInfo false)%list
      Continue.

(** The events of a run of the loop that ends with [returnValue]. *)
Inductive run_events (port process : Z) (stopInfo : StopInfo)
  : list Event -> Z -> Prop :=
| run_last evs returnValue :
    pass_events port process stopInfo evs (Break returnValue) ->
    run_events port process stopInfo evs returnValue
| run_more evs evs' returnValue :
    pass_events port process stopInfo evs Continue ->
    run_events port process stopInfo evs' returnValue ->
    run_events port process stopInfo (evs ++ evs')%list returnValue.

(** From [w] to [w'] the program made the calls [evs] and no others. *)
Definition calls_between (w w' : World) (evs : list Event) : Prop :=
  trace w' = (trace w ++ evs)%list.

(** From [w] to [w'] the program made calls, none of them [CreateProcess]. *)
Definition no_launch_between (w w' : World) : Prop :=
  exists evs, calls_between w w' evs /\ existsb is_launch evs = false.

(** The reading of "at its first step the manager checks every field the
    variant requires and throws [TransportFailed] there": an attempt on a
    descriptor for which the variant says a handshake is required ends at
    once with [TransportFailed], the transport and the world as they
    were. *)
Definition first_step_checks_required_fields : Prop :=
  forall (C : SSHTransportClass) (E : Env) (fuel : nat)
         (this : SSHTransportBase) (sessionInfo : SessionInfo) (w : World),
    @virtual_IsHandshakeRequired C sessionInfo = true ->
    @SSHTransportBase.TransportConnect C E fuel this sessionInfo w
    = Some (Thrown TransportFailed, this, w).

(** The reading of "every attempt that ends in failure or abort has called
    Cleanup before it returns, and leaves no process handle". *)
Definition cleanup_on_every_failure : Prop :=
  forall (C : SSHTransportClass) (E : Env) (fuel : nat)
         (this : SSHTransportBase) (sessionInfo : SessionInfo) (w : World)
         (e : Exception) (this' : SSHTransportBase) (w' : World),
    @SSHTransportBase.TransportConnect C E fuel this sessionInfo w
      = Some (Thrown e, this', w') ->
    (exists evs, calls_between w w' evs /\ In EvCleanup evs)
    /\ SSHTransportBase.has_process_handle this' = false.

(** A call that ends the process with handle [h], or finds it ended:
    [TerminateProcess] that succeeds, a wait that finds the handle
    signalled. *)
Definition ends_process (h : Z) (e : Event) : bool :=
  match e with
  | EvTerminateProcess h' true => h' =? h
  | EvWaitForSingleObject h' _ true => h' =? h
  | _ => false
  end.

(** The reading of "no attempt that ends in failure or abort leaves a live
    subordinate process behind": when an attempt throws, every process it
    launched (whose handle [LaunchPlonk] waited on for input idle) was
    ended, or found ended, by one of the calls of the attempt. *)
Definition no_process_left_alive : Prop :=
  forall (C : SSHTransportClass) (E : Env) (fuel : nat)
         (this : SSHTransportBase) (sessionInfo : SessionInfo) (w : World)
         (e : Exception) (this' : SSHTransportBase) (w' : World)
         (evs : list Event) (h : Z),
    @SSHTransportBase.TransportConnect C E fuel this sessionInfo w
      = Some (Thrown e, this', w') ->
    calls_between w w' evs ->
    In (EvWaitForInputIdle h) evs ->
    existsb (ends_process h) evs = true.

(** *** The deadline *)

(** The reading of "a wrap of the tick counter never makes the wait time out
    early": with time going forward, whenever [WaitForConnectability]
    returns [WAIT_TIMEOUT], at least [timeout] milliseconds lie between its
    first and its last reading of the tick counter. *)
Definition timeout_only_after_deadline : Prop :=
  forall (E : Env) (fuel : nat) (port timeout process : Z)
         (stopInfo : StopInfo) (w w' : World),
    (forall k, tick_at E k <= tick_at E (S k)) ->
    0 <= timeout <= MAXDWORD ->
    WaitForConnectability E fuel port timeout process stopInfo w
      = Some (WAIT_TIMEOUT, w') ->
    timeout <= tick_at E (pred (n_tick w')) - tick_at E (n_tick w).

(** The world after [k] passes of the loop that all went on waiting (no
    deadline, no connection, the process alive, no cancellation). *)
Fixpoint after_waiting (E : Env) (k : nat)
    (port start maxWaitMilliseconds process : Z) (stopInfo : StopInfo)
    (w : World) : option World :=
  match k with
  | O => Some w
  | S k' =>
      match WaitForConnectability_body E port start maxWaitMilliseconds
              process stopInfo w with
      | (Continue, w') =>
          after_waiting E k' port start maxWaitMilliseconds process stopInfo w'
      | (Break _, _) => None
      end
  end.

(** *** Port negotiation *)

(** [targetPort > 0 && targetPort <= 0xFFFF] *)
Definition valid_port (p : Z) : bool := (0 <? p) && (p <=? 65535).

(** [n] successive candidates from [start]. *)
Fixpoint candidates (start : Z) (n : nat) : list Z :=
  match n with
  | O => []
  | S n' => start :: candidates (start + 1) n'
  end.

(** The candidates of [start .. start + maxIncrement] that are port
    numbers, in ascending order. *)
Definition valid_candidates (start maxIncrement : Z) : list Z :=
  filter valid_port (candidates start (S (Z.to_nat maxIncrement))).

(** Every probe of port negotiation comes back within [fuel] passes. *)
Definition probes_return (E : Env) (fuel : nat) (stopInfo : StopInfo) : Prop :=
  forall (port : Z) (w : World),
    WaitForConnectability E fuel port 100 0 stopInfo w <> None.

(** A probe that found a listener. *)
Definition occupied (p : Z) : Z * Z := (p, ERROR_SUCCESS).

(** The reading of "port negotiation returns the first candidate of
    [start .. start + maxIncrement] whose probe reports nothing listening,
    with at most [maxIncrement + 1] probes, and fails exactly when every
    candidate is occupied", of one call that returns: [probes] are the
    probes it made. *)
Definition negotiation_as_stated (start maxIncrement : Z)
    (ok : bool) (port : Z) (probes : list (Z * Z)) : Prop :=
  Z.of_nat (List.length probes) <= maxIncrement + 1
  /\ (ok = true ->
      start <= port <= start + maxIncrement
      /\ exists returnValue,
           returnValue <> ERROR_SUCCESS
           /\ probes
              = (map occupied (candidates start (Z.to_nat (port - start)))
                 ++ [(port, returnValue)])%list)
  /\ (ok = false ->
      probes
      = map occupied (candidates start (Z.to_nat (maxIncrement + 1)))).

(** The reading of "when the stop signal is raised during port negotiation,
    the candidate being probed is reported available, even if a listener
    occupies it". *)
Definition abort_reports_candidate_available : Prop :=
  forall (E : Env) (fuel : nat) (targetPort maxIncrement : Z)
         (stopInfo : StopInfo) (w : World),
    valid_port targetPort = true ->
    0 <= maxIncrement ->
    stopSignal stopInfo = true ->
    (forall k, stop_at E k = true) ->
    exists w',
      TestForOpenPort E (S fuel) targetPort maxIncrement stopInfo w
      = Some (true, targetPort, w').

(** *** The death of the process *)

(** The reading of "if the process handle is signalled dead before any
    probe succeeds, the waiter returns [ERROR_SYSTEM_PROCESS_TERMINATED]":
    with a handle that is signalled at every look and no connection attempt
    that succeeds, a wait on a port number that returns returns that. *)
Definition process_death_is_reported : Prop :=
  forall (E : Env) (fuel : nat) (port timeout process : Z)
         (stopInfo : StopInfo) (w : World) (returnValue : Z) (w' : World),
    valid_port (USHORT port) = true ->
    process <> 0 ->
    (forall k, signalled_at E k = true) ->
    (forall k p, connect_at E k p = false) ->
    WaitForConnectability E fuel port timeout process stopInfo w
      = Some (returnValue, w') ->
    returnValue = ERROR_SYSTEM_PROCESS_TERMINATED.

(* ================================================================== *)
(** ** Notions used to state the properties of the encodings *)

(** [0-9], [A-F] or [a-f]. *)
Definition is_hex_digit (c : ascii) : bool :=
  let n := N_of_ascii c in
  (((48 <=? n) && (n <=? 57)) || ((65 <=? n) && (n <=? 70))
   || ((97 <=? n) && (n <=? 102)))%N.

(** [0-9] or [A-F]. *)
Definition is_upper_hex_digit (c : ascii) : bool :=
  let n := N_of_ascii c in
  (((48 <=? n) && (n <=? 57)) || ((65 <=? n) && (n <=? 70)))%N.

(** Every character of [s] satisfies [f]. *)
Fixpoint string_forallb (f : ascii -> bool) (s : string) : bool :=
  match s with
  | EmptyString => true
  | String c rest => f c && string_forallb f rest
  end.

(** [f] applied to every character of [s]. *)
Fixpoint string_map (f : ascii -> ascii) (s : string) : string :=
  match s with
  | EmptyString => EmptyString
  | String c rest => String (f c) (string_map f rest)
  end.

(** The unreserved characters of a URL: the ASCII letters and digits, [-],
    [_], [.] and [~]. *)
Definition is_unreserved (c : wchar_t) : bool :=
  (((48 <=? c) && (c <=? 57))
   || ((65 <=? c) && (c <=? 90))
   || ((97 <=? c) && (c <=? 122))
   || (c =? 45) || (c =? 95) || (c =? 46) || (c =? 126))%N.


(** Every character of [s] fits in a byte. *)
Definition below_256 (s : list wchar_t) : bool :=
  forallb (fun c => (c <? 256)%N) s.

(** [answer] is what [isalnum] says of [c]. *)
Definition answers (beyond : wchar_t -> option bool) (c : wchar_t)
    (answer : bool) : bool :=
  match beyond c with
  | Some b => Bool.eqb b answer
  | None => false
  end.


(** An [isalnum] that answers false for every value above 255, as the
    release runtime does. *)
Definition never_alnum : wchar_t -> option bool := fun _ => Some false.

(* ================================================================== *)
(** ** Notions used to state the properties of a connection attempt *)

(** The descriptor [s] with another SSH port. *)
Definition with_ssh_port (s : SessionInfo) (p : Z) : SessionInfo :=
  {| GetServerAddress := GetServerAddress s;
     GetSSHPort := p;
     GetSSHObfuscatedPort := GetSSHObfuscatedPort s;
     GetSSHHostKey := GetSSHHostKey s;
     GetSSHUsername := GetSSHUsername s;
     GetSSHPassword := GetSSHPassword s;
     GetSSHObfuscatedKey := GetSSHObfuscatedKey s;
     GetSSHSessionID := GetSSHSessionID s;
     GetClientSessionID := GetClientSessionID s |}.

(* ================================================================== *)
(** ** Notions used to state the properties of the host key *)

(** The four bytes of [n], the most significant first. *)
Definition be32 (n : Z) : list BYTE :=
  [ascii_of_N (Z.to_N (n / 16777216 mod 256));
   ascii_of_N (Z.to_N (n / 65536 mod 256));
   ascii_of_N (Z.to_N (n / 256 mod 256));
   ascii_of_N (Z.to_N (n mod 256))].

(** A field of a host key: four bytes of length, then the bytes. *)
Definition encode_field (f : list BYTE) : list BYTE :=
  (be32 (Z.of_nat (List.length f)) ++ f)%list.

(** A host key of type [ssh-rsa] with the fields [fields]. *)
Definition host_key_blob (fields : list (list BYTE)) : list BYTE :=
  (encode_field (list_ascii_of_string "ssh-rsa")
     ++ List.concat (map encode_field fields))%list.

(** The number a field holds, the first byte the most significant. *)
Definition be_value_from (acc : N) (f : list BYTE) : N :=
  fold_left (fun acc b => (256 * acc + N_of_ascii b)%N) f acc.

Definition be_value (f : list BYTE) : N := be_value_from 0 f.

(** The value of a digit [0-9a-f]. *)
Definition hex_digit_value (c : ascii) : option N :=
  let n := N_of_ascii c in
  if ((48 <=? n) && (n <=? 57))%N then Some (n - 48)%N
  else if ((97 <=? n) && (n <=? 102))%N then Some (n - 87)%N
  else None.

(** The number a hexadecimal numeral of digits [0-9a-f] denotes. *)
Fixpoint hex_numeral_value_from (acc : N) (s : string) : option N :=
  match s with
  | EmptyString => Some acc
  | String c rest =>
      match hex_digit_value c with
      | Some d => hex_numeral_value_from (16 * acc + d) rest
      | None => None
      end
  end.

Definition hex_numeral_value (s : string) : option N :=
  match s with
  | EmptyString => None
  | String _ _ => hex_numeral_value_from 0 s
  end.

(** A numeral of more than one digit does not start with [0]. *)
Definition has_no_leading_zero (s : string) : bool :=
  match s with
  | String c (String _ _) => negb (Ascii.eqb c "0")
  | _ => true
  end.

(** Two digits for every byte. *)
Fixpoint all_hex_digits (f : list BYTE) : string :=
  match f with
  | [] => EmptyString
  | b :: rest =>
      String (hexDigits_at (N.shiftr (N_of_ascii b) 4))
        (String (hexDigits_at (N.land (N_of_ascii b) 15))
           (all_hex_digits rest))
  end.

(** [s] without the zeros it starts with. *)
Fixpoint drop_zeros (s : string) : string :=
  match s with
  | EmptyString => EmptyString
  | String c rest => if Ascii.eqb c "0" then drop_zeros rest else s
  end.

(** The digits of a field without leading zeros, [0] when all are zero. *)
Definition hex_field (f : list BYTE) : string :=
  match drop_zeros (all_hex_digits f) with
  | EmptyString => "0"
  | String c rest => String c rest
  end.

Definition nonempty_field (f : list BYTE) : bool :=
  match f with [] => false | _ :: _ => true end.

(** The text for the registry: a numeral for every field that is not
    empty, separated by commas. *)
Definition registry_text (fields : list (list BYTE)) : string :=
  String.concat ","
    (map (fun f => ("0x" ++ hex_field f)%string)
       (filter nonempty_field fields)).

(** The passes of the inner loop over the bytes [f], from index [i] on. *)
Fixpoint field_steps (nextLen i : Z) (field : string) (f : list BYTE)
  : string :=
  match f with
  | [] => field
  | b :: rest => field_steps nextLen (i + 1) (field_step nextLen i field b) rest
  end.

(** The text after the fields [texts] have been added to [data]. *)
Definition join_onto (data : string) (texts : list string) : string :=
  fold_left
    (fun data field =>
       ((if nonempty data then data ++ "," else data) ++ field)%string)
    texts data.

(** A registry that accepts every call, behind a decoder that yields the
    key with the exponent 65537 and the modulus 171. *)
Definition sample_registry : HostKeyEnv :=
  {| CryptStringToBinary :=
       fun _ => Some (host_key_blob [["001"; "000"; "001"]%char;
                                     ["000"; "171"]%char]);
     TStringToNarrow := fun s => s;
     RegCreateKeyEx := (0, 100);
     RegSetValueExA := fun _ _ _ _ => 0 |}.

(** A decoded key of type [ssh-rsa] that is not made of well-formed fields:
    a field of two bytes, an empty field, and a length of 9 with six bytes
    after it, the first four of which the loop then reads as a length. *)
Definition ragged_key : list BYTE :=
  (encode_field (list_ascii_of_string "ssh-rsa")
     ++ encode_field ["001"; "002"]%char
     ++ be32 0
     ++ be32 9 ++ ["000"; "000"; "000"; "001"; "255"; "007"]%char)%list.

(* ================================================================== *)
(** ** Notions used to state the properties of the pipes *)

(** The handles the calls [calls] created. *)
Fixpoint handles_obtained (calls : list PipeCall) : list Z :=
  match calls with
  | [] => []
  | EvCreatePipe (Some (read, write)) :: rest =>
      read :: write :: handles_obtained rest
  | EvDuplicateHandle _ _ (Some target) :: rest =>
      target :: handles_obtained rest
  | _ :: rest => handles_obtained rest
  end.

(** The handles [CloseHandle] was called with. *)
Fixpoint handles_closed (calls : list PipeCall) : list Z :=
  match calls with
  | [] => []
  | EvClosePipeHandle handle _ :: rest => handle :: handles_closed rest
  | _ :: rest => handles_closed rest
  end.

(** The handles given to the caller. *)
Definition pipes_of (p : SubprocessPipes) : list Z :=
  [o_parentOutputPipe p; o_parentInputPipe p; o_childStdinPipe p;
   o_childStdoutPipe p; o_childStderrPipe p].

(** A system in which every call succeeds, with handles 11, 12, ... *)
Definition sample_pipes : PipeEnv :=
  {| CreatePipe_at := fun k => Some (11 + 10 * Z.of_nat k, 12 + 10 * Z.of_nat k);
     DuplicateHandle_at := fun k => Some (31 + Z.of_nat k);
     CloseHandle_at := fun _ => true |}.

(** As [sample_pipes], but the second pipe cannot be created. *)
Definition sample_pipes_failing : PipeEnv :=
  {| CreatePipe_at := fun k => if (k =? 0)%nat then Some (11, 12) else None;
     DuplicateHandle_at := fun k => Some (31 + Z.of_nat k);
     CloseHandle_at := fun _ => true |}.

(* ================================================================== *)
(** ** Notions used to state the properties of the device region *)

(** The countries, in upper case, of the entries of [json] with the dialing
    code [code] (not empty) and a country code (not empty), in the order of
    the entries. *)
Definition countries_for (json : list DialingCodeEntry) (code : wstring)
  : list wstring :=
  flat_map
    (fun entry =>
       if nonempty (entry_dialing_code entry)
          && String.eqb (entry_dialing_code entry) code
          && nonempty (entry_country_code entry)
       then [transform toupper (entry_country_code entry)]
       else [])
    json.

(** The countries the dialing code of the system stands for: those of the
    entries with that dialing code or, when there are none, those of the
    entries with that dialing code less its last character; none when the
    dialing code or the table is not to be had. *)
Definition candidate_countries (R : RegionEnv) : list wstring :=
  match GetCountryDialingCode R, country_dialing_codes R with
  | (true, code), Some json =>
      if nonempty code then
        match countries_for json code with
        | [] => countries_for json (truncated code)
        | c :: cs => c :: cs
        end
      else []
  | _, _ => []
  end.

(** The country the locale map gives for the UI locale. *)
Definition locale_country (R : RegionEnv) : wstring :=
  map_at localeToCountryMap (transform toupper (g_uiLocale R)).

(** A system with the dialing code 989 (Iran with a digit too many), the
    UI locale [fa] and a table of three entries. *)
Definition sample_region : RegionEnv :=
  {| GetCountryDialingCode := (true, "989");
     country_dialing_codes :=
       Some [{| entry_dialing_code := "1"; entry_country_code := "us" |};
             {| entry_dialing_code := "98"; entry_country_code := "ir" |};
             {| entry_dialing_code := "90"; entry_country_code := "tr" |}];
     g_uiLocale := "fa" |}.

(* ================================================================== *)
(** ** Notions used to state the properties of the extraction *)

Definition is_CreateFile (c : FileCall) : bool :=
  match c with EvCreateFile _ _ _ => true | _ => false end.

Definition is_TerminateProcessByName (c : FileCall) : bool :=
  match c with EvTerminateProcessByName _ => true | _ => false end.

Definition is_WriteFile (c : FileCall) : bool :=
  match c with EvWriteFile _ _ _ _ => true | _ => false end.

(** A system in which the file of the executable is in use at the first
    attempt to create it, and everything else succeeds. *)
Definition sample_files : FileEnv :=
  {| GetResourceBytes := fun _ => Some ["M"; "Z"]%char;
     GetTempPath := Some "C:\Temp";
     PathCombine := fun d f => Some (d ++ "\" ++ f)%string;
     CreateFile_at :=
       fun k => if (k =? 0)%nat then (INVALID_HANDLE_VALUE, 32) else (77, 0);
     WriteFile := fun _ data => (true, Z.of_nat (List.length data));
     FlushFileBuffers := fun _ => true |}.

(* ================================================================== *)
(** ** Strings: lemmas *)

Lemma append_assoc (a b c : string) :
  ((a ++ b) ++ c = a ++ (b ++ c))%string.
Proof.
  induction a as [|x a IH]; simpl; [reflexivity | now rewrite IH].
Qed.

Lemma has_nul_append (a b : string) :
  has_nul (a ++ b) = has_nul a || has_nul b.
Proof.
  induction a as [|x a IH]; simpl; [reflexivity|].
  rewrite IH. now rewrite orb_assoc.
Qed.

Lemma c_str_without_nul (s : string) :
  has_nul s = false -> c_str s = s.
Proof.
  induction s as [|x s IH]; simpl; [reflexivity|].
  intros H. apply orb_false_iff in H as [Hx Hs].
  rewrite Hx. now rewrite IH.
Qed.

Lemma has_nul_c_str (s : string) : has_nul (c_str s) = false.
Proof.
  induction s as [|x s IH]; simpl; [reflexivity|].
  destruct (Ascii.eqb x Ascii.zero) eqn:Hx; simpl; [reflexivity|].
  now rewrite Hx, IH.
Qed.

Lemma c_str_append (a b : string) :
  has_nul a = false -> c_str (a ++ b) = (a ++ c_str b)%string.
Proof.
  induction a as [|x a IH]; [reflexivity|].
  cbn [has_nul append c_str]. intros H.
  apply orb_false_iff in H as [Hx Ha]. rewrite Hx. now rewrite IH.
Qed.

Lemma string_length_append (a b : string) :
  String.length (a ++ b) = (String.length a + String.length b)%nat.
Proof. induction a as [|x a IH]; cbn [append String.length]; lia. Qed.

Lemma occurs_in_has_nul (x s : string) :
  occurs_in x s -> has_nul x = true -> has_nul s = true.
Proof.
  intros (pre & post & ->) Hx.
  rewrite !has_nul_append, Hx. now rewrite orb_true_r.
Qed.

Lemma split_args_starts_word (y : ascii) (a : string) :
  is_blank y = false -> split_args (String y a) <> [].
Proof.
  intros Hy. cbn [split_args]. rewrite Hy.
  destruct a as [|z a]; [discriminate|].
  destruct (is_blank z); [discriminate|].
  destruct (split_args (String z a)); discriminate.
Qed.

Lemma split_args_append (a b : string) :
  starts_blank b = true ->
  split_args (a ++ b) = (split_args a ++ split_args b)%list.
Proof.
  intros Hb. induction a as [|x a IH]; [reflexivity|].
  change (String x a ++ b)%string with (String x (a ++ b)).
  cbn [split_args]. destruct (is_blank x); [exact IH|].
  destruct a as [|y a].
  - simpl. destruct b as [|c b]; [reflexivity|].
    simpl in Hb. now rewrite Hb.
  - change (String y a ++ b)%string with (String y (a ++ b)) in *.
    destruct (is_blank y) eqn:Hy.
    + rewrite Hy, IH. reflexivity.
    + rewrite Hy, IH.
      destruct (split_args (String y a)) as [|t ts] eqn:Ht; [|reflexivity].
      exfalso. revert Ht. now apply split_args_starts_word.
Qed.

Lemma split_args_single (s : string) :
  nonempty s = true -> has_blank s = false -> split_args s = [s].
Proof.
  induction s as [|x s IH]; [discriminate|].
  intros _ H. simpl in H. apply orb_false_iff in H as [Hx Hs].
  cbn [split_args]. rewrite Hx.
  destruct s as [|y s]; [reflexivity|].
  assert (Hy : is_blank y = false).
  { simpl in Hs. now apply orb_false_iff in Hs as [Hy _]. }
  rewrite Hy, IH; [reflexivity | reflexivity | exact Hs].
Qed.

Lemma has_blank_string_of_uint (d : Decimal.uint) :
  has_blank (NilEmpty.string_of_uint d) = false.
Proof. induction d; simpl; auto. Qed.

Lemma nonempty_string_of_pos (p : positive) :
  nonempty (NilEmpty.string_of_uint (Pos.to_uint p)) = true.
Proof.
  destruct (Pos.to_uint p) eqn:H; try reflexivity.
  exfalso. revert H. apply DecimalPos.Unsigned.to_uint_nonnil.
Qed.

Lemma split_args_print_int (n : Z) : split_args (print_int n) = [print_int n].
Proof.
  apply split_args_single; unfold print_int; destruct n; simpl; auto.
  - apply nonempty_string_of_pos.
  - apply has_blank_string_of_uint.
  - apply has_blank_string_of_uint.
Qed.

(* ================================================================== *)
(** ** Building the parameters *)

Lemma split_args_two (x y : ascii) (s : string) :
  split_args (String x (String y s))
  = if is_blank x then split_args (String y s)
    else if is_blank y then String x EmptyString :: split_args (String y s)
    else match split_args (String y s) with
         | t :: ts => String x t :: ts
         | [] => [String x EmptyString]
         end.
Proof. reflexivity. Qed.

Lemma split_args_append_after_blank (a b : string) :
  ends_blank a = true ->
  split_args (a ++ b) = (split_args a ++ split_args b)%list.
Proof.
  induction a as [|x a IH]; [discriminate|].
  intros Ha. destruct a as [|y a].
  - simpl in Ha. change (String x EmptyString ++ b)%string with (String x b).
    cbn [split_args]. now rewrite Ha.
  - specialize (IH Ha).
    change (String x (String y a) ++ b)%string
      with (String x (String y (a ++ b))).
    change (String y a ++ b)%string with (String y (a ++ b)) in IH.
    rewrite !split_args_two.
    destruct (is_blank x); [exact IH|].
    destruct (is_blank y) eqn:Hy.
    + now rewrite IH.
    + rewrite IH.
      pose proof (split_args_starts_word y a Hy) as Hw.
      destruct (split_args (String y a)) as [|t ts];
        [now elim Hw | reflexivity].
Qed.

(** Cut the arguments of a command line at every blank that is written
    out, then evaluate [split_args] on the literals. *)
Ltac split_command_line :=
  repeat first
    [ rewrite split_args_append by reflexivity
    | rewrite split_args_append_after_blank by reflexivity ];
  repeat match goal with
    | |- context [split_args (String ?c ?r)] =>
        let v := eval vm_compute in (split_args (String c r)) in
        change (split_args (String c r)) with v
    | |- context [split_args EmptyString] =>
        change (split_args EmptyString) with (@nil tstring)
    end.

(** The plain variant never refuses to build its parameters. *)
Lemma SSHTransport_GetSSHParams_true E this sessionInfo port pw out :
  fst (SSHTransport.GetSSHParams E this sessionInfo port pw out) = true.
Proof. reflexivity. Qed.

Lemma base_command_line E this sessionInfo port pw out :
  o_plonkCommandLine
    (snd (SSHTransportBase.GetSSHParams E this sessionInfo port pw out))
  = (m_plonkPath this
       ++ " -ssh -C -N -batch -P "
       ++ print_int (GetSSHObfuscatedPort sessionInfo)
       ++ " -l " ++ c_str (NarrowToTString E (GetSSHUsername sessionInfo))
       ++ " -pw " ++ c_str (NarrowToTString E pw)
       ++ " -D " ++ print_int port
       ++ (if DEBUG E then " -v" else "")
       ++ (match SSHTransportBase.GetUserParentProxySettings E with
           | (true, proxy) =>
               " -proxy_type " ++ c_str (proxy_type proxy)
                 ++ " -proxy_host " ++ c_str (proxy_host proxy)
                 ++ " -proxy_port " ++ print_int (proxy_port proxy)
                 ++ (if nonempty (proxy_username proxy)
                     then " -proxy_username " ++ c_str (proxy_username proxy)
                     else "")
                 ++ (if nonempty (proxy_password proxy)
                     then " -proxy_password " ++ c_str (proxy_password proxy)
                     else "")
           | (false, _) => ""
           end))%string.
Proof. reflexivity. Qed.

Lemma split_args_base_command_line E this sessionInfo port pw out :
  split_args
    (o_plonkCommandLine
       (snd (SSHTransportBase.GetSSHParams E this sessionInfo port pw out)))
  = plonk_argv E this sessionInfo port pw.
Proof.
  rewrite base_command_line. unfold plonk_argv.
  destruct (SSHTransportBase.GetUserParentProxySettings E)
    as [[|] proxy];
    destruct (DEBUG E);
    try destruct (nonempty (proxy_username proxy));
    try destruct (nonempty (proxy_password proxy)).
  all: rewrite ?append_assoc.
  all: split_command_line.
  all: rewrite ?split_args_print_int.
  all: rewrite <- ?app_assoc.
  all: cbn [app].
  all: reflexivity.
Qed.

Lemma arg_after_skip (flag : tstring) (pre rest : list tstring) :
  has_flag flag pre = false ->
  arg_after flag (pre ++ rest) = arg_after flag rest.
Proof.
  unfold has_flag. induction pre as [|a pre IH]; intros H; [reflexivity|].
  cbn [existsb] in H. apply orb_false_iff in H as [Ha Hp].
  cbn [app arg_after]. rewrite Ha. now apply IH.
Qed.

Lemma print_int_is_no_flag (n : Z) : String.eqb (print_int n) "-pw" = false.
Proof.
  unfold print_int. destruct (Z.to_int n) as [d | d]; cbn.
  - destruct d; reflexivity.
  - destruct d; reflexivity.
Qed.

Lemma plain_command_line E this sessionInfo port pw out :
  o_plonkCommandLine
    (snd (SSHTransport.GetSSHParams E this sessionInfo port pw out))
  = (o_plonkCommandLine
       (snd (SSHTransportBase.GetSSHParams E this sessionInfo port pw out))
       ++ " " ++ NarrowToTString E (GetServerAddress sessionInfo))%string.
Proof. reflexivity. Qed.

(** C1 (amended). For every session descriptor that meets the plain-variant
    requirements, [SSHTransport::GetSSHParams], called with the password
    [TransportConnectHelper] forms (client session identifier, then SSH
    password), returns true. The command line it builds is the plonk path,
    the fixed flags, the port, [-l] and the user name, then [-pw] followed
    by the C string of that password as [NarrowToTString] converts it (its
    characters up to the first NUL), then [-D] and the local port; with no
    NUL in the converted password, what is written between [-pw] and [-D]
    is the whole of it. Nothing is quoted: the argument that follows [-pw]
    is the converted password itself when that is not empty and has neither
    NUL nor blank, the command line has no quote character, and [-pw] is
    not one of the blank-separated pieces of the plonk path or of the user
    name. *)
Theorem C1_plain_params_carry_session_id_and_password :
  forall (E : Env) (this : SSHTransportBase) (sessionInfo : SessionInfo)
         (localSocksProxyPort : Z) (out : SSHParams),
    SSHTransport.IsHandshakeRequired sessionInfo = false ->
    exists params,
      SSHTransport.GetSSHParams E this sessionInfo localSocksProxyPort
        (SSHTransportBase.sshPassword sessionInfo) out = (true, params)
      /\ (exists rest,
             o_plonkCommandLine params
             = (m_plonkPath this
                  ++ " -ssh -C -N -batch -P "
                  ++ print_int (GetSSHObfuscatedPort sessionInfo)
                  ++ " -l "
                  ++ c_str (NarrowToTString E (GetSSHUsername sessionInfo))
                  ++ " -pw "
                  ++ c_str (NarrowToTString E
                              (GetClientSessionID sessionInfo
                                 ++ GetSSHPassword sessionInfo))
                  ++ " -D " ++ print_int localSocksProxyPort ++ rest)%string)
      /\ (has_nul (NarrowToTString E
                     (GetClientSessionID sessionInfo
                        ++ GetSSHPassword sessionInfo)) = false ->
          exists rest,
            o_plonkCommandLine params
            = (m_plonkPath this
                 ++ " -ssh -C -N -batch -P "
                 ++ print_int (GetSSHObfuscatedPort sessionInfo)
                 ++ " -l "
                 ++ c_str (NarrowToTString E (GetSSHUsername sessionInfo))
                 ++ " -pw "
                 ++ NarrowToTString E
                      (GetClientSessionID sessionInfo
                         ++ GetSSHPassword sessionInfo)
                 ++ " -D " ++ print_int localSocksProxyPort ++ rest)%string)
      /\ (has_nul (NarrowToTString E
                     (GetClientSessionID sessionInfo
                        ++ GetSSHPassword sessionInfo)) = false ->
          has_blank (NarrowToTString E
                       (GetClientSessionID sessionInfo
                          ++ GetSSHPassword sessionInfo)) = false ->
          nonempty (NarrowToTString E
                      (GetClientSessionID sessionInfo
                         ++ GetSSHPassword sessionInfo)) = true ->
          has_quote (o_plonkCommandLine params) = false ->
          has_flag "-pw" (split_args (m_plonkPath this)) = false ->
          has_flag "-pw"
            (split_args
               (c_str (NarrowToTString E (GetSSHUsername sessionInfo))))
            = false ->
          arg_after "-pw" (split_args (o_plonkCommandLine params))
          = Some (NarrowToTString E
                    (GetClientSessionID sessionInfo
                       ++ GetSSHPassword sessionInfo))).
Proof.
  intros E this sessionInfo port out _.
  exists (snd (SSHTransport.GetSSHParams E this sessionInfo port
                 (SSHTransportBase.sshPassword sessionInfo) out)).
  split; [reflexivity|].
  set (value := NarrowToTString E
                  (GetClientSessionID sessionInfo
                     ++ GetSSHPassword sessionInfo)).
  assert (Hline : exists rest,
             o_plonkCommandLine
               (snd (SSHTransport.GetSSHParams E this sessionInfo port
                       (SSHTransportBase.sshPassword sessionInfo) out))
             = (m_plonkPath this
                  ++ " -ssh -C -N -batch -P "
                  ++ print_int (GetSSHObfuscatedPort sessionInfo)
                  ++ " -l "
                  ++ c_str (NarrowToTString E (GetSSHUsername sessionInfo))
                  ++ " -pw " ++ c_str value
                  ++ " -D " ++ print_int port ++ rest)%string).
  { cbn [SSHTransport.GetSSHParams SSHTransportBase.GetSSHParams snd
         o_plonkCommandLine o_serverAddress].
    unfold SSHTransportBase.plonk_args.
    eexists. rewrite !append_assoc. reflexivity. }
  split; [exact Hline|]. split.
  - intros Hnul. rewrite (c_str_without_nul _ Hnul) in Hline. exact Hline.
  - intros Hnul Hblank Hne _ Hpath Huser.
    rewrite plain_command_line.
    rewrite split_args_append by reflexivity.
    rewrite split_args_base_command_line. unfold plonk_argv.
    change (NarrowToTString E (SSHTransportBase.sshPassword sessionInfo))
      with value.
    rewrite (c_str_without_nul _ Hnul).
    rewrite (split_args_single value Hne Hblank).
    rewrite <- !app_assoc.
    rewrite (arg_after_skip _ _ _ Hpath).
    rewrite arg_after_skip by reflexivity.
    rewrite arg_after_skip
      by (cbn [has_flag existsb]; rewrite print_int_is_no_flag; reflexivity).
    rewrite arg_after_skip by reflexivity.
    rewrite (arg_after_skip _ _ _ Huser).
    reflexivity.
Qed.

Lemma C1_plain_params_witness :
  SSHTransport.IsHandshakeRequired sample_session = false
  /\ arg_after "-pw"
       (split_args
          (o_plonkCommandLine
             (snd (SSHTransport.GetSSHParams sample_env sample_transport
                     sample_session 1080
                     (SSHTransportBase.sshPassword sample_session)
                     SSHTransportBase.no_params))))
     = Some "CSp".
Proof.
  split; [reflexivity|].
  destruct (C1_plain_params_carry_session_id_and_password
              sample_env sample_transport sample_session 1080
              SSHTransportBase.no_params eq_refl)
    as (params & Hcall & _ & _ & Harg).
  vm_compute in Hcall. injection Hcall as <-.
  exact (Harg eq_refl eq_refl eq_refl eq_refl eq_refl eq_refl).
Defined.

(** C1 as stated fails for a password with an embedded NUL character and
    for one with a blank: each descriptor meets the plain-variant
    requirements, yet with the NUL the command line does not contain the
    session identifier followed by the whole password, and with the blank
    (password [a b]) the argument that follows [-pw] is [CSa]. *)
Lemma C1_counterexample_embedded_nul_or_blank :
  (SSHTransport.IsHandshakeRequired
     (with_password sample_session password_with_nul) = false
   /\ ~ occurs_in
          (" -pw " ++ ("CS" ++ password_with_nul) ++ " -D ")
          (o_plonkCommandLine
             (snd (SSHTransport.GetSSHParams sample_env sample_transport
                     (with_password sample_session password_with_nul) 1080
                     (SSHTransportBase.sshPassword
                        (with_password sample_session password_with_nul))
                     SSHTransportBase.no_params))))
  /\ (SSHTransport.IsHandshakeRequired
        (with_password sample_session "a b") = false
      /\ arg_after "-pw"
           (split_args
              (o_plonkCommandLine
                 (snd (SSHTransport.GetSSHParams sample_env sample_transport
                         (with_password sample_session "a b") 1080
                         (SSHTransportBase.sshPassword
                            (with_password sample_session "a b"))
                         SSHTransportBase.no_params))))
         = Some "CSa").
Proof.
  split; split; try reflexivity.
  intros H. apply occurs_in_has_nul in H; [|reflexivity].
  vm_compute in H. discriminate H.
Qed.

Example plain_command_line_sample :
  o_plonkCommandLine
    (snd (SSHTransport.GetSSHParams sample_env sample_transport
            sample_session 1080
            (SSHTransportBase.sshPassword sample_session)
            SSHTransportBase.no_params))
  = "plonk.exe -ssh -C -N -batch -P 8080 -l u -pw CSp -D 1080 203.0.113.5".
Proof. reflexivity. Qed.

Example plain_command_line_nul :
  o_plonkCommandLine
    (snd (SSHTransport.GetSSHParams sample_env sample_transport
            (with_password sample_session password_with_nul) 1080
            (SSHTransportBase.sshPassword
               (with_password sample_session password_with_nul))
            SSHTransportBase.no_params))
  = "plonk.exe -ssh -C -N -batch -P 8080 -l u -pw CSa -D 1080 203.0.113.5".
Proof. reflexivity. Qed.

(** C2 (amended). [GetSSHParams] does no quoting or escaping: the command
    line is the plonk path followed by the fixed flags and the fields (port,
    user name, password, local port and, when an upstream proxy is
    configured, its type, host, port, user name and password), every field
    written as it is (up to its first NUL) after its flag and one blank. A
    credential is therefore not delimited: a descriptor whose user name is
    [u -pw x], with password [p], and one whose user name is [u], with
    password [x -pw p], are given the same command line, so that under no
    rule of cutting a command line into arguments does the subordinate
    process receive both user names as the argument after [-l]. *)
Theorem C2_credentials_are_written_verbatim :
  forall (E : Env) (this : SSHTransportBase) (sessionInfo : SessionInfo)
         (localSocksProxyPort : Z) (sshPassword : string) (out : SSHParams),
    o_plonkCommandLine
      (snd (SSHTransportBase.GetSSHParams E this sessionInfo
              localSocksProxyPort sshPassword out))
    = (m_plonkPath this
         ++ " -ssh -C -N -batch -P "
         ++ print_int (GetSSHObfuscatedPort sessionInfo)
         ++ " -l " ++ c_str (NarrowToTString E (GetSSHUsername sessionInfo))
         ++ " -pw " ++ c_str (NarrowToTString E sshPassword)
         ++ " -D " ++ print_int localSocksProxyPort
         ++ (if DEBUG E then " -v" else "")
         ++ (match SSHTransportBase.GetUserParentProxySettings E with
             | (true, proxy) =>
                 " -proxy_type " ++ c_str (proxy_type proxy)
                   ++ " -proxy_host " ++ c_str (proxy_host proxy)
                   ++ " -proxy_port " ++ print_int (proxy_port proxy)
                   ++ (if nonempty (proxy_username proxy)
                       then " -proxy_username "
                              ++ c_str (proxy_username proxy)
                       else "")
                   ++ (if nonempty (proxy_password proxy)
                       then " -proxy_password "
                              ++ c_str (proxy_password proxy)
                       else "")
             | (false, _) => ""
             end))%string
    /\ forall (other : SessionInfo) (otherPassword : string)
              (u x : tstring),
         GetSSHObfuscatedPort other = GetSSHObfuscatedPort sessionInfo ->
         NarrowToTString E (GetSSHUsername sessionInfo)
           = (u ++ " -pw " ++ x)%string ->
         NarrowToTString E (GetSSHUsername other) = u ->
         NarrowToTString E otherPassword
           = (x ++ " -pw " ++ NarrowToTString E sshPassword)%string ->
         has_nul u = false ->
         has_nul x = false ->
         o_plonkCommandLine
           (snd (SSHTransportBase.GetSSHParams E this other
                   localSocksProxyPort otherPassword out))
         = o_plonkCommandLine
             (snd (SSHTransportBase.GetSSHParams E this sessionInfo
                     localSocksProxyPort sshPassword out))
         /\ forall argv : tstring -> list tstring,
              ~ (arg_after "-l"
                   (argv (o_plonkCommandLine
                            (snd (SSHTransportBase.GetSSHParams E this
                                    sessionInfo localSocksProxyPort
                                    sshPassword out))))
                 = Some (NarrowToTString E (GetSSHUsername sessionInfo))
                 /\ arg_after "-l"
                      (argv (o_plonkCommandLine
                               (snd (SSHTransportBase.GetSSHParams E this
                                       other localSocksProxyPort
                                       otherPassword out))))
                    = Some (NarrowToTString E (GetSSHUsername other))).
Proof.
  intros E this sessionInfo port pw out. split; [reflexivity|].
  intros other pw' u x Hport Huser Huser' Hpw' Hu Hx.
  assert (Hsame :
            o_plonkCommandLine
              (snd (SSHTransportBase.GetSSHParams E this other port pw' out))
            = o_plonkCommandLine
                (snd (SSHTransportBase.GetSSHParams E this sessionInfo port
                        pw out))).
  { rewrite !base_command_line. rewrite Hport, Huser, Huser', Hpw'.
    rewrite (c_str_without_nul u Hu).
    rewrite (c_str_append x _ Hx).
    change (c_str (" -pw " ++ NarrowToTString E pw))
      with (" -pw " ++ c_str (NarrowToTString E pw))%string.
    rewrite (c_str_without_nul (u ++ " -pw " ++ x)).
    - rewrite !append_assoc. reflexivity.
    - rewrite !has_nul_append, Hu, Hx. reflexivity. }
  split; [exact Hsame|].
  intros argv [H1 H2]. rewrite Hsame, H1 in H2.
  rewrite Huser, Huser' in H2. injection H2 as H2.
  apply (f_equal String.length) in H2.
  rewrite !string_length_append in H2. cbn [String.length] in H2. lia.
Qed.

Lemma C2_credentials_witness :
  o_plonkCommandLine
    (snd (SSHTransportBase.GetSSHParams sample_env sample_transport
            session_blank_in_password 1080
            (SSHTransportBase.sshPassword session_blank_in_password)
            SSHTransportBase.no_params))
  = o_plonkCommandLine
      (snd (SSHTransportBase.GetSSHParams sample_env sample_transport
              session_blank_in_username 1080
              (SSHTransportBase.sshPassword session_blank_in_username)
              SSHTransportBase.no_params))
  /\ ~ (arg_after "-l"
          (split_args
             (o_plonkCommandLine
                (snd (SSHTransportBase.GetSSHParams sample_env
                        sample_transport session_blank_in_username 1080
                        (SSHTransportBase.sshPassword
                           session_blank_in_username)
                        SSHTransportBase.no_params))))
        = Some "u -pw x"
        /\ arg_after "-l"
             (split_args
                (o_plonkCommandLine
                   (snd (SSHTransportBase.GetSSHParams sample_env
                           sample_transport session_blank_in_password 1080
                           (SSHTransportBase.sshPassword
                              session_blank_in_password)
                           SSHTransportBase.no_params))))
           = Some "u").
Proof.
  destruct (C2_credentials_are_written_verbatim sample_env sample_transport
              session_blank_in_username 1080
              (SSHTransportBase.sshPassword session_blank_in_username)
              SSHTransportBase.no_params) as [_ Hsame].
  destruct (Hsame session_blank_in_password
              (SSHTransportBase.sshPassword session_blank_in_password)
              "u" "x" eq_refl eq_refl eq_refl eq_refl eq_refl eq_refl)
    as [Heq Hargv].
  split; [exact Heq | exact (Hargv split_args)].
Defined.

Example blank_in_password_splits_the_argument :
  split_args
    (o_plonkCommandLine
       (snd (SSHTransportBase.GetSSHParams sample_env sample_transport
               (with_password sample_session "a b") 1080
               (SSHTransportBase.sshPassword
                  (with_password sample_session "a b"))
               SSHTransportBase.no_params)))
  = ["plonk.exe"; "-ssh"; "-C"; "-N"; "-batch"; "-P"; "8080"; "-l"; "u";
     "-pw"; "CSa"; "b"; "-D"; "1080"].
Proof. reflexivity. Qed.

(** C2 as stated fails: no way of cutting command lines into arguments
    recovers the credentials, because two descriptors with different user
    names and passwords are given the same command line. *)
Lemma C2_counterexample_no_quoting :
  ~ exists argv : tstring -> list tstring, passes_credentials_atomically argv.
Proof.
  intros [argv H].
  destruct (H sample_env sample_transport session_blank_in_username 1080
              SSHTransportBase.no_params) as [H1 _].
  destruct (H sample_env sample_transport session_blank_in_password 1080
              SSHTransportBase.no_params) as [H2 _].
  vm_compute in H1, H2. rewrite H1 in H2. discriminate H2.
Qed.

(* ================================================================== *)
(** ** Waiting for connectability *)

Lemma trace_emit (e : Event) (w : World) : trace (emit e w) = (trace w ++ [e])%list.
Proof. reflexivity. Qed.

Ltac case_if :=
  match goal with
  | |- context [if ?c then _ else _] => destruct c eqn:?
  end.

Ltac world_simpl :=
  cbn [emit n_tick n_connect n_signalled n_stop n_extract n_create
       n_attach n_terminate trace fst snd].

Lemma body_events E port start maxWait process stopInfo w step w' :
  WaitForConnectability_body E port start maxWait process stopInfo w
    = (step, w') ->
  exists evs,
    trace w' = (trace w ++ evs)%list
    /\ pass_events port process stopInfo evs step.
Proof.
  cbv beta iota zeta delta [WaitForConnectability_body GetTickCount
    try_connect WaitForSingleObject CheckSignal].
  repeat (world_simpl; case_if).
  all: world_simpl; intros [= <- <-].
  all: eexists; split;
    [ | first [ apply pass_timeout | apply pass_connected
              | apply pass_dead; now apply Z.eqb_neq
              | apply pass_cancelled; assumption
              | apply pass_again ] ].
  all: unfold alive_check, cancel_check.
  all: repeat match goal with
         | H : _ = true |- _ => rewrite H
         | H : _ = false |- _ => rewrite H
         end.
  all: world_simpl; cbn [app]; rewrite <- ?app_assoc; reflexivity.
Qed.

Lemma loop_events E fuel port start maxWait process stopInfo :
  forall w returnValue w',
    WaitForConnectability_loop E fuel port start maxWait process stopInfo w
      = Some (returnValue, w') ->
    exists evs,
      trace w' = (trace w ++ evs)%list
      /\ run_events port process stopInfo evs returnValue.
Proof.
  induction fuel as [|fuel IH]; intros w r w' H; [discriminate|].
  cbn [WaitForConnectability_loop] in H.
  destruct (WaitForConnectability_body E port start maxWait process
              stopInfo w) as [[r1|] w1] eqn:Hbody;
    apply body_events in Hbody as (evs & Ht & Hp).
  - injection H as <- <-. exists evs. split; [exact Ht|].
    now apply run_last.
  - apply IH in H as (evs' & Ht' & Hr).
    exists (evs ++ evs')%list. split.
    + rewrite Ht', Ht. now rewrite app_assoc.
    + now apply run_more with (evs := evs).
Qed.

Lemma pass_events_dead port process stopInfo evs step :
  pass_events port process stopInfo evs step ->
  In (EvWaitForSingleObject process 0 true) evs ->
  step = Break ERROR_SYSTEM_PROCESS_TERMINATED.
Proof.
  intros Hp Hin. destruct Hp; try reflexivity; exfalso.
  all: unfold alive_check, cancel_check in Hin.
  all: repeat match goal with
         | H : In _ (if ?c then _ else _) |- _ => destruct c
         | H : In _ (_ ++ _) |- _ => apply in_app_or in H as [H | H]
         | H : In _ (_ :: _) |- _ => destruct H as [H | H]; [discriminate H|]
         | H : In _ [] |- _ => destruct H
         end.
Qed.

Lemma run_events_dead port process stopInfo evs returnValue :
  run_events port process stopInfo evs returnValue ->
  In (EvWaitForSingleObject process 0 true) evs ->
  returnValue = ERROR_SYSTEM_PROCESS_TERMINATED.
Proof.
  induction 1 as [evs r Hp | evs evs' r Hp Hr IH]; intros Hin.
  - apply (pass_events_dead _ _ _ _ _ Hp) in Hin. now injection Hin.
  - apply in_app_or in Hin as [Hin | Hin]; [|now apply IH].
    apply (pass_events_dead _ _ _ _ _ Hp) in Hin. discriminate Hin.
Qed.

Lemma loop_after_waiting E port start maxWait process stopInfo :
  forall (k fuel : nat) (w wk : World),
    after_waiting E k port start maxWait process stopInfo w = Some wk ->
    WaitForConnectability_loop E (k + fuel) port start maxWait process
      stopInfo w
    = WaitForConnectability_loop E fuel port start maxWait process
        stopInfo wk.
Proof.
  induction k as [|k IH]; intros fuel w wk H.
  - now injection H as ->.
  - cbn [after_waiting] in H. cbn [Nat.add WaitForConnectability_loop].
    destruct (WaitForConnectability_body E port start maxWait process
                stopInfo w) as [[r|] w1]; [discriminate|].
    now apply IH.
Qed.

(** The calls of one [WaitForConnectability] on a port number: the first
    reading of the tick counter, the passes of the loop, the return. *)
Lemma WaitForConnectability_calls E fuel port timeout process stopInfo
      w returnValue w' :
  valid_port (USHORT port) = true ->
  WaitForConnectability E fuel port timeout process stopInfo w
    = Some (returnValue, w') ->
  exists start evs,
    calls_between w w'
      (EvGetTickCount start :: evs
         ++ [EvWaitForConnectability (USHORT port) (DWORD timeout) returnValue])
    /\ run_events (USHORT port) process stopInfo evs returnValue.
Proof.
  unfold WaitForConnectability, valid_port. intros Hv.
  apply andb_prop in Hv as [H1 H2].
  apply Z.ltb_lt in H1. apply Z.leb_le in H2.
  replace ((USHORT port <=? 0) || (65535 <? USHORT port)) with false
    by (symmetry; apply orb_false_iff; split;
        [apply Z.leb_gt | apply Z.ltb_ge]; lia).
  cbv beta iota zeta delta [GetTickCount].
  destruct (WaitForConnectability_loop _ _ _ _ _ _ _ _)
    as [[r w1]|] eqn:Hloop; [|discriminate].
  intros [= <- <-].
  apply loop_events in Hloop as (evs & Ht & Hr).
  exists (DWORD (tick_at E (n_tick w))), evs. split; [|exact Hr].
  unfold calls_between. rewrite trace_emit, Ht. world_simpl.
  rewrite <- !app_assoc. reflexivity.
Qed.

Lemma valid_port_check (p : Z) :
  valid_port p = true -> (p <=? 0) || (65535 <? p) = false.
Proof.
  unfold valid_port. intros H. apply andb_prop in H as [H1 H2].
  apply Z.ltb_lt in H1. apply Z.leb_le in H2.
  apply orb_false_iff. split; [apply Z.leb_gt | apply Z.ltb_ge]; lia.
Qed.

(** C6 (amended). In every run of [WaitForConnectability] on a port number
    that returns, the calls of each pass of the loop come in the order of
    [run_events]: tick count, connection attempt, and only then, the attempt
    having failed, the look at the process handle followed by the look at
    the stop signal; a handle found signalled ends the run with
    [ERROR_SYSTEM_PROCESS_TERMINATED]. When, after any number of passes that
    went on waiting, the process handle (not null) is signalled, the call
    returns in the next pass, without consulting the stop signal in it:
    [WAIT_TIMEOUT] if the deadline test of that pass holds, [ERROR_SUCCESS]
    if its connection attempt succeeds, and
    [ERROR_SYSTEM_PROCESS_TERMINATED] otherwise, whatever the stop signal
    would say; in this last case the calls of the pass are the reading of
    the tick counter, the connection attempt and the look at the handle. *)
Theorem C6_process_and_cancel_checked_after_probe :
  forall (E : Env) (port timeout process : Z) (stopInfo : StopInfo)
         (w : World),
    valid_port (USHORT port) = true ->
    (forall (fuel : nat) (returnValue : Z) (w' : World),
        WaitForConnectability E fuel port timeout process stopInfo w
          = Some (returnValue, w') ->
        exists start evs,
          calls_between w w'
            (EvGetTickCount start :: evs
               ++ [EvWaitForConnectability (USHORT port) (DWORD timeout)
                     returnValue])
          /\ run_events (USHORT port) process stopInfo evs returnValue
          /\ (In (EvWaitForSingleObject process 0 true) evs ->
              returnValue = ERROR_SYSTEM_PROCESS_TERMINATED))
    /\ (forall (k : nat) (wk : World),
           after_waiting E k (USHORT port) (DWORD (tick_at E (n_tick w)))
             (DWORD timeout) process stopInfo (snd (GetTickCount E w))
             = Some wk ->
           process <> 0 ->
           signalled_at E (n_signalled wk) = true ->
           forall fuel : nat,
           exists w',
             WaitForConnectability E (k + S fuel) port timeout process
               stopInfo w
             = Some
                 (if deadline_passed (DWORD (tick_at E (n_tick w)))
                       (DWORD timeout) (DWORD (tick_at E (n_tick wk)))
                  then WAIT_TIMEOUT
                  else if connect_at E (n_connect wk) (USHORT port)
                       then ERROR_SUCCESS
                       else ERROR_SYSTEM_PROCESS_TERMINATED,
                  w')
             /\ n_stop w' = n_stop wk
             /\ (deadline_passed (DWORD (tick_at E (n_tick w)))
                   (DWORD timeout) (DWORD (tick_at E (n_tick wk))) = false ->
                 connect_at E (n_connect wk) (USHORT port) = false ->
                 trace w'
                 = (trace wk
                      ++ [EvGetTickCount (DWORD (tick_at E (n_tick wk)));
                          EvConnect (USHORT port) false;
                          EvWaitForSingleObject process 0 true;
                          EvWaitForConnectability (USHORT port)
                            (DWORD timeout)
                            ERROR_SYSTEM_PROCESS_TERMINATED])%list)).
Proof.
  intros E port timeout process stopInfo w Hv. split.
  - intros fuel r w' Hrun.
    apply WaitForConnectability_calls in Hrun as (start & evs & Hc & Hr);
      [|exact Hv].
    exists start, evs. split; [exact Hc|]. split; [exact Hr|].
    now apply run_events_dead with (port := USHORT port) (stopInfo := stopInfo).
  - intros k wk Hwait Hproc Hdead fuel.
    unfold WaitForConnectability. rewrite (valid_port_check _ Hv).
    destruct (GetTickCount E w) as [start w1] eqn:Htick.
    assert (Hstart : start = DWORD (tick_at E (n_tick w)))
      by (unfold GetTickCount in Htick; now injection Htick).
    cbn [snd] in Hwait. rewrite <- Hstart in *.
    rewrite (loop_after_waiting _ _ _ _ _ _ _ _ _ _ Hwait).
    cbn [WaitForConnectability_loop].
    cbv beta iota zeta delta [WaitForConnectability_body GetTickCount
      try_connect WaitForSingleObject CheckSignal].
    world_simpl.
    destruct (deadline_passed start (DWORD timeout)
                (DWORD (tick_at E (n_tick wk)))).
    + eexists. split; [reflexivity|]. split; [reflexivity | discriminate].
    + world_simpl. destruct (connect_at E (n_connect wk) (USHORT port)).
      * eexists. split; [reflexivity|]. split; [reflexivity | discriminate].
      * apply Z.eqb_neq in Hproc. rewrite Hproc. world_simpl. rewrite Hdead.
        eexists. split; [reflexivity|]. split; [reflexivity|].
        intros _ _. world_simpl. rewrite <- !app_assoc. reflexivity.
Qed.

Lemma C6_process_death_witness :
  exists w',
    WaitForConnectability dying_env 1 1080 20000 44 sample_stop World0
    = Some (ERROR_SYSTEM_PROCESS_TERMINATED, w')
    /\ n_stop w' = 0%nat.
Proof.
  destruct (C6_process_and_cancel_checked_after_probe dying_env 1080 20000
              44 sample_stop World0 eq_refl)
    as [_ Hdead].
  destruct (Hdead 0%nat _ eq_refl ltac:(discriminate) eq_refl 0%nat)
    as (w' & Hrun & Hstop & _).
  exists w'. split; [exact Hrun | exact Hstop].
Defined.

(** C6 as stated fails: a process that is dead from the start, with no
    connection attempt that ever succeeds, is reported as [WAIT_TIMEOUT]
    when the deadline test ends the wait before the handle is looked at: with
    a timeout of 0, and, with a timeout of 20 seconds, when the tick counter
    wraps after the first reading. *)
Lemma C6_counterexample_dead_process_reported_as_timeout :
  ~ process_death_is_reported
  /\ option_map (fun r => (fst r, trace (snd r)))
       (WaitForConnectability dying_env 1 1080 0 44 sample_stop World0)
     = Some (WAIT_TIMEOUT,
             [EvGetTickCount 0; EvGetTickCount 50;
              EvWaitForConnectability 1080 0 WAIT_TIMEOUT])
  /\ option_map (fun r => (fst r, trace (snd r)))
       (WaitForConnectability dying_wrapping_env 1 1080 20000 44 sample_stop
          World0)
     = Some (WAIT_TIMEOUT,
             [EvGetTickCount MAXDWORD; EvGetTickCount 0;
              EvWaitForConnectability 1080 20000 WAIT_TIMEOUT]).
Proof.
  split; [|split; reflexivity].
  intros H.
  assert (Hrun : exists w',
             WaitForConnectability dying_wrapping_env 1 1080 20000 44
               sample_stop World0
             = Some (WAIT_TIMEOUT, w')) by (eexists; reflexivity).
  destruct Hrun as (w' & Hrun).
  specialize (H dying_wrapping_env 1%nat 1080 20000 44 sample_stop World0
                WAIT_TIMEOUT w' eq_refl ltac:(discriminate)
                (fun _ => eq_refl) (fun _ _ => eq_refl) Hrun).
  discriminate H.
Qed.

Example process_found_dead_in_the_third_pass :
  option_map (fun r => (fst r, trace (snd r)))
    (WaitForConnectability
       (with_oracles sample_env (fun k => 50 * Z.of_nat k)
          (fun _ _ => false) (fun k => (2 <=? k)%nat) (fun _ => false))
       5 1080 20000 44 sample_stop World0)
  = Some
      (ERROR_SYSTEM_PROCESS_TERMINATED,
       [EvGetTickCount 0;
        EvGetTickCount 50; EvConnect 1080 false;
        EvWaitForSingleObject 44 0 false; EvCheckSignal 1 false;
        EvGetTickCount 100; EvConnect 1080 false;
        EvWaitForSingleObject 44 0 false; EvCheckSignal 1 false;
        EvGetTickCount 150; EvConnect 1080 false;
        EvWaitForSingleObject 44 0 true;
        EvWaitForConnectability 1080 20000 591]).
Proof. vm_compute. reflexivity. Qed.

(* ================================================================== *)
(** ** The deadline of the wait *)

Lemma DWORD_small (x : Z) : 0 <= x <= MAXDWORD -> DWORD x = x.
Proof. intros H. unfold DWORD, MAXDWORD in *. apply Z.mod_small. lia. Qed.

Lemma DWORD_range (x : Z) : 0 <= DWORD x <= MAXDWORD.
Proof.
  unfold DWORD, MAXDWORD.
  pose proof (Z.mod_pos_bound x 4294967296 eq_refl). lia.
Qed.

Lemma DWORD_wrapped (x : Z) :
  - 4294967296 <= x < 0 -> DWORD x = x + 4294967296.
Proof.
  intros H. unfold DWORD.
  rewrite <- (Z.mod_add x 1 4294967296) by discriminate.
  apply Z.mod_small. lia.
Qed.

Lemma DWORD_overflowed (x : Z) :
  4294967296 <= x < 2 * 4294967296 -> DWORD x = x - 4294967296.
Proof.
  intros H. unfold DWORD.
  replace x with (x - 4294967296 + 1 * 4294967296) at 1 by lia.
  rewrite Z.mod_add by discriminate.
  apply Z.mod_small. lia.
Qed.

(** A pass of the loop ends with [WAIT_TIMEOUT] exactly when the test at its
    head holds of the tick count it reads. *)
Lemma body_timeout_iff E port start maxWait process stopInfo w :
  fst (WaitForConnectability_body E port start maxWait process stopInfo w)
    = Break WAIT_TIMEOUT
  <-> deadline_passed start maxWait (DWORD (tick_at E (n_tick w))) = true.
Proof.
  cbv beta iota zeta delta [WaitForConnectability_body GetTickCount
    try_connect WaitForSingleObject CheckSignal].
  world_simpl.
  destruct (deadline_passed _ _ _); [now split|].
  split; [|discriminate].
  repeat (world_simpl; case_if); world_simpl; discriminate.
Qed.

(** C5 (amended). The wait loop compares tick counts directly: a pass ends
    the wait with [WAIT_TIMEOUT] exactly when [now < start] or
    [now >= start + timeout] in 32-bit arithmetic. Hence the wait never
    lasts longer than the timeout because of a wrap (once the timeout has
    elapsed on the rolling counter, the test holds), and when neither the
    counter nor [start + timeout] wraps it holds exactly when the timeout
    has elapsed; but a counter that has wrapped ([now < start]) ends the
    wait at once. [GetTickCountDiff], which the loop does not use, returns a
    32-bit value that is the elapsed time when the counter has not wrapped
    and one less than the elapsed time when it has (for [start <> 0]). *)
Theorem C5_deadline_test_and_wraparound :
  forall (start maxWaitMilliseconds now : Z),
    0 <= start <= MAXDWORD ->
    0 <= now <= MAXDWORD ->
    0 <= maxWaitMilliseconds <= MAXDWORD ->
    (forall E port process stopInfo w,
        DWORD (tick_at E (n_tick w)) = now ->
        (fst (WaitForConnectability_body E port start maxWaitMilliseconds
                process stopInfo w) = Break WAIT_TIMEOUT
         <-> deadline_passed start maxWaitMilliseconds now = true))
    /\ (maxWaitMilliseconds <= DWORD (now - start) ->
        deadline_passed start maxWaitMilliseconds now = true)
    /\ (start <= now -> start + maxWaitMilliseconds <= MAXDWORD ->
        (deadline_passed start maxWaitMilliseconds now = true
         <-> maxWaitMilliseconds <= now - start))
    /\ (now < start ->
        deadline_passed start maxWaitMilliseconds now = true)
    /\ 0 <= GetTickCountDiff start now <= MAXDWORD
    /\ (start <> 0 -> start <= now ->
        GetTickCountDiff start now = now - start)
    /\ (start <> 0 -> now < start ->
        GetTickCountDiff start now = DWORD (now - start) - 1).
Proof.
  intros start maxWait now Hs Hn Hm.
  split; [|split; [|split; [|split; [|split; [|split]]]]].
  - intros E port process stopInfo w <-. apply body_timeout_iff.
  - intros Hel. unfold deadline_passed.
    destruct (Z.ltb_spec now start) as [Hlt | Hge]; [reflexivity|].
    cbn [orb]. apply Z.leb_le.
    rewrite DWORD_small in Hel by (unfold MAXDWORD in *; lia).
    destruct (Z_le_gt_dec (start + maxWait) MAXDWORD) as [Hno | Hov].
    + rewrite DWORD_small by lia. lia.
    + rewrite DWORD_overflowed by (unfold MAXDWORD in *; lia). lia.
  - intros Hle Hno. unfold deadline_passed.
    rewrite DWORD_small by lia.
    destruct (Z.ltb_spec now start) as [Hlt | Hge]; [lia|].
    cbn [orb]. rewrite Z.leb_le. lia.
  - intros Hlt. unfold deadline_passed.
    apply Z.ltb_lt in Hlt. now rewrite Hlt.
  - unfold GetTickCountDiff.
    destruct (start =? 0); [unfold MAXDWORD; lia|].
    destruct (now <? start); apply DWORD_range.
  - intros Hnz Hle. unfold GetTickCountDiff.
    apply Z.eqb_neq in Hnz. rewrite Hnz.
    destruct (Z.ltb_spec now start) as [Hlt | Hge]; [lia|].
    apply DWORD_small. lia.
  - intros Hnz Hlt. unfold GetTickCountDiff.
    apply Z.eqb_neq in Hnz. rewrite Hnz.
    apply Z.ltb_lt in Hlt as Hlt'. rewrite Hlt'.
    rewrite (DWORD_small (MAXDWORD - start)) by lia.
    rewrite DWORD_small by lia.
    rewrite DWORD_wrapped by (unfold MAXDWORD in *; lia).
    unfold MAXDWORD. lia.
Qed.

Lemma C5_deadline_witness :
  deadline_passed 1000 20000 21000 = true
  /\ deadline_passed MAXDWORD 20000 0 = true
  /\ GetTickCountDiff MAXDWORD 0 = 0.
Proof.
  destruct (C5_deadline_test_and_wraparound 1000 20000 21000)
    as (_ & Hlate & _); [unfold MAXDWORD; lia .. |].
  destruct (C5_deadline_test_and_wraparound MAXDWORD 20000 0)
    as (_ & _ & _ & Hwrap & _ & _ & Hdiff); [unfold MAXDWORD; lia .. |].
  split; [apply Hlate; vm_compute; discriminate|].
  split; [apply Hwrap; reflexivity|].
  rewrite Hdiff; [reflexivity | discriminate | reflexivity].
Defined.

(** C5 as stated fails: the counter wraps one millisecond after the wait
    has begun, and the wait, called with a timeout of 20 seconds, returns
    [WAIT_TIMEOUT] at its first pass. *)
Lemma C5_counterexample_wrap_times_out_early :
  ~ timeout_only_after_deadline.
Proof.
  intros H.
  assert (Hrun : exists w',
             WaitForConnectability wrapping_env 1 1080 20000 44 sample_stop
               World0 = Some (WAIT_TIMEOUT, w')
             /\ n_tick w' = 2%nat).
  { vm_compute. eexists. split; reflexivity. }
  destruct Hrun as (w' & Hrun & Hticks).
  assert (Hmono : forall k,
             tick_at wrapping_env k <= tick_at wrapping_env (S k)).
  { intros k. cbn [tick_at wrapping_env with_oracles]. lia. }
  specialize (H wrapping_env 1%nat 1080 20000 44 sample_stop World0 w'
                Hmono ltac:(unfold MAXDWORD; lia) Hrun).
  rewrite Hticks in H. cbn [pred tick_at wrapping_env with_oracles n_tick World0] in H.
  unfold MAXDWORD in H. lia.
Qed.

Example wrap_times_out_at_once :
  option_map fst
    (WaitForConnectability wrapping_env 1 1080 20000 44 sample_stop World0)
  = Some WAIT_TIMEOUT.
Proof. reflexivity. Qed.

(* ================================================================== *)
(** ** Port negotiation *)

Lemma probes_of_app (a b : list Event) :
  probes_of (a ++ b) = (probes_of a ++ probes_of b)%list.
Proof.
  induction a as [|e a IH]; [reflexivity|].
  destruct e; cbn [app probes_of]; rewrite ?IH; reflexivity.
Qed.

Lemma probes_of_poll (evs : list Event) :
  forallb is_poll_event evs = true -> probes_of evs = [].
Proof.
  induction evs as [|e evs IH]; [reflexivity|].
  cbn [forallb]. intros H. apply andb_prop in H as [He Hr].
  destruct e; try discriminate He; cbn [probes_of]; auto.
Qed.

Lemma pass_events_poll port process stopInfo evs step :
  pass_events port process stopInfo evs step ->
  forallb is_poll_event evs = true.
Proof.
  intros H. destruct H; unfold alive_check, cancel_check;
    repeat case_if; reflexivity.
Qed.

Lemma run_events_poll port process stopInfo evs returnValue :
  run_events port process stopInfo evs returnValue ->
  forallb is_poll_event evs = true.
Proof.
  induction 1 as [evs r Hp | evs evs' r Hp Hr IH].
  - now apply pass_events_poll in Hp.
  - rewrite forallb_app, IH. now apply pass_events_poll in Hp as ->.
Qed.

Lemma is_poll_is_wait (evs : list Event) :
  forallb is_poll_event evs = true -> forallb is_wait_event evs = true.
Proof.
  induction evs as [|e evs IH]; [reflexivity|].
  cbn [forallb]. intros H. apply andb_prop in H as [He Hr].
  rewrite IH by exact Hr. destruct e; try discriminate He; reflexivity.
Qed.

(** What a call of [WaitForConnectability] leaves in the trace: the calls
    of its passes, then the mark of its return. *)
Lemma WaitForConnectability_events E fuel port timeout process stopInfo
      w returnValue w' :
  WaitForConnectability E fuel port timeout process stopInfo w
    = Some (returnValue, w') ->
  exists evs,
    trace w' = (trace w ++ evs)%list
    /\ forallb is_wait_event evs = true
    /\ probes_of evs = [(USHORT port, returnValue)].
Proof.
  unfold WaitForConnectability.
  destruct ((USHORT port <=? 0) || (65535 <? USHORT port)).
  { intros [= <- <-]. eexists. split; [apply trace_emit|].
    split; reflexivity. }
  cbv beta iota zeta delta [GetTickCount].
  destruct (WaitForConnectability_loop _ _ _ _ _ _ _ _)
    as [[r w1]|] eqn:Hloop; [|discriminate].
  intros [= <- <-].
  apply loop_events in Hloop as (evs & Ht & Hr).
  apply run_events_poll in Hr.
  exists ((EvGetTickCount (DWORD (tick_at E (n_tick w))) :: evs)
            ++ [EvWaitForConnectability (USHORT port) (DWORD timeout) r])%list.
  split; [|split].
  - rewrite trace_emit, Ht. world_simpl.
    rewrite <- !app_assoc. reflexivity.
  - rewrite forallb_app. cbn [forallb is_wait_event is_poll_event].
    now rewrite (is_poll_is_wait _ Hr).
  - rewrite probes_of_app. cbn [probes_of].
    now rewrite (probes_of_poll _ Hr).
Qed.

Lemma USHORT_valid (p : Z) : valid_port p = true -> USHORT p = p.
Proof.
  unfold valid_port, USHORT. intros H. apply andb_prop in H as [H1 H2].
  apply Z.ltb_lt in H1. apply Z.leb_le in H2. apply Z.mod_small. lia.
Qed.

Lemma candidates_length (start : Z) (n : nat) :
  List.length (candidates start n) = n.
Proof.
  revert start. induction n as [|n IH]; intros start; cbn; auto.
Qed.

Lemma candidates_step (targetPort port : Z) :
  targetPort + 1 <= port ->
  candidates targetPort (Z.to_nat (port - targetPort))
  = targetPort :: candidates (targetPort + 1)
                    (Z.to_nat (port - (targetPort + 1))).
Proof.
  intros H.
  replace (Z.to_nat (port - targetPort))
    with (S (Z.to_nat (port - (targetPort + 1)))) by lia.
  reflexivity.
Qed.

Lemma INT_small (x : Z) : INT_MIN <= x <= INT_MAX -> INT x = x.
Proof.
  unfold INT, INT_MIN, INT_MAX. intros H.
  rewrite Z.mod_small by lia. lia.
Qed.

Lemma INT_range (x : Z) : INT_MIN <= INT x <= INT_MAX.
Proof.
  unfold INT, INT_MIN, INT_MAX.
  pose proof (Z.mod_pos_bound (x + 2147483648) 4294967296 eq_refl). lia.
Qed.

(** With fuel, the loop of [TestForOpenPort] makes its first pass. *)
Lemma TestForOpenPort_passes_S fuel targetPort maxPort :
  exists n, TestForOpenPort_passes (S fuel) targetPort maxPort = S n.
Proof.
  unfold TestForOpenPort_passes.
  destruct (maxPort =? INT_MAX); [now eexists|].
  destruct (targetPort =? INT_MAX); now eexists.
Qed.

(** Without overflow the loop of [TestForOpenPort] has one pass for each
    candidate. *)
Lemma TestForOpenPort_passes_within_int fuel targetPort maxPort :
  targetPort <= maxPort < INT_MAX ->
  TestForOpenPort_passes fuel targetPort maxPort
  = S (Z.to_nat (maxPort - targetPort)).
Proof.
  intros H. unfold TestForOpenPort_passes.
  replace (maxPort =? INT_MAX) with false by (symmetry; apply Z.eqb_neq; lia).
  replace (targetPort =? INT_MAX) with false
    by (symmetry; apply Z.eqb_neq; lia).
  reflexivity.
Qed.

(** The loop of [TestForOpenPort], from a candidate [targetPort] with [m]
    more candidates up to [maxPort], when every probe comes back and no
    increment overflows. *)
Lemma TestForOpenPort_loop_spec E fuel stopInfo :
  probes_return E fuel stopInfo ->
  forall (m : nat) (targetPort maxPort : Z) (w : World),
    Z.of_nat m = maxPort - targetPort ->
    INT_MIN <= targetPort ->
    maxPort < INT_MAX ->
    exists ok port w' evs,
      TestForOpenPort_loop E fuel (S m) targetPort maxPort stopInfo w
        = Some (ok, port, w')
      /\ trace w' = (trace w ++ evs)%list
      /\ forallb is_wait_event evs = true
      /\ (ok = true ->
          targetPort <= port <= maxPort
          /\ valid_port port = true
          /\ exists returnValue,
               returnValue <> ERROR_SUCCESS
               /\ probes_of evs
                  = (map occupied
                       (filter valid_port
                          (candidates targetPort
                             (Z.to_nat (port - targetPort))))
                     ++ [(port, returnValue)])%list)
      /\ (ok = false ->
          port = maxPort + 1
          /\ probes_of evs
             = map occupied
                 (filter valid_port (candidates targetPort (S m)))).
Proof.
  intros Hret. induction m as [|m IH]; intros targetPort maxPort w Hm Hlo Hhi.
  - (* the last candidate *)
    cbn [TestForOpenPort_loop].
    rewrite !(INT_small (targetPort + 1)) by (unfold INT_MAX in *; lia).
    change ((0 <? targetPort) && (targetPort <=? 65535))
      with (valid_port targetPort).
    assert (Hlast : (targetPort + 1 <=? maxPort) = false)
      by (apply Z.leb_gt; lia).
    destruct (valid_port targetPort) eqn:Hv.
    + destruct (WaitForConnectability E fuel targetPort 100 0 stopInfo w)
        as [[r w1]|] eqn:Hw; [|now elim (Hret targetPort w)].
      apply WaitForConnectability_events in Hw as (evs & Ht & Hwait & Hp).
      rewrite (USHORT_valid _ Hv) in Hp.
      destruct (r =? ERROR_SUCCESS) eqn:Hr; cbn [negb].
      * rewrite Hlast. apply Z.eqb_eq in Hr. subst r.
        exists false, (targetPort + 1), w1, evs.
        repeat split; try assumption; try discriminate; try lia.
        cbn [candidates filter]. rewrite Hv. exact Hp.
      * exists true, targetPort, w1, evs.
        repeat split; try assumption; try discriminate; try lia.
        exists r. split; [now apply Z.eqb_neq|].
        rewrite Z.sub_diag. exact Hp.
    + rewrite Hlast.
      exists false, (targetPort + 1), w, [].
      repeat split; try discriminate; try lia.
      * now rewrite app_nil_r.
      * cbn [candidates filter]. now rewrite Hv.
  - (* a candidate with others after it *)
    cbn [TestForOpenPort_loop].
    rewrite !(INT_small (targetPort + 1)) by (unfold INT_MAX in *; lia).
    change ((0 <? targetPort) && (targetPort <=? 65535))
      with (valid_port targetPort).
    assert (Hmore : (targetPort + 1 <=? maxPort) = true)
      by (apply Z.leb_le; lia).
    assert (Hm' : Z.of_nat m = maxPort - (targetPort + 1)) by lia.
    destruct (valid_port targetPort) eqn:Hv.
    + destruct (WaitForConnectability E fuel targetPort 100 0 stopInfo w)
        as [[r w1]|] eqn:Hw; [|now elim (Hret targetPort w)].
      apply WaitForConnectability_events in Hw as (evs & Ht & Hwait & Hp).
      rewrite (USHORT_valid _ Hv) in Hp.
      destruct (r =? ERROR_SUCCESS) eqn:Hr; cbn [negb].
      * rewrite Hmore. apply Z.eqb_eq in Hr. subst r.
        destruct (IH (targetPort + 1) maxPort w1 Hm' ltac:(lia) Hhi)
          as (ok & port & w' & evs' & Hrun & Ht' & Hwait' & Hok & Hfail).
        exists ok, port, w', (evs ++ evs')%list.
        split; [exact Hrun|]. split; [now rewrite Ht', Ht, app_assoc|].
        split; [now rewrite forallb_app, Hwait, Hwait'|].
        rewrite probes_of_app, Hp. split.
        -- intros Htrue. destruct (Hok Htrue) as (Hrange & Hvp & r & Hr & Hpr).
           split; [lia|]. split; [exact Hvp|].
           exists r. split; [exact Hr|].
           rewrite candidates_step by lia. cbn [filter]. rewrite Hv, Hpr.
           reflexivity.
        -- intros Hfalse. destruct (Hfail Hfalse) as (Hport & Hpr).
           split; [exact Hport|].
           change (candidates targetPort (S (S m)))
             with (targetPort :: candidates (targetPort + 1) (S m)).
           cbn [filter]. rewrite Hv, Hpr. reflexivity.
      * exists true, targetPort, w1, evs.
        repeat split; try assumption; try discriminate; try lia.
        exists r. split; [now apply Z.eqb_neq|].
        rewrite Z.sub_diag. exact Hp.
    + rewrite Hmore.
      destruct (IH (targetPort + 1) maxPort w Hm' ltac:(lia) Hhi)
        as (ok & port & w' & evs' & Hrun & Ht' & Hwait' & Hok & Hfail).
      exists ok, port, w', evs'.
      split; [exact Hrun|]. split; [exact Ht'|]. split; [exact Hwait'|].
      split.
      * intros Htrue. destruct (Hok Htrue) as (Hrange & Hvp & r & Hr & Hpr).
        split; [lia|]. split; [exact Hvp|].
        exists r. split; [exact Hr|].
        rewrite candidates_step by lia. cbn [filter]. rewrite Hv. exact Hpr.
      * intros Hfalse. destruct (Hfail Hfalse) as (Hport & Hpr).
        split; [exact Hport|].
        change (candidates targetPort (S (S m)))
          with (targetPort :: candidates (targetPort + 1) (S m)).
        cbn [filter]. rewrite Hv. exact Hpr.
Qed.

Lemma candidates_app (start : Z) (a b : nat) :
  candidates start (a + b)
  = (candidates start a ++ candidates (start + Z.of_nat a) b)%list.
Proof.
  revert start. induction a as [|a IH]; intros start.
  - cbn. now rewrite Z.add_0_r.
  - cbn [Nat.add candidates app]. rewrite IH. do 3 f_equal. lia.
Qed.

Lemma map_fst_occupied (l : list Z) : map fst (map occupied l) = l.
Proof. induction l as [|x l IH]; cbn; [reflexivity | now rewrite IH]. Qed.

(** With [maxPort] below [INT_MAX] and probes that come back, the loop of
    [TestForOpenPort] returns within the passes that
    [TestForOpenPort_passes] counts. *)
Lemma TestForOpenPort_loop_returns E fuel stopInfo :
  probes_return E fuel stopInfo ->
  forall (n : nat) (targetPort maxPort : Z) (w : World),
    INT_MIN <= targetPort <= INT_MAX ->
    maxPort < INT_MAX ->
    (if targetPort =? INT_MAX then maxPort - INT_MIN + 1
     else maxPort - targetPort) < Z.of_nat n ->
    (0 < n)%nat ->
    TestForOpenPort_loop E fuel n targetPort maxPort stopInfo w <> None.
Proof.
  intros Hret. induction n as [|n IH]; intros targetPort maxPort w Ht Hm Hn Hpos;
    [lia|].
  cbn [TestForOpenPort_loop].
  assert (Hstep : forall w1,
            (if INT (targetPort + 1) <=? maxPort
             then TestForOpenPort_loop E fuel n (INT (targetPort + 1))
                    maxPort stopInfo w1
             else Some (false, INT (targetPort + 1), w1)) <> None).
  { intros w1. destruct (Z.leb_spec (INT (targetPort + 1)) maxPort) as [Hle|Hgt];
      [|discriminate].
    destruct (Z.eqb_spec targetPort INT_MAX) as [-> | Hne].
    - change (INT (INT_MAX + 1)) with INT_MIN in *.
      apply IH; [unfold INT_MIN, INT_MAX; lia | exact Hm | | ].
      + change (INT_MIN =? INT_MAX) with false. cbv iota. lia.
      + unfold INT_MIN in *. lia.
    - rewrite (INT_small (targetPort + 1)) in *
        by (unfold INT_MIN, INT_MAX in *; lia).
      apply IH; [unfold INT_MIN, INT_MAX in *; lia | exact Hm | | lia].
      destruct (Z.eqb_spec (targetPort + 1) INT_MAX); lia. }
  destruct ((0 <? targetPort) && (targetPort <=? 65535)).
  - destruct (WaitForConnectability E fuel targetPort 100 0 stopInfo w)
      as [[r w1]|] eqn:Hw; [|now elim (Hret targetPort w)].
    destruct (negb (r =? ERROR_SUCCESS)); [discriminate|]. apply Hstep.
  - apply Hstep.
Qed.

(** The bound on the passes of the loop of [TestForOpenPort] is no
    restriction: unless [maxPort] is [INT_MAX], a call whose probes come back
    returns. *)
Lemma TestForOpenPort_returns_unless_endless E fuel targetPort maxIncrement
      stopInfo w :
  probes_return E fuel stopInfo ->
  INT_MIN <= targetPort <= INT_MAX ->
  INT (targetPort + maxIncrement) <> INT_MAX ->
  TestForOpenPort E fuel targetPort maxIncrement stopInfo w <> None.
Proof.
  intros Hret Ht Hm. unfold TestForOpenPort, TestForOpenPort_passes.
  pose proof (INT_range (targetPort + maxIncrement)) as Hr.
  set (maxPort := INT (targetPort + maxIncrement)) in *.
  replace (maxPort =? INT_MAX) with false by (symmetry; now apply Z.eqb_neq).
  apply TestForOpenPort_loop_returns; try assumption; try lia.
  - destruct (targetPort =? INT_MAX); unfold INT_MIN in *; lia.
  - destruct (targetPort =? INT_MAX); lia.
Qed.

(** C4 (amended). For every starting port and every maximum increment that
    is not negative, with [start + maxIncrement] below the largest [int] (so
    that neither [targetPort + maxIncrement] nor [++targetPort] overflows),
    when every probe comes back, [TestForOpenPort] returns. It probes, for
    100 ms each and in ascending order, only the candidates of
    [start .. start + maxIncrement] that are port numbers (1 to 65535), at
    most [maxIncrement + 1] of them. It returns true with the first such
    candidate whose probe does not report a listener (a result other than
    [ERROR_SUCCESS]), every candidate probed before it having reported one;
    it returns false exactly when every such candidate reported a
    listener. *)
Theorem C4_port_negotiation_scans_valid_candidates :
  forall (E : Env) (fuel : nat) (start maxIncrement : Z)
         (stopInfo : StopInfo) (w : World),
    INT_MIN <= start ->
    0 <= maxIncrement ->
    start + maxIncrement < INT_MAX ->
    probes_return E fuel stopInfo ->
    exists ok port w' evs,
      TestForOpenPort E fuel start maxIncrement stopInfo w
        = Some (ok, port, w')
      /\ trace w' = (trace w ++ evs)%list
      /\ Z.of_nat (List.length (probes_of evs)) <= maxIncrement + 1
      /\ (exists rest,
             valid_candidates start maxIncrement
             = (map fst (probes_of evs) ++ rest)%list)
      /\ (ok = true ->
          start <= port <= start + maxIncrement
          /\ valid_port port = true
          /\ exists returnValue,
               returnValue <> ERROR_SUCCESS
               /\ probes_of evs
                  = (map occupied
                       (filter valid_port
                          (candidates start (Z.to_nat (port - start))))
                     ++ [(port, returnValue)])%list)
      /\ (ok = false ->
          probes_of evs = map occupied (valid_candidates start maxIncrement)).
Proof.
  intros E fuel start inc stopInfo w Hlo Hinc Hhi Hret.
  unfold TestForOpenPort.
  rewrite (INT_small (start + inc)) by (unfold INT_MAX in *; lia).
  rewrite TestForOpenPort_passes_within_int by lia.
  replace (start + inc - start) with inc by lia.
  destruct (TestForOpenPort_loop_spec E fuel stopInfo Hret (Z.to_nat inc)
              start (start + inc) w ltac:(lia) Hlo Hhi)
    as (ok & port & w' & evs & Hrun & Ht & _ & Hok & Hfail).
  exists ok, port, w', evs.
  split; [exact Hrun|]. split; [exact Ht|].
  destruct ok.
  - destruct (Hok eq_refl) as (Hrange & Hvp & r & Hr & Hp).
    set (k := Z.to_nat (port - start)) in *.
    assert (Hk : (S (Z.to_nat inc) = k + S (Z.to_nat inc - k))%nat)
      by (subst k; lia).
    split; [|split; [|split]].
    + rewrite Hp, length_app, length_map. cbn [List.length].
      pose proof (filter_length_le valid_port (candidates start k)) as Hle.
      rewrite candidates_length in Hle. subst k. lia.
    + exists (filter valid_port
                (candidates (port + 1) (Z.to_nat inc - k))).
      unfold valid_candidates. rewrite Hk, candidates_app, filter_app.
      rewrite Hp, map_app, map_fst_occupied. cbn [map fst].
      rewrite <- app_assoc. f_equal.
      replace (start + Z.of_nat k) with port by (subst k; lia).
      cbn [candidates filter]. now rewrite Hvp.
    + intros _. split; [exact Hrange|]. split; [exact Hvp|].
      exists r. split; [exact Hr | exact Hp].
    + discriminate.
  - destruct (Hfail eq_refl) as (Hport & Hp).
    split; [|split; [|split]].
    + rewrite Hp, length_map.
      pose proof (filter_length_le valid_port
                    (candidates start (S (Z.to_nat inc)))) as Hle.
      rewrite candidates_length in Hle. lia.
    + exists []. rewrite Hp, map_fst_occupied, app_nil_r. reflexivity.
    + discriminate.
    + intros _. exact Hp.
Qed.

Lemma deadline_reached (t d : Z) :
  deadline_passed (DWORD t) (DWORD d) (DWORD (t + d)) = true.
Proof.
  unfold deadline_passed.
  replace (DWORD (DWORD t + DWORD d)) with (DWORD (t + d)).
  - now rewrite Z.leb_refl, orb_true_r.
  - unfold DWORD. now rewrite <- Z.add_mod by discriminate.
Qed.

(** A tick counter that advances by 100 ms over two readings brings every
    probe of port negotiation back within two passes. *)
Lemma probes_return_steady (E : Env) (stopInfo : StopInfo) :
  (forall k, tick_at E (S (S k)) = tick_at E k + 100) ->
  probes_return E 2 stopInfo.
Proof.
  intros Htick port w. unfold WaitForConnectability.
  destruct ((USHORT port <=? 0) || (65535 <? USHORT port)); [discriminate|].
  cbv beta iota zeta delta [GetTickCount WaitForConnectability_loop
    WaitForConnectability_body try_connect WaitForSingleObject CheckSignal].
  repeat (world_simpl; case_if).
  all: world_simpl; try discriminate.
  all: match goal with
       | H : deadline_passed _ _ (DWORD (tick_at _ (S (S _)))) = false |- _ =>
           rewrite Htick, deadline_reached in H; discriminate H
       end.
Qed.

Lemma C4_port_negotiation_witness :
  exists ok port w',
    TestForOpenPort sample_env 2 1080 10 sample_stop World0
    = Some (ok, port, w')
    /\ (ok = true -> 1080 <= port <= 1080 + 10 /\ valid_port port = true).
Proof.
  assert (Hret : probes_return sample_env 2 sample_stop).
  { apply probes_return_steady. intros k. cbn [tick_at sample_env]. lia. }
  destruct (C4_port_negotiation_scans_valid_candidates sample_env 2 1080 10
              sample_stop World0 ltac:(unfold INT_MIN; lia) ltac:(lia)
              ltac:(unfold INT_MAX; lia) Hret)
    as (ok & port & w' & evs & Hrun & _ & _ & _ & Hok & _).
  exists ok, port, w'. split; [exact Hrun|].
  intros Htrue. destruct (Hok Htrue) as (Hrange & Hvp & _).
  split; [exact Hrange | exact Hvp].
Defined.

Example negotiation_skips_the_occupied_port :
  option_map (fun r => (fst r, probes_of (trace (snd r))))
    (TestForOpenPort sample_env 2 1080 10 sample_stop World0)
  = Some ((true, 1081), [(1080, ERROR_SUCCESS); (1081, WAIT_TIMEOUT)]).
Proof. vm_compute. reflexivity. Qed.

(** C4 as stated fails outside the port numbers, for a negative increment
    and when the sum of port and increment overflows: with nothing
    listening anywhere, negotiation from port 0 with increment 0 fails
    without a probe, although no candidate is occupied; negotiation from
    port 1080 with increment -1 probes port 1080 and returns it, one probe
    where none is allowed and a port outside the range; and with a listener
    on port 1080 only, negotiation from port 1080 with the largest [int] as
    increment fails after the one probe of port 1080, [maxPort] having
    wrapped below it, although port 1081 is free. *)
Lemma C4_counterexample_candidates_skipped_or_scan_cut_short :
  (exists w',
      TestForOpenPort quiet_env 2 0 0 sample_stop World0
      = Some (false, 1, w')
      /\ ~ negotiation_as_stated 0 0 false 1 (probes_of (trace w')))
  /\ (exists w',
         TestForOpenPort quiet_env 2 1080 (-1) sample_stop World0
         = Some (true, 1080, w')
         /\ ~ negotiation_as_stated 1080 (-1) true 1080
               (probes_of (trace w')))
  /\ (exists w',
         TestForOpenPort sample_env 2 1080 INT_MAX sample_stop World0
         = Some (false, 1081, w')
         /\ probes_of (trace w') = [(1080, ERROR_SUCCESS)]
         /\ connect_at sample_env (n_connect w') 1081 = false
         /\ ~ negotiation_as_stated 1080 INT_MAX false 1081
               (probes_of (trace w'))).
Proof.
  split; [|split]; eexists; (split; [vm_compute; reflexivity|]).
  - intros (_ & _ & Hfail). specialize (Hfail eq_refl).
    vm_compute in Hfail. discriminate Hfail.
  - intros (Hlen & _). vm_compute in Hlen. now apply Hlen.
  - split; [reflexivity|]. split; [reflexivity|].
    intros (_ & _ & Hfail). specialize (Hfail eq_refl).
    change (probes_of _) with [(1080, ERROR_SUCCESS)] in Hfail.
    replace (Z.to_nat (INT_MAX + 1))
      with (S (S (Z.to_nat (INT_MAX - 1)))) in Hfail
      by (unfold INT_MAX; lia).
    cbn [candidates map] in Hfail. discriminate Hfail.
Qed.

(** C10 (amended). While port negotiation probes a candidate (a port
    number, the probe not yet at its deadline): if the connection attempt
    fails and the stop signal is then found raised, the probe returns
    [ERROR_OPERATION_ABORTED], and [TestForOpenPort], for which every
    result other than [ERROR_SUCCESS] means that nothing is listening,
    returns true with that candidate. If the connection attempt succeeds,
    the probe returns [ERROR_SUCCESS] without consulting the stop signal,
    and the candidate is passed over as in use. *)
Theorem C10_abort_is_taken_for_a_free_port :
  forall (E : Env) (fuel : nat) (targetPort maxIncrement : Z)
         (stopInfo : StopInfo) (w : World),
    valid_port targetPort = true ->
    deadline_passed (DWORD (tick_at E (n_tick w))) 100
      (DWORD (tick_at E (S (n_tick w)))) = false ->
    (connect_at E (n_connect w) targetPort = false ->
     stopSignal stopInfo = true ->
     stop_at E (n_stop w) = true ->
     exists w',
       WaitForConnectability E (S fuel) targetPort 100 0 stopInfo w
         = Some (ERROR_OPERATION_ABORTED, w')
       /\ TestForOpenPort E (S fuel) targetPort maxIncrement stopInfo w
         = Some (true, targetPort, w'))
    /\ (connect_at E (n_connect w) targetPort = true ->
        exists w',
          WaitForConnectability E (S fuel) targetPort 100 0 stopInfo w
            = Some (ERROR_SUCCESS, w')
          /\ n_stop w' = n_stop w
          /\ TestForOpenPort E (S fuel) targetPort 0 stopInfo w
            = Some (false, targetPort + 1, w')).
Proof.
  intros E fuel targetPort inc stopInfo w Hv Htime.
  assert (Hport : (USHORT targetPort <=? 0) || (65535 <? USHORT targetPort)
                  = false).
  { rewrite (USHORT_valid _ Hv). unfold valid_port in Hv.
    apply andb_prop in Hv as [H1 H2].
    apply Z.ltb_lt in H1. apply Z.leb_le in H2.
    apply orb_false_iff. split; [apply Z.leb_gt | apply Z.ltb_ge]; lia. }
  split.
  - intros Hconn Hsig Hstop.
    assert (Hprobe : exists w',
               WaitForConnectability E (S fuel) targetPort 100 0 stopInfo w
               = Some (ERROR_OPERATION_ABORTED, w')).
    { unfold WaitForConnectability. rewrite Hport, (USHORT_valid _ Hv).
      change (DWORD 100) with 100.
      cbv beta iota zeta delta [GetTickCount WaitForConnectability_loop
        WaitForConnectability_body try_connect WaitForSingleObject
        CheckSignal].
      world_simpl. rewrite Htime, Hconn. cbn [Z.eqb]. world_simpl.
      rewrite Hsig. world_simpl. rewrite Hstop.
      eexists. reflexivity. }
    destruct Hprobe as (w' & Hprobe). exists w'. split; [exact Hprobe|].
    unfold TestForOpenPort.
    destruct (TestForOpenPort_passes_S fuel targetPort
                (INT (targetPort + inc))) as (n & ->).
    cbn [TestForOpenPort_loop].
    change ((0 <? targetPort) && (targetPort <=? 65535))
      with (valid_port targetPort).
    rewrite Hv, Hprobe. reflexivity.
  - intros Hconn.
    assert (Hprobe : exists w',
               WaitForConnectability E (S fuel) targetPort 100 0 stopInfo w
               = Some (ERROR_SUCCESS, w')
               /\ n_stop w' = n_stop w).
    { unfold WaitForConnectability. rewrite Hport, (USHORT_valid _ Hv).
      change (DWORD 100) with 100.
      cbv beta iota zeta delta [GetTickCount WaitForConnectability_loop
        WaitForConnectability_body try_connect WaitForSingleObject
        CheckSignal].
      world_simpl. rewrite Htime, Hconn.
      eexists. split; reflexivity. }
    destruct Hprobe as (w' & Hprobe & Hstop). exists w'.
    split; [exact Hprobe|]. split; [exact Hstop|].
    assert (Hrange : 0 < targetPort <= 65535).
    { unfold valid_port in Hv. apply andb_prop in Hv as [H1 H2].
      apply Z.ltb_lt in H1. apply Z.leb_le in H2. lia. }
    unfold TestForOpenPort.
    rewrite (INT_small (targetPort + 0))
      by (unfold INT_MIN, INT_MAX; lia).
    destruct (TestForOpenPort_passes_S fuel targetPort (targetPort + 0))
      as (n & ->).
    cbn [TestForOpenPort_loop].
    change ((0 <? targetPort) && (targetPort <=? 65535))
      with (valid_port targetPort).
    rewrite Hv, Hprobe. cbn [Z.eqb ERROR_SUCCESS negb].
    rewrite (INT_small (targetPort + 1))
      by (unfold INT_MIN, INT_MAX; lia).
    replace (targetPort + 1 <=? targetPort + 0) with false
      by (symmetry; apply Z.leb_gt; lia).
    reflexivity.
Qed.

Lemma C10_abort_witness :
  exists w',
    TestForOpenPort cancelled_env 1 1081 9 sample_stop World0
    = Some (true, 1081, w')
    /\ probes_of (trace w') = [(1081, ERROR_OPERATION_ABORTED)].
Proof.
  destruct (C10_abort_is_taken_for_a_free_port cancelled_env 0 1081 9
              sample_stop World0 eq_refl eq_refl) as [Habort _].
  destruct (Habort eq_refl eq_refl eq_refl) as (w' & Hprobe & Hrun).
  exists w'. split; [exact Hrun|].
  vm_compute in Hprobe. injection Hprobe as <-. reflexivity.
Defined.

(** C10 as stated fails: with the stop signal raised throughout and a
    listener on port 1080 that accepts at once, the probe of port 1080
    returns [ERROR_SUCCESS] and negotiation goes on to return port 1081. *)
Lemma C10_counterexample_listener_is_seen_first :
  ~ abort_reports_candidate_available.
Proof.
  intros H.
  destruct (H cancelled_env 0%nat 1080 10 sample_stop World0
              eq_refl ltac:(lia) eq_refl (fun _ => eq_refl)) as (w' & Hrun).
  vm_compute in Hrun. discriminate Hrun.
Qed.

Example negotiation_under_cancellation :
  option_map (fun r => (fst r, probes_of (trace (snd r))))
    (TestForOpenPort cancelled_env 1 1080 10 sample_stop World0)
  = Some ((true, 1081),
          [(1080, ERROR_SUCCESS); (1081, ERROR_OPERATION_ABORTED)]).
Proof. reflexivity. Qed.

(* ================================================================== *)
(** ** Cleanup *)

Lemma StopProcess_events E processID process w :
  exists evs,
    calls_between w (StopProcess E processID process w) evs
    /\ forallb is_stop_event evs = true
    /\ evs <> [].
Proof.
  unfold calls_between.
  cbv beta iota zeta delta [StopProcess AttachConsole TerminateProcess
    WaitForSingleObject].
  repeat (world_simpl; case_if).
  all: world_simpl; rewrite <- ?app_assoc; cbn [app].
  all: eexists; split; [reflexivity|]; split; [reflexivity | discriminate].
Qed.

(** [StopProcess] ends the process, or finds it ended, exactly when the
    process ends within 100 ms of the Ctrl-Break sent through its console,
    or [TerminateProcess] succeeds. *)
Lemma StopProcess_ends_process E processID process w evs :
  calls_between w (StopProcess E processID process w) evs ->
  existsb (ends_process process) evs
  = (attach_at E (n_attach w) && signalled_at E (n_signalled w))
    || terminate_at E (n_terminate w).
Proof.
  unfold calls_between.
  cbv beta iota zeta delta [StopProcess AttachConsole TerminateProcess
    WaitForSingleObject].
  repeat (world_simpl; case_if).
  all: world_simpl; rewrite <- ?app_assoc; cbn [app].
  all: intros H; apply app_inv_head in H; subst evs.
  all: cbn [existsb ends_process orb andb]; rewrite ?Z.eqb_refl.
  all: repeat match goal with
         | H : _ = true |- _ => rewrite H
         | H : _ = false |- _ => rewrite H
         end.
  all: reflexivity.
Qed.

Lemma Cleanup_events E this w :
  exists evs,
    calls_between w (snd (SSHTransportBase.Cleanup E this w)) (EvCleanup :: evs)
    /\ forallb is_stop_event evs = true
    /\ (SSHTransportBase.has_process_handle this = true ->
        exists evs',
          evs = (evs' ++ [EvCloseHandle (hProcess (m_plonkProcessInfo this))])%list
          /\ calls_between (emit EvCleanup w)
               (StopProcess E (dwProcessId (m_plonkProcessInfo this))
                  (hProcess (m_plonkProcessInfo this)) (emit EvCleanup w))
               evs'
          /\ evs' <> [])
    /\ (SSHTransportBase.has_process_handle this = false -> evs = []).
Proof.
  unfold SSHTransportBase.Cleanup, calls_between. cbn [snd].
  destruct (SSHTransportBase.has_process_handle this) eqn:Hh.
  - destruct (StopProcess_events E (dwProcessId (m_plonkProcessInfo this))
                (hProcess (m_plonkProcessInfo this)) (emit EvCleanup w))
      as (evs & Ht & Hs & Hne).
    unfold calls_between in Ht.
    exists (evs ++ [EvCloseHandle (hProcess (m_plonkProcessInfo this))])%list.
    split; [|split; [|split]].
    + rewrite trace_emit, Ht, trace_emit. rewrite <- !app_assoc. reflexivity.
    + rewrite forallb_app, Hs. reflexivity.
    + intros _. exists evs. split; [reflexivity|]. split; assumption.
    + discriminate.
  - exists []. split; [apply trace_emit|]. split; [reflexivity|].
    split; [discriminate | reflexivity].
Qed.

(** C9. [Cleanup] always returns true and leaves the stored process
    information zeroed, with no process handle, whatever it held before (no
    process, an invalid handle, the handle of a dead or of a live process)
    and whatever the system answers. With no process handle stored it makes
    no call to the outside. A second call right after the first therefore
    returns true, makes no call, and leaves the transport as the first call
    left it. *)
Theorem C9_cleanup_is_idempotent :
  forall (E : Env) (this : SSHTransportBase) (w : World),
    fst (fst (SSHTransportBase.Cleanup E this w)) = true
    /\ m_plonkProcessInfo (snd (fst (SSHTransportBase.Cleanup E this w)))
       = ZeroMemory_PROCESS_INFORMATION
    /\ SSHTransportBase.has_process_handle
         (snd (fst (SSHTransportBase.Cleanup E this w))) = false
    /\ (SSHTransportBase.has_process_handle this = false ->
        SSHTransportBase.Cleanup E this w
        = (true,
           SSHTransportBase.set_plonkProcessInfo this
             ZeroMemory_PROCESS_INFORMATION,
           emit EvCleanup w))
    /\ SSHTransportBase.Cleanup E
         (snd (fst (SSHTransportBase.Cleanup E this w)))
         (snd (SSHTransportBase.Cleanup E this w))
       = (true,
          snd (fst (SSHTransportBase.Cleanup E this w)),
          emit EvCleanup (snd (SSHTransportBase.Cleanup E this w))).
Proof.
  intros E this w.
  split; [reflexivity|]. split; [reflexivity|]. split; [reflexivity|].
  split.
  - intros Hh. unfold SSHTransportBase.Cleanup. now rewrite Hh.
  - reflexivity.
Qed.

Example cleanup_of_a_live_process :
  trace (snd (SSHTransportBase.Cleanup sample_env
                (SSHTransportBase.set_plonkProcessInfo sample_transport
                   {| hProcess := 44; hThread := 0;
                      dwProcessId := 7; dwThreadId := 8 |})
                World0))
  = [EvCleanup; EvAttachConsole 7 false; EvTerminateProcess 44 true;
     EvWaitForSingleObject 44 5000 false; EvCloseHandle 44].
Proof. reflexivity. Qed.

(* ================================================================== *)
(** ** The connection attempt *)

Lemma calls_between_refl (w : World) : calls_between w w [].
Proof. unfold calls_between. now rewrite app_nil_r. Qed.

Lemma calls_between_trans (w w1 w2 : World) (a b : list Event) :
  calls_between w w1 a -> calls_between w1 w2 b ->
  calls_between w w2 (a ++ b).
Proof.
  unfold calls_between. intros Ha Hb. now rewrite Hb, Ha, app_assoc.
Qed.

Lemma calls_between_emit (e : Event) (w : World) :
  calls_between w (emit e w) [e].
Proof. apply trace_emit. Qed.

Lemma no_launch_refl (w : World) : no_launch_between w w.
Proof. exists []. split; [apply calls_between_refl | reflexivity]. Qed.

Lemma no_launch_trans (w w1 w2 : World) :
  no_launch_between w w1 -> no_launch_between w1 w2 ->
  no_launch_between w w2.
Proof.
  intros (a & Ha & Hna) (b & Hb & Hnb). exists (a ++ b)%list.
  split; [now apply calls_between_trans with w1|].
  now rewrite existsb_app, Hna, Hnb.
Qed.

Lemma wait_events_no_launch (evs : list Event) :
  forallb is_wait_event evs = true -> existsb is_launch evs = false.
Proof.
  induction evs as [|e evs IH]; [reflexivity|].
  cbn [forallb existsb]. intros H. apply andb_prop in H as [He Hr].
  rewrite IH by exact Hr. destruct e; try discriminate He; reflexivity.
Qed.

Lemma stop_events_no_launch (evs : list Event) :
  forallb is_stop_event evs = true -> existsb is_launch evs = false.
Proof.
  induction evs as [|e evs IH]; [reflexivity|].
  cbn [forallb existsb]. intros H. apply andb_prop in H as [He Hr].
  rewrite IH by exact Hr. destruct e; try discriminate He; reflexivity.
Qed.

Lemma TestForOpenPort_loop_events E fuel stopInfo :
  forall (n : nat) (targetPort maxPort : Z) (w : World) ok port w',
    TestForOpenPort_loop E fuel n targetPort maxPort stopInfo w
      = Some (ok, port, w') ->
    exists evs,
      calls_between w w' evs /\ forallb is_wait_event evs = true.
Proof.
  induction n as [|n IH]; intros targetPort maxPort w ok port w' H;
    [discriminate|].
  cbn [TestForOpenPort_loop] in H.
  destruct ((0 <? targetPort) && (targetPort <=? 65535)).
  - destruct (WaitForConnectability E fuel targetPort 100 0 stopInfo w)
      as [[r w1]|] eqn:Hw; [|discriminate].
    apply WaitForConnectability_events in Hw as (evs & Ht & Hwait & _).
    destruct (negb (r =? ERROR_SUCCESS)).
    + injection H as <- <- <-. now exists evs.
    + destruct (INT (targetPort + 1) <=? maxPort).
      * apply IH in H as (evs' & Ht' & Hwait').
        exists (evs ++ evs')%list.
        split; [now apply calls_between_trans with w1|].
        now rewrite forallb_app, Hwait, Hwait'.
      * injection H as <- <- <-. now exists evs.
  - destruct (INT (targetPort + 1) <=? maxPort).
    + now apply IH in H.
    + injection H as <- <- <-. exists [].
      split; [apply calls_between_refl | reflexivity].
Qed.

Lemma TestForOpenPort_no_launch E fuel targetPort maxIncrement stopInfo
      w ok port w' :
  TestForOpenPort E fuel targetPort maxIncrement stopInfo w
    = Some (ok, port, w') ->
  no_launch_between w w'.
Proof.
  intros H. apply TestForOpenPort_loop_events in H as (evs & Ht & Hw).
  exists evs. split; [exact Ht | now apply wait_events_no_launch].
Qed.

Lemma Cleanup_no_launch E this w :
  no_launch_between w (snd (SSHTransportBase.Cleanup E this w)).
Proof.
  destruct (Cleanup_events E this w) as (evs & Ht & Hs & _).
  exists (EvCleanup :: evs). split; [exact Ht|].
  cbn [existsb is_launch orb]. now apply stop_events_no_launch.
Qed.

Lemma Cleanup_returns E this w :
  SSHTransportBase.Cleanup E this w
  = (true,
     SSHTransportBase.set_plonkProcessInfo this ZeroMemory_PROCESS_INFORMATION,
     snd (SSHTransportBase.Cleanup E this w)).
Proof. reflexivity. Qed.

Lemma ExtractExecutable_no_launch E w :
  no_launch_between w (snd (ExtractExecutable E w)).
Proof.
  eexists. split; [unfold calls_between; cbn; reflexivity | reflexivity].
Qed.

(** When the variant refuses to build the parameters, an attempt that comes
    to an end throws [TransportFailed] and has not called [CreateProcess]. *)
Lemma TransportConnectHelper_without_params (C : SSHTransportClass)
      E fuel this sessionInfo w :
  (forall this' port pw out,
      fst (@virtual_GetSSHParams C E this' sessionInfo port pw out)
      = false) ->
  forall c this1 w1,
    @SSHTransportBase.TransportConnectHelper C E fuel this sessionInfo w
      = Some (c, this1, w1) ->
    c = Thrown TransportFailed /\ no_launch_between w w1.
Proof.
  intros Hno c this1 w1. unfold SSHTransportBase.TransportConnectHelper.
  assert (Hx : exists ok thisx wx,
             (if nonempty (m_plonkPath this) then (true, this, w)
              else match ExtractExecutable E w with
                   | (Some path, w0) =>
                       (true, SSHTransportBase.set_plonkPath this path, w0)
                   | (None, w0) => (false, this, w0)
                   end) = (ok, thisx, wx)
             /\ no_launch_between w wx).
  { destruct (nonempty (m_plonkPath this)).
    - exists true, this, w. split; [reflexivity | apply no_launch_refl].
    - pose proof (ExtractExecutable_no_launch E w) as Hq.
      destruct (ExtractExecutable E w) as [[path|] w0]; cbn [snd] in Hq;
        do 3 eexists; (split; [reflexivity | exact Hq]). }
  destruct Hx as (ok & thisx & wx & -> & Hq1).
  destruct ok; [|intros [= <- <- <-]; now split].
  rewrite Cleanup_returns.
  pose proof (Cleanup_no_launch E thisx wx) as Hq2.
  set (wc := snd (SSHTransportBase.Cleanup E thisx wx)) in *.
  cbv beta iota zeta.
  destruct (TestForOpenPort E fuel _ 10 _ wc)
    as [[[ok port] wt]|] eqn:Ht; [|discriminate].
  apply TestForOpenPort_no_launch in Ht.
  assert (Hq3 : no_launch_between w wt)
    by (eapply no_launch_trans; [|exact Ht];
        eapply no_launch_trans; eassumption).
  destruct ok; [|intros [= <- <- <-]; now split].
  match goal with
  | |- context [@virtual_GetSSHParams C E ?t sessionInfo ?p ?pw ?o] =>
      pose proof (Hno t p pw o) as Hf;
      destruct (@virtual_GetSSHParams C E t sessionInfo p pw o)
        as [b params]
  end.
  cbn [fst] in Hf. subst b.
  intros [= <- <- <-]. now split.
Qed.

Lemma OSSH_params_refused E this sessionInfo port pw out :
  GetSSHObfuscatedPort sessionInfo <= 0
  \/ GetSSHObfuscatedKey sessionInfo = EmptyString ->
  OSSHTransport.GetSSHParams E this sessionInfo port pw out = (false, out).
Proof.
  intros H. unfold OSSHTransport.GetSSHParams. destruct H as [H | H].
  - apply Z.leb_le in H. now rewrite H.
  - rewrite H. cbn [nonempty negb]. now rewrite orb_true_r.
Qed.

Lemma calls_exist_trans (w w1 w2 : World) :
  (exists a, calls_between w w1 a) -> (exists b, calls_between w1 w2 b) ->
  exists evs, calls_between w w2 evs.
Proof.
  intros (a & Ha) (b & Hb). exists (a ++ b)%list.
  now apply calls_between_trans with w1.
Qed.

Lemma no_launch_calls (w w' : World) :
  no_launch_between w w' -> exists evs, calls_between w w' evs.
Proof. intros (evs & H & _). now exists evs. Qed.

Lemma LaunchPlonk_calls E this commandLine w :
  exists evs,
    calls_between w (snd (SSHTransportBase.LaunchPlonk E this commandLine w))
      evs.
Proof.
  unfold SSHTransportBase.LaunchPlonk, CreateProcess, calls_between.
  destruct (create_at E (n_create w)) as [pi|]; cbn [snd is_some].
  - eexists. rewrite !trace_emit. world_simpl.
    rewrite <- !app_assoc. reflexivity.
  - eexists. rewrite trace_emit. world_simpl. reflexivity.
Qed.

(** Whatever an attempt that comes to an end has done, it has done by calls
    that follow those made before it. *)
Lemma TransportConnectHelper_calls (C : SSHTransportClass)
      E fuel this sessionInfo w c this1 w1 :
  @SSHTransportBase.TransportConnectHelper C E fuel this sessionInfo w
    = Some (c, this1, w1) ->
  exists evs, calls_between w w1 evs.
Proof.
  unfold SSHTransportBase.TransportConnectHelper.
  assert (Hx : exists ok thisx wx,
             (if nonempty (m_plonkPath this) then (true, this, w)
              else match ExtractExecutable E w with
                   | (Some path, w0) =>
                       (true, SSHTransportBase.set_plonkPath this path, w0)
                   | (None, w0) => (false, this, w0)
                   end) = (ok, thisx, wx)
             /\ exists evs, calls_between w wx evs).
  { destruct (nonempty (m_plonkPath this)).
    - exists true, this, w. split; [reflexivity|].
      exists []. apply calls_between_refl.
    - pose proof (no_launch_calls _ _ (ExtractExecutable_no_launch E w)) as Hq.
      destruct (ExtractExecutable E w) as [[path|] w0]; cbn [snd] in Hq;
        do 3 eexists; (split; [reflexivity | exact Hq]). }
  destruct Hx as (ok & thisx & wx & -> & Hq1).
  destruct ok; [|intros [= <- <- <-]; exact Hq1].
  rewrite Cleanup_returns.
  pose proof (no_launch_calls _ _ (Cleanup_no_launch E thisx wx)) as Hq2.
  set (wc := snd (SSHTransportBase.Cleanup E thisx wx)) in *.
  cbv beta iota zeta.
  destruct (TestForOpenPort E fuel _ 10 _ wc)
    as [[[ok port] wt]|] eqn:Ht; [|discriminate].
  apply TestForOpenPort_no_launch, no_launch_calls in Ht.
  assert (Hq3 : exists evs, calls_between w wt evs)
    by (eapply calls_exist_trans; [|exact Ht];
        eapply calls_exist_trans; eassumption).
  destruct ok; [|intros [= <- <- <-]; exact Hq3].
  destruct (virtual_GetSSHParams E _ sessionInfo _ _ _) as [[|] params];
    [|intros [= <- <- <-]; exact Hq3].
  match goal with
  | |- context [SSHTransportBase.LaunchPlonk E ?t ?cl ?w0] =>
      pose proof (LaunchPlonk_calls E t cl w0) as Hl;
      destruct (SSHTransportBase.LaunchPlonk E t cl w0)
        as [[launched thisl] wl]
  end.
  cbn [snd] in Hl.
  assert (Hq4 : exists evs, calls_between w wl evs).
  { eapply calls_exist_trans; [|exact Hl].
    eapply calls_exist_trans; [exact Hq3|].
    eexists. apply calls_between_emit. }
  destruct launched; [|intros [= <- <- <-]; exact Hq4].
  destruct (WaitForConnectability E fuel _ _ _ _ wl)
    as [[connected ww]|] eqn:Hw; [|discriminate].
  apply WaitForConnectability_events in Hw as (evs & Hw & _).
  assert (Hq5 : exists evs, calls_between w ww evs)
    by (eapply calls_exist_trans; [exact Hq4 | now exists evs]).
  repeat case_if; intros [= <- <- <-]; try exact Hq5.
  eapply calls_exist_trans; [exact Hq5|].
  eexists. apply calls_between_emit.
Qed.

Lemma TransportConnect_thrown (C : SSHTransportClass)
      E fuel this sessionInfo w e this' w' :
  SSHTransportBase.IsServerSSHCapable sessionInfo = true ->
  @SSHTransportBase.TransportConnect C E fuel this sessionInfo w
    = Some (Thrown e, this', w') ->
  exists this1 w1,
    @SSHTransportBase.TransportConnectHelper C E fuel this sessionInfo w
      = Some (Thrown e, this1, w1)
    /\ this' = SSHTransportBase.set_plonkProcessInfo this1
                 ZeroMemory_PROCESS_INFORMATION
    /\ w' = snd (SSHTransportBase.Cleanup E this1 w1).
Proof.
  intros Hcap. unfold SSHTransportBase.TransportConnect. rewrite Hcap.
  cbn [negb].
  destruct (SSHTransportBase.TransportConnectHelper E fuel this sessionInfo w)
    as [[[[[]|e1] this1] w1]|]; try discriminate.
  rewrite Cleanup_returns. intros [= <- <- <-].
  exists this1, w1. repeat split.
Qed.

Lemma TestForOpenPort_returns E fuel targetPort maxIncrement stopInfo w :
  INT_MIN <= targetPort ->
  0 <= maxIncrement ->
  targetPort + maxIncrement < INT_MAX ->
  probes_return E fuel stopInfo ->
  exists ok port w',
    TestForOpenPort E fuel targetPort maxIncrement stopInfo w
    = Some (ok, port, w').
Proof.
  intros Hlo Hinc Hhi Hret. unfold TestForOpenPort.
  rewrite (INT_small (targetPort + maxIncrement))
    by (unfold INT_MAX in *; lia).
  rewrite TestForOpenPort_passes_within_int by lia.
  destruct (TestForOpenPort_loop_spec E fuel stopInfo Hret
              (Z.to_nat (targetPort + maxIncrement - targetPort))
              targetPort (targetPort + maxIncrement) w ltac:(lia) Hlo Hhi)
    as (ok & port & w' & _ & Hrun & _).
  now exists ok, port, w'.
Qed.

(** When the variant refuses to build the parameters and every probe of
    port negotiation comes back, the attempt comes to an end. *)
Lemma TransportConnectHelper_without_params_returns (C : SSHTransportClass)
      E fuel this sessionInfo w :
  (forall this' port pw out,
      fst (@virtual_GetSSHParams C E this' sessionInfo port pw out)
      = false) ->
  probes_return E fuel (m_stopInfo this) ->
  exists c this1 w1,
    @SSHTransportBase.TransportConnectHelper C E fuel this sessionInfo w
    = Some (c, this1, w1).
Proof.
  intros Hno Hret. unfold SSHTransportBase.TransportConnectHelper.
  assert (Hx : exists ok thisx wx,
             (if nonempty (m_plonkPath this) then (true, this, w)
              else match ExtractExecutable E w with
                   | (Some path, w0) =>
                       (true, SSHTransportBase.set_plonkPath this path, w0)
                   | (None, w0) => (false, this, w0)
                   end) = (ok, thisx, wx)
             /\ m_stopInfo thisx = m_stopInfo this).
  { destruct (nonempty (m_plonkPath this)).
    - now exists true, this, w.
    - destruct (ExtractExecutable E w) as [[path|] w0];
        do 3 eexists; (split; reflexivity). }
  destruct Hx as (ok & thisx & wx & -> & Hstop).
  destruct ok; [|now do 3 eexists].
  rewrite Cleanup_returns.
  set (wc := snd (SSHTransportBase.Cleanup E thisx wx)).
  cbv beta iota zeta.
  cbn [m_stopInfo m_localSocksProxyPort
       SSHTransportBase.set_localSocksProxyPort
       SSHTransportBase.set_plonkProcessInfo].
  rewrite Hstop.
  destruct (TestForOpenPort_returns E fuel DEFAULT_PLONK_SOCKS_PROXY_PORT 10
              (m_stopInfo this) wc
              ltac:(unfold INT_MIN, DEFAULT_PLONK_SOCKS_PROXY_PORT; lia)
              ltac:(lia)
              ltac:(unfold INT_MAX, DEFAULT_PLONK_SOCKS_PROXY_PORT; lia)
              Hret)
    as (ok & port & wt & ->).
  destruct ok; [|now do 3 eexists].
  match goal with
  | |- context [@virtual_GetSSHParams C E ?t sessionInfo ?p ?pw ?o] =>
      pose proof (Hno t p pw o) as Hf;
      destruct (@virtual_GetSSHParams C E t sessionInfo p pw o)
        as [b params]
  end.
  cbn [fst] in Hf. subst b. now do 3 eexists.
Qed.

(** C3. When the obfuscated port is not positive or the obfuscation key is
    empty, [OSSHTransport::GetSSHParams] returns false at once, leaving the
    references it was given untouched, whatever the other fields of the
    descriptor hold. Every connection attempt of the obfuscated variant on
    such a descriptor that comes to an end throws [TransportFailed] without
    having called [CreateProcess]; and it does come to an end when the probes
    of port negotiation come back. *)
Theorem C3_obfuscated_params_fail_fast :
  forall (E : Env) (this : SSHTransportBase) (sessionInfo : SessionInfo)
         (localSocksProxyPort : Z) (sshPassword : string) (out : SSHParams),
    GetSSHObfuscatedPort sessionInfo <= 0
    \/ GetSSHObfuscatedKey sessionInfo = EmptyString ->
    OSSHTransport.GetSSHParams E this sessionInfo localSocksProxyPort
      sshPassword out = (false, out)
    /\ (forall (fuel : nat) (this0 : SSHTransportBase) (w : World)
               (c : Completion unit) (this' : SSHTransportBase) (w' : World),
          @SSHTransportBase.TransportConnect OSSHTransport.class E fuel this0
            sessionInfo w = Some (c, this', w') ->
          c = Thrown TransportFailed /\ no_launch_between w w')
    /\ (forall (fuel : nat) (this0 : SSHTransportBase) (w : World),
          probes_return E fuel (m_stopInfo this0) ->
          exists this' w',
            @SSHTransportBase.TransportConnect OSSHTransport.class E fuel
              this0 sessionInfo w
            = Some (Thrown TransportFailed, this', w')).
Proof.
  intros E this sessionInfo port pw out H.
  assert (Hno : forall t p q o,
             fst (@virtual_GetSSHParams OSSHTransport.class E t sessionInfo
                    p q o) = false).
  { intros t p q o.
    change (@virtual_GetSSHParams OSSHTransport.class)
      with OSSHTransport.GetSSHParams.
    now rewrite OSSH_params_refused. }
  assert (Hend : forall fuel this0 w c this' w',
             @SSHTransportBase.TransportConnect OSSHTransport.class E fuel
               this0 sessionInfo w = Some (c, this', w') ->
             c = Thrown TransportFailed /\ no_launch_between w w').
  { intros fuel this0 w c this' w'.
    unfold SSHTransportBase.TransportConnect.
    destruct (negb (SSHTransportBase.IsServerSSHCapable sessionInfo)).
    { intros [= <- <- <-]. split; [reflexivity | apply no_launch_refl]. }
    destruct (SSHTransportBase.TransportConnectHelper E fuel this0
                sessionInfo w) as [[[c1 this1] w1]|] eqn:Hh; [|discriminate].
    apply (TransportConnectHelper_without_params OSSHTransport.class) in Hh
      as [-> Hq]; [|exact Hno].
    rewrite Cleanup_returns. intros [= <- <- <-].
    split; [reflexivity|].
    eapply no_launch_trans; [exact Hq | apply Cleanup_no_launch]. }
  split; [now apply OSSH_params_refused|]. split; [exact Hend|].
  intros fuel this0 w Hret.
  assert (Hsome : exists r,
             @SSHTransportBase.TransportConnect OSSHTransport.class E fuel
               this0 sessionInfo w = Some r).
  { unfold SSHTransportBase.TransportConnect.
    destruct (negb (SSHTransportBase.IsServerSSHCapable sessionInfo));
      [now eexists|].
    destruct (TransportConnectHelper_without_params_returns
                OSSHTransport.class E fuel this0 sessionInfo w Hno Hret)
      as (c & this1 & w1 & ->).
    destruct c as [[]|e]; [now eexists|].
    rewrite Cleanup_returns. now eexists. }
  destruct Hsome as ([[c this'] w'] & Hrun).
  destruct (Hend _ _ _ _ _ _ Hrun) as [-> _].
  now exists this', w'.
Qed.

Lemma C3_obfuscated_params_witness :
  SSHTransport.IsHandshakeRequired (with_obfuscated_key sample_session "")
    = false
  /\ OSSHTransport.GetSSHParams sample_env sample_transport
       (with_obfuscated_key sample_session "") 1080 "CSp"
       SSHTransportBase.no_params
     = (false, SSHTransportBase.no_params).
Proof.
  split; [reflexivity|].
  apply (C3_obfuscated_params_fail_fast sample_env sample_transport
           (with_obfuscated_key sample_session "") 1080 "CSp"
           SSHTransportBase.no_params).
  right. reflexivity.
Defined.

Example obfuscated_attempt_without_key :
  option_map (fun r => (fst (fst r), existsb is_launch (trace (snd r))))
    (@SSHTransportBase.TransportConnect OSSHTransport.class connecting_env 2
       sample_transport (with_obfuscated_key sample_session "") World0)
  = Some (Thrown TransportFailed, false).
Proof. vm_compute. reflexivity. Qed.

Example obfuscated_attempt_with_key :
  option_map
    (fun r => (fst (fst r),
               existsb
                 (fun e =>
                    match e with
                    | EvCreateProcess _ commandLine _ =>
                        String.eqb commandLine
                          "plonk.exe -ssh -C -N -batch -P 8080 -l u -pw CSp -D 1080 -z -Z k 203.0.113.5"
                    | _ => false
                    end)
                 (trace (snd r))))
    (@SSHTransportBase.TransportConnect OSSHTransport.class connecting_env 2
       sample_transport sample_session World0)
  = Some (Returned tt, true).
Proof. vm_compute. reflexivity. Qed.

(** C7 (amended). At its first step [TransportConnect] checks one thing,
    that the descriptor carries an SSH host key: for every descriptor
    without one it throws [TransportFailed] at that step, the transport and
    the world untouched (before Cleanup, port negotiation and process
    launch). It does not consult [IsHandshakeRequired]: the attempt is the
    same whatever that member of the variant answers. *)
Theorem C7_first_step_checks_the_host_key :
  forall (C : SSHTransportClass) (E : Env) (fuel : nat)
         (this : SSHTransportBase) (sessionInfo : SessionInfo) (w : World),
    (GetSSHHostKey sessionInfo = EmptyString ->
     @SSHTransportBase.TransportConnect C E fuel this sessionInfo w
     = Some (Thrown TransportFailed, this, w))
    /\ (forall required : SessionInfo -> bool,
           @SSHTransportBase.TransportConnect
             (Build_SSHTransportClass
                (@virtual_GetTransportProtocolName C)
                (@virtual_GetTransportDisplayName C)
                required
                (@virtual_GetSSHParams C))
             E fuel this sessionInfo w
           = @SSHTransportBase.TransportConnect C E fuel this sessionInfo w).
Proof.
  intros C E fuel this sessionInfo w. split.
  - intros Hkey. unfold SSHTransportBase.TransportConnect,
      SSHTransportBase.IsServerSSHCapable.
    now rewrite Hkey.
  - intros required. reflexivity.
Qed.

Lemma C7_first_step_witness :
  @SSHTransportBase.TransportConnect OSSHTransport.class sample_env 2
    sample_transport (with_host_key sample_session "") World0
  = Some (Thrown TransportFailed, sample_transport, World0).
Proof.
  exact (proj1 (C7_first_step_checks_the_host_key OSSHTransport.class
                  sample_env 2 sample_transport
                  (with_host_key sample_session "") World0) eq_refl).
Defined.

(** C7 as stated fails: a descriptor of the plain variant without a user
    name, for which a handshake is required, is not refused at the first
    step; the attempt launches the subordinate process and returns. *)
Lemma C7_counterexample_missing_username_is_launched :
  ~ first_step_checks_required_fields.
Proof.
  intros H.
  specialize (H SSHTransport.class connecting_env 2%nat sample_transport
                (with_username sample_session "") World0 eq_refl).
  vm_compute in H. discriminate H.
Qed.

Example attempt_without_username :
  option_map (fun r => (fst (fst r), existsb is_launch (trace (snd r))))
    (@SSHTransportBase.TransportConnect SSHTransport.class connecting_env 2
       sample_transport (with_username sample_session "") World0)
  = Some (Returned tt, true).
Proof. vm_compute. reflexivity. Qed.

(** C8 (amended). Whenever a connection attempt on a descriptor that
    carries a host key ends in failure or abort (any exception out of
    [TransportConnectHelper], also one thrown after the subordinate process
    was launched, such as a timeout or a cancellation of the wait), Cleanup
    is called before control returns: its calls are the last of the
    attempt, it is handed the process information held when the exception
    was thrown, and it leaves the process information zeroed. With no
    process handle held it makes no call; with one, it calls [StopProcess]
    on that process and then closes the handle, without looking at what
    [StopProcess] achieved: the process is ended, or found ended, by these
    calls exactly when it ends within 100 ms of the Ctrl-Break sent through
    its console or [TerminateProcess] succeeds, and is otherwise left
    running with its handle closed. (An attempt refused for a missing host
    key throws without calling Cleanup.) *)
Theorem C8_failure_after_the_first_step_runs_cleanup :
  forall (C : SSHTransportClass) (E : Env) (fuel : nat)
         (this : SSHTransportBase) (sessionInfo : SessionInfo) (w : World)
         (e : Exception) (this' : SSHTransportBase) (w' : World),
    SSHTransportBase.IsServerSSHCapable sessionInfo = true ->
    @SSHTransportBase.TransportConnect C E fuel this sessionInfo w
      = Some (Thrown e, this', w') ->
    m_plonkProcessInfo this' = ZeroMemory_PROCESS_INFORMATION
    /\ exists this1 w1 before after,
         @SSHTransportBase.TransportConnectHelper C E fuel this sessionInfo w
           = Some (Thrown e, this1, w1)
         /\ calls_between w w1 before
         /\ calls_between w1 w' (EvCleanup :: after)
         /\ forallb is_stop_event after = true
         /\ (SSHTransportBase.has_process_handle this1 = false -> after = [])
         /\ (SSHTransportBase.has_process_handle this1 = true ->
             exists stopping,
               after
               = (stopping
                    ++ [EvCloseHandle (hProcess (m_plonkProcessInfo this1))])%list
               /\ calls_between (emit EvCleanup w1)
                    (StopProcess E (dwProcessId (m_plonkProcessInfo this1))
                       (hProcess (m_plonkProcessInfo this1))
                       (emit EvCleanup w1))
                    stopping
               /\ stopping <> []
               /\ existsb (ends_process (hProcess (m_plonkProcessInfo this1)))
                    stopping
                  = (attach_at E (n_attach w1)
                     && signalled_at E (n_signalled w1))
                    || terminate_at E (n_terminate w1)).
Proof.
  intros C E fuel this sessionInfo w e this' w' Hcap Hrun.
  apply TransportConnect_thrown in Hrun as (this1 & w1 & Hh & -> & ->);
    [|exact Hcap].
  split; [reflexivity|].
  destruct (TransportConnectHelper_calls C E fuel this sessionInfo w _ _ _ Hh)
    as (before & Hb).
  destruct (Cleanup_events E this1 w1) as (after & Ha & Hs & Hhandle & Hnone).
  exists this1, w1, before, after.
  split; [exact Hh|]. split; [exact Hb|]. split; [exact Ha|].
  split; [exact Hs|]. split; [exact Hnone|].
  intros Hheld. destruct (Hhandle Hheld) as (stopping & Hafter & Hstop & Hne).
  exists stopping. split; [exact Hafter|]. split; [exact Hstop|].
  split; [exact Hne|].
  exact (StopProcess_ends_process E _ _ (emit EvCleanup w1) stopping Hstop).
Qed.

Lemma C8_cleanup_witness :
  exists this' w' after,
    @SSHTransportBase.TransportConnect SSHTransport.class dying_env 2
      sample_transport sample_session World0
    = Some (Thrown TransportFailed, this', w')
    /\ m_plonkProcessInfo this' = ZeroMemory_PROCESS_INFORMATION
    /\ (exists w1, calls_between w1 w' (EvCleanup :: after))
    /\ forallb is_stop_event after = true.
Proof.
  assert (Hrun : exists this' w',
             @SSHTransportBase.TransportConnect SSHTransport.class dying_env 2
               sample_transport sample_session World0
             = Some (Thrown TransportFailed, this', w')).
  { vm_compute. do 2 eexists. reflexivity. }
  destruct Hrun as (this' & w' & Hrun).
  destruct (C8_failure_after_the_first_step_runs_cleanup
              SSHTransport.class dying_env 2 sample_transport
              sample_session World0 TransportFailed this' w'
              eq_refl Hrun)
    as (Hzero & this1 & w1 & before & after & _ & _ & Hafter & Hstop & _).
  exists this', w', after.
  split; [exact Hrun|]. split; [exact Hzero|].
  split; [now exists w1 | exact Hstop].
Defined.

Example failure_after_launch_is_cleaned_up :
  option_map (fun r => (fst (fst r), trace (snd r)))
    (@SSHTransportBase.TransportConnect SSHTransport.class dying_env 2
       sample_transport sample_session World0)
  = Some
      (Thrown TransportFailed,
       [EvCleanup;
        EvGetTickCount 0; EvGetTickCount 50; EvConnect 1080 false;
        EvCheckSignal 1 false; EvGetTickCount 100;
        EvWaitForConnectability 1080 100 258;
        EvSetPlonkSSHHostKey "203.0.113.5" 8080 "AAAAB3NzaC1yc2E=";
        EvCreateProcess "plonk.exe"
          "plonk.exe -ssh -C -N -batch -P 8080 -l u -pw CSp -D 1080 203.0.113.5"
          true;
        EvCloseHandle 48; EvWaitForInputIdle 44;
        EvGetTickCount 150; EvGetTickCount 200; EvConnect 1080 false;
        EvWaitForSingleObject 44 0 true;
        EvWaitForConnectability 1080 20000 591;
        EvCleanup; EvAttachConsole 7 false; EvTerminateProcess 44 true;
        EvWaitForSingleObject 44 5000 true; EvCloseHandle 44]).
Proof. vm_compute. reflexivity. Qed.

Example a_successful_attempt_keeps_the_process :
  option_map (fun r => fst r)
    (@SSHTransportBase.TransportConnect SSHTransport.class connecting_env 2
       sample_transport sample_session World0)
  = Some (Returned tt, connected_transport).
Proof. vm_compute. reflexivity. Qed.

(** C8 as stated fails. An attempt on a descriptor without a host key,
    made on a transport that still holds the process of an earlier
    successful attempt, throws [TransportFailed] without any call, Cleanup
    included, and the process handle stays. And an attempt that is aborted
    after the launch, when neither [AttachConsole] nor [TerminateProcess]
    succeeds, runs Cleanup and yet leaves the process it launched alive: no
    call ended it or found it ended, and its handle is closed. *)
Lemma C8_counterexample_cleanup_skipped_or_process_left_alive :
  ~ cleanup_on_every_failure /\ ~ no_process_left_alive.
Proof.
  split.
  - intros H.
    destruct (H SSHTransport.class connecting_env 2%nat connected_transport
                (with_host_key sample_session "") World0
                TransportFailed connected_transport World0 eq_refl)
      as [_ Hhandle].
    vm_compute in Hhandle. discriminate Hhandle.
  - intros H.
    assert (Hrun : exists this' w',
               @SSHTransportBase.TransportConnect SSHTransport.class
                 stubborn_env 2 sample_transport sample_session World0
               = Some (Thrown Abort, this', w')
               /\ In (EvWaitForInputIdle 44) (trace w')
               /\ existsb (ends_process 44) (trace w') = false).
    { vm_compute. do 2 eexists. split; [reflexivity|].
      split; [|reflexivity]. tauto. }
    destruct Hrun as (this' & w' & Hrun & Hin & Hends).
    specialize (H SSHTransport.class stubborn_env 2%nat sample_transport
                  sample_session World0 Abort this' w' (trace w') 44 Hrun
                  eq_refl Hin).
    rewrite Hends in H. discriminate H.
Qed.

Example an_aborted_attempt_leaves_the_process_alive :
  option_map (fun r => (fst (fst r), m_plonkProcessInfo (snd (fst r)),
                        trace (snd r)))
    (@SSHTransportBase.TransportConnect SSHTransport.class stubborn_env 2
       sample_transport sample_session World0)
  = Some
      (Thrown Abort, ZeroMemory_PROCESS_INFORMATION,
       [EvCleanup;
        EvGetTickCount 0; EvGetTickCount 50; EvConnect 1080 false;
        EvCheckSignal 1 true;
        EvWaitForConnectability 1080 100 995;
        EvSetPlonkSSHHostKey "203.0.113.5" 8080 "AAAAB3NzaC1yc2E=";
        EvCreateProcess "plonk.exe"
          "plonk.exe -ssh -C -N -batch -P 8080 -l u -pw CSp -D 1080 203.0.113.5"
          true;
        EvCloseHandle 48; EvWaitForInputIdle 44;
        EvGetTickCount 100; EvGetTickCount 150; EvConnect 1080 false;
        EvWaitForSingleObject 44 0 false; EvCheckSignal 1 true;
        EvWaitForConnectability 1080 20000 995;
        EvCleanup; EvAttachConsole 7 false; EvTerminateProcess 44 false;
        EvCloseHandle 44]).
Proof. vm_compute. reflexivity. Qed.

(* ================================================================== *)
(** ** Hexadecimal and URL encoding *)

Ltac each_ascii c :=
  destruct c as [[|] [|] [|] [|] [|] [|] [|] [|]].

Lemma string_pair_ind (P : string -> Prop) :
  P EmptyString ->
  (forall x, P (String x EmptyString)) ->
  (forall x y rest, P rest -> P (String x (String y rest))) ->
  forall s, P s.
Proof.
  intros H0 H1 H2.
  fix IH 1.
  intros [|x [|y rest]]; [exact H0 | apply H1 | apply H2, IH].
Qed.

Lemma Dehexlify_pair_Hexlify c :
  Dehexlify_pair (lut_at (N.shiftr (N_of_ascii c) 4))
                 (lut_at (N.land (N_of_ascii c) 15)) = Ok c.
Proof. each_ascii c; vm_compute; reflexivity. Qed.

Lemma hex_digit_check x :
  Ascii.eqb (lut_at (lower_bound_lut (toupper x))) (toupper x) = is_hex_digit x.
Proof. each_ascii x; vm_compute; reflexivity. Qed.

Lemma odd_length_two x y rest :
  N.odd (N.of_nat (String.length (String x (String y rest))))
  = N.odd (N.of_nat (String.length rest)).
Proof.
  cbn [String.length].
  rewrite !Nat2N.inj_succ, N.odd_succ, N.even_succ. reflexivity.
Qed.

Lemma Dehexlify_loop_Hexlify s : Dehexlify_loop (Hexlify s) = Ok s.
Proof.
  induction s as [|c s IH]; [reflexivity|].
  cbn [Hexlify Dehexlify_loop].
  rewrite Dehexlify_pair_Hexlify, IH. reflexivity.
Qed.

Lemma Hexlify_length s : String.length (Hexlify s) = (2 * String.length s)%nat.
Proof. induction s as [|c s IH]; cbn [Hexlify String.length]; lia. Qed.

(** X1. [Dehexlify] inverts [Hexlify]: decoding the hexadecimal text of any
    byte string returns that byte string, and never throws. *)
Theorem Dehexlify_inverts_Hexlify s : Dehexlify (Hexlify s) = Ok s.
Proof.
  unfold Dehexlify. rewrite Hexlify_length.
  replace (N.odd (N.of_nat (2 * String.length s))) with false.
  - apply Dehexlify_loop_Hexlify.
  - symmetry. rewrite Nat2N.inj_mul. apply N.odd_even.
Qed.

Lemma Hexlify_digits s : string_forallb is_upper_hex_digit (Hexlify s) = true.
Proof.
  induction s as [|c s IH]; [reflexivity|].
  cbn [Hexlify string_forallb]. rewrite IH.
  each_ascii c; vm_compute; reflexivity.
Qed.

(** X2. [Hexlify] writes two characters for every byte, each of them one
    of [0123456789ABCDEF]. *)
Theorem Hexlify_writes_two_upper_hex_digits_per_byte s :
  String.length (Hexlify s) = (2 * String.length s)%nat
  /\ string_forallb is_upper_hex_digit (Hexlify s) = true.
Proof. split; [apply Hexlify_length | apply Hexlify_digits]. Qed.

Lemma Dehexlify_pair_cases x y :
  Dehexlify_pair x y =
    if is_hex_digit x && is_hex_digit y then
      Ok (ascii_of_N (N.lor (N.shiftl (lower_bound_lut (toupper x)) 4)
                            (lower_bound_lut (toupper y))))
    else invalid_argument "Dehexlify: not a hex digit".
Proof.
  unfold Dehexlify_pair. rewrite !hex_digit_check.
  destruct (is_hex_digit x), (is_hex_digit y); reflexivity.
Qed.

Lemma hex_digit_index x :
  is_hex_digit x = true ->
  lut_at (lower_bound_lut (toupper x)) = toupper x
  /\ (lower_bound_lut (toupper x) < 16)%N.
Proof.
  each_ascii x; intros H; vm_compute in H; try discriminate H;
    vm_compute; split; reflexivity.
Qed.

Lemma nibble_cases p :
  (p < 16)%N -> In p [0; 1; 2; 3; 4; 5; 6; 7; 8; 9; 10; 11; 12; 13; 14; 15]%N.
Proof.
  intros H. rewrite <- (N2Nat.id p).
  assert (Hn : (N.to_nat p < 16)%nat) by lia.
  revert Hn. generalize (N.to_nat p) as n. intros n Hn.
  do 16 (destruct n as [|n]; [cbn; tauto|]). lia.
Qed.

Lemma nibbles p q :
  (p < 16)%N -> (q < 16)%N ->
  N.shiftr (N_of_ascii (ascii_of_N (N.lor (N.shiftl p 4) q))) 4 = p
  /\ N.land (N_of_ascii (ascii_of_N (N.lor (N.shiftl p 4) q))) 15 = q.
Proof.
  intros Hp Hq. apply nibble_cases in Hp. apply nibble_cases in Hq.
  cbn [In] in Hp, Hq.
  repeat (destruct Hp as [<- | Hp]; [|]); try contradiction;
    repeat (destruct Hq as [<- | Hq]; [|]); try contradiction;
    vm_compute; split; reflexivity.
Qed.

Lemma N_odd_of_nat n : N.odd (N.of_nat n) = Nat.odd n.
Proof.
  induction n as [|n IH]; [reflexivity|].
  rewrite Nat2N.inj_succ, N.odd_succ, Nat.odd_succ.
  rewrite <- N.negb_odd, <- Nat.negb_odd, IH. reflexivity.
Qed.

Lemma Dehexlify_loop_outcome s :
  Nat.even (String.length s) = true ->
  match Dehexlify_loop s with
  | Ok output =>
      string_forallb is_hex_digit s = true
      /\ String.length s = (2 * String.length output)%nat
      /\ Hexlify output = string_map toupper s
  | invalid_argument what =>
      what = "Dehexlify: not a hex digit"
      /\ string_forallb is_hex_digit s = false
  end.
Proof.
  induction s as [| x | x y rest IH] using string_pair_ind.
  - intros _. cbn [Dehexlify_loop]. repeat split.
  - intros H. discriminate H.
  - change (Nat.even (String.length (String x (String y rest))))
      with (Nat.even (String.length rest)).
    intros Heven. specialize (IH Heven).
    cbn [Dehexlify_loop string_forallb]. rewrite Dehexlify_pair_cases.
    destruct (is_hex_digit x) eqn:Hx; [|split; reflexivity].
    destruct (is_hex_digit y) eqn:Hy; [|split; reflexivity].
    cbn [andb].
    destruct (Dehexlify_loop rest) as [output | what].
    + destruct IH as (Hall & Hlen & Hhex). rewrite Hall.
      split; [reflexivity|]. split; [cbn [String.length]; lia|].
      cbn [Hexlify string_map]. rewrite Hhex.
      destruct (hex_digit_index x Hx) as [Hpx Hp].
      destruct (hex_digit_index y Hy) as [Hqy Hq].
      destruct (nibbles _ _ Hp Hq) as [-> ->].
      rewrite Hpx, Hqy. reflexivity.
    + destruct IH as (-> & ->). split; reflexivity.
Qed.

(** X3. [Dehexlify] returns exactly on the inputs of even length made of
    hexadecimal digits of either case, with one byte for every two
    characters; on an input of odd length it throws "odd length", whatever
    the characters are, and on any other input "not a hex digit". *)
Theorem Dehexlify_accepts_exactly_the_hex_strings s :
  match Dehexlify s with
  | Ok output =>
      Nat.even (String.length s) = true
      /\ string_forallb is_hex_digit s = true
      /\ String.length s = (2 * String.length output)%nat
  | invalid_argument what =>
      if Nat.odd (String.length s) then what = "Dehexlify: odd length"
      else what = "Dehexlify: not a hex digit"
           /\ string_forallb is_hex_digit s = false
  end.
Proof.
  unfold Dehexlify. rewrite N_odd_of_nat.
  destruct (Nat.odd (String.length s)) eqn:Hodd; [reflexivity|].
  assert (Heven : Nat.even (String.length s) = true)
    by (rewrite <- Nat.negb_odd, Hodd; reflexivity).
  pose proof (Dehexlify_loop_outcome s Heven) as H.
  destruct (Dehexlify_loop s); [|exact H].
  destruct H as (? & ? & ?). auto.
Qed.

(** X4. When [Dehexlify] returns, [Hexlify] of its result is the input
    with its letters in upper case. *)
Theorem Hexlify_after_Dehexlify_is_the_upper_case_input s output :
  Dehexlify s = Ok output -> Hexlify output = string_map toupper s.
Proof.
  unfold Dehexlify. rewrite N_odd_of_nat.
  destruct (Nat.odd (String.length s)) eqn:Hodd; [discriminate|].
  assert (Heven : Nat.even (String.length s) = true)
    by (rewrite <- Nat.negb_odd, Hodd; reflexivity).
  pose proof (Dehexlify_loop_outcome s Heven) as H.
  intros Heq. rewrite Heq in H. apply H.
Qed.

Lemma Hexlify_after_Dehexlify_witness :
  Hexlify "Jo" = string_map toupper "4a6F".
Proof.
  apply (Hexlify_after_Dehexlify_is_the_upper_case_input "4a6F" "Jo").
  reflexivity.
Defined.

Lemma Hexlify_injective s t : Hexlify s = Hexlify t -> s = t.
Proof.
  intros H. apply (f_equal Dehexlify_loop) in H.
  rewrite !Dehexlify_loop_Hexlify in H. congruence.
Qed.

Lemma is_unreserved_below_256 (c : wchar_t) :
  is_unreserved c = true -> (c < 256)%N.
Proof.
  unfold is_unreserved. intros H.
  repeat (apply orb_prop in H as [H | H]);
    try (apply andb_prop in H as [_ H]; apply N.leb_le in H; lia);
    apply N.eqb_eq in H; lia.
Qed.

Lemma kept_below_256 beyond (c : wchar_t) :
  (c < 256)%N -> kept_by_UrlEncode beyond c = Some (is_unreserved c).
Proof.
  intros H. unfold kept_by_UrlEncode, isalnum, is_unreserved, widen_char.
  apply N.ltb_lt in H. rewrite H.
  destruct (((48 <=? c) && (c <=? 57)
             || (65 <=? c) && (c <=? 90)
             || (97 <=? c) && (c <=? 122))%N); reflexivity.
Qed.

Lemma kept_beyond_255 beyond (c : wchar_t) :
  (256 <= c)%N -> kept_by_UrlEncode beyond c = beyond c.
Proof.
  intros H. unfold kept_by_UrlEncode, isalnum, widen_char.
  replace (c <? 256)%N with false by (symmetry; apply N.ltb_ge; exact H).
  destruct (beyond c) as [[|]|]; try reflexivity.
  repeat match goal with
    | |- context [(c =? ?k)%N] =>
        replace (c =? k)%N with false
          by (symmetry; apply N.eqb_neq; cbn; lia)
    end.
  reflexivity.
Qed.

(** The test of [UrlEncode], said without the code: it holds of the
    unreserved characters, and of the characters above 255 for which
    [isalnum] happens to answer true. *)
Lemma kept_by_UrlEncode_true beyond (c : wchar_t) :
  kept_by_UrlEncode beyond c = Some true
  <-> is_unreserved c || ((256 <=? c)%N && answers beyond c true) = true.
Proof.
  destruct (N.lt_ge_cases c 256) as [H | H].
  - rewrite (kept_below_256 _ _ H).
    replace (256 <=? c)%N with false by (symmetry; apply N.leb_gt; exact H).
    rewrite orb_false_r. split; [now intros [= ->] | now intros ->].
  - rewrite (kept_beyond_255 _ _ H).
    replace (256 <=? c)%N with true by (symmetry; apply N.leb_le; exact H).
    destruct (is_unreserved c) eqn:Hu.
    + apply is_unreserved_below_256 in Hu. lia.
    + unfold answers. destruct (beyond c) as [[|]|]; cbn; split;
        intros H'; try reflexivity; discriminate H'.
Qed.

Lemma escape_digits (a : ascii) :
  setw_fill 2 "0" (print_hex_uppercase (N_of_ascii a))
  = Hexlify (String a EmptyString).
Proof. each_ascii a; vm_compute; reflexivity. Qed.

Lemma low_byte (c : wchar_t) :
  (c mod 256)%N = N_of_ascii (ascii_of_N (c mod 256)).
Proof.
  symmetry. apply N_ascii_embedding. apply N.mod_lt. discriminate.
Qed.

(** A character that is not kept is written as [%] and the two upper-case
    hexadecimal digits of its low byte. *)
Lemma UrlEncode_char_escape beyond (c : wchar_t) :
  kept_by_UrlEncode beyond c = Some false ->
  UrlEncode_char beyond c
  = Some (widen_char "%"
            :: widen (Hexlify (String (ascii_of_N (c mod 256)) EmptyString))).
Proof.
  intros H. unfold UrlEncode_char. rewrite H.
  rewrite (low_byte c) at 1. now rewrite escape_digits.
Qed.

Lemma UrlEncode_char_kept beyond (c : wchar_t) :
  kept_by_UrlEncode beyond c = Some true -> UrlEncode_char beyond c = Some [c].
Proof. unfold UrlEncode_char. intros ->. reflexivity. Qed.

Lemma UrlEncode_char_stops beyond (c : wchar_t) :
  kept_by_UrlEncode beyond c = None -> UrlEncode_char beyond c = None.
Proof. unfold UrlEncode_char. intros ->. reflexivity. Qed.

(** The three ways [UrlEncode] deals with a character. *)
Lemma UrlEncode_char_cases beyond (c : wchar_t) :
  (kept_by_UrlEncode beyond c = Some true
   /\ UrlEncode_char beyond c = Some [c])
  \/ (kept_by_UrlEncode beyond c = Some false
      /\ UrlEncode_char beyond c
         = Some (widen_char "%"
                   :: widen (Hexlify (String (ascii_of_N (c mod 256))
                                        EmptyString))))
  \/ (kept_by_UrlEncode beyond c = None
      /\ UrlEncode_char beyond c = None).
Proof.
  destruct (kept_by_UrlEncode beyond c) as [[|]|] eqn:H.
  - left. split; [reflexivity | now apply UrlEncode_char_kept].
  - right; left. split; [reflexivity | now apply UrlEncode_char_escape].
  - right; right. split; [reflexivity | now apply UrlEncode_char_stops].
Qed.

(** Characters that fit in a byte never stop [UrlEncode]. *)
Lemma UrlEncode_returns_below_256 beyond (s : list wchar_t) :
  below_256 s = true -> exists out, UrlEncode beyond s = Some out.
Proof.
  unfold below_256. induction s as [|c s IH]; [now exists []|].
  cbn [forallb UrlEncode]. intros [Hc Hs]%andb_true_iff.
  apply N.ltb_lt in Hc. destruct (IH Hs) as (out & ->).
  unfold UrlEncode_char. rewrite (kept_below_256 _ _ Hc).
  destruct (is_unreserved c); eexists; reflexivity.
Qed.



Lemma widen_char_injective (a b : ascii) : widen_char a = widen_char b -> a = b.
Proof.
  unfold widen_char. intros H. apply (f_equal ascii_of_N) in H.
  now rewrite !ascii_N_embedding in H.
Qed.



Lemma widen_injective (s t : string) : widen s = widen t -> s = t.
Proof.
  unfold widen. revert t. induction s as [|a s IH]; intros [|b t] H;
    try discriminate H; [reflexivity|].
  cbn [list_ascii_of_string map] in H. injection H as Hab H.
  apply widen_char_injective in Hab. subst b. f_equal. now apply IH.
Qed.

Lemma widen_Hexlify_injective (a b : ascii) :
  widen (Hexlify (String a EmptyString))
  = widen (Hexlify (String b EmptyString)) -> a = b.
Proof.
  intros H. apply widen_injective, Hexlify_injective in H.
  now injection H.
Qed.

Lemma percent_is_escaped beyond :
  kept_by_UrlEncode beyond (widen_char "%") = Some false.
Proof. reflexivity. Qed.

(** What [UrlEncode] returns for a string with a first character. *)
Lemma UrlEncode_cons beyond (c : wchar_t) (s out : list wchar_t) :
  UrlEncode beyond (c :: s) = Some out ->
  exists escaped rest,
    UrlEncode_char beyond c = Some escaped
    /\ UrlEncode beyond s = Some rest
    /\ out = (escaped ++ rest)%list.
Proof.
  cbn [UrlEncode]. destruct (UrlEncode_char beyond c) as [escaped|];
    [|discriminate].
  destruct (UrlEncode beyond s) as [rest|]; [|discriminate].
  intros [= <-]. now exists escaped, rest.
Qed.

Lemma UrlEncode_injective_below_256 beyond (s t out : list wchar_t) :
  below_256 s = true -> below_256 t = true ->
  UrlEncode beyond s = Some out -> UrlEncode beyond t = Some out -> s = t.
Proof.
  unfold below_256. revert t out.
  induction s as [|c s IH]; intros [|d t] out Hs Ht Hso Hto.
  - reflexivity.
  - injection Hso as <-.
    apply UrlEncode_cons in Hto as (e & r & He & _ & Hout).
    destruct (UrlEncode_char_cases beyond d) as [[_ H] | [[_ H] | [_ H]]];
      rewrite H in He; [| |discriminate He]; injection He as <-;
      discriminate Hout.
  - injection Hto as <-.
    apply UrlEncode_cons in Hso as (e & r & He & _ & Hout).
    destruct (UrlEncode_char_cases beyond c) as [[_ H] | [[_ H] | [_ H]]];
      rewrite H in He; [| |discriminate He]; injection He as <-;
      discriminate Hout.
  - cbn [forallb] in Hs, Ht.
    apply andb_prop in Hs as [Hc256 Hs]. apply andb_prop in Ht as [Hd256 Ht].
    apply N.ltb_lt in Hc256, Hd256.
    apply UrlEncode_cons in Hso as (ec & rc & Hec & Hrc & Hout).
    apply UrlEncode_cons in Hto as (ed & rd & Hed & Hrd & Hout').
    rewrite Hout in Hout'. clear Hout.
    destruct (UrlEncode_char_cases beyond c)
      as [[Hc H] | [[Hc H] | [_ H]]];
      rewrite H in Hec; [| |discriminate Hec]; injection Hec as <-;
    (destruct (UrlEncode_char_cases beyond d)
      as [[Hd H'] | [[Hd H'] | [_ H']]];
      rewrite H' in Hed; [| |discriminate Hed]; injection Hed as <-);
    cbn [app] in Hout'.
    + injection Hout' as -> Hr. f_equal.
      apply (IH t rd Hs Ht); [now rewrite Hrc, Hr | exact Hrd].
    + injection Hout' as -> _. rewrite percent_is_escaped in Hc.
      discriminate Hc.
    + injection Hout' as <- _. rewrite percent_is_escaped in Hd.
      discriminate Hd.
    + injection Hout' as Hh Hl Hr.
      assert (Hcd : ascii_of_N (c mod 256) = ascii_of_N (d mod 256)).
      { apply widen_Hexlify_injective. unfold widen.
        cbn [Hexlify list_ascii_of_string map].
        f_equal; [exact Hh | f_equal; exact Hl]. }
      apply (f_equal N_of_ascii) in Hcd.
      rewrite <- !low_byte, !N.mod_small in Hcd by assumption.
      subst d. f_equal.
      apply (IH t rd Hs Ht); [now rewrite Hrc, Hr | exact Hrd].
Qed.

(** X6. On inputs whose characters all fit in a byte, [UrlEncode] returns
    and loses nothing: two different inputs have different encodings. *)
Theorem UrlEncode_is_injective_below_256 beyond (s t : list wchar_t) :
  below_256 s = true -> below_256 t = true -> s <> t ->
  exists a b,
    UrlEncode beyond s = Some a /\ UrlEncode beyond t = Some b /\ a <> b.
Proof.
  intros Hs Ht Hne.
  destruct (UrlEncode_returns_below_256 beyond s Hs) as (a & Ha).
  destruct (UrlEncode_returns_below_256 beyond t Ht) as (b & Hb).
  exists a, b. split; [exact Ha|]. split; [exact Hb|].
  intros Hab. subst b. apply Hne.
  now apply (UrlEncode_injective_below_256 beyond s t a).
Qed.

Lemma UrlEncode_is_injective_witness :
  exists a b,
    UrlEncode never_alnum (widen "a b") = Some a
    /\ UrlEncode never_alnum (widen "a+b") = Some b
    /\ a <> b.
Proof.
  apply (UrlEncode_is_injective_below_256 never_alnum
           (widen "a b") (widen "a+b")); [reflexivity | reflexivity|].
  vm_compute. discriminate.
Defined.

Lemma UrlEncode_length_ge beyond (s out : list wchar_t) :
  UrlEncode beyond s = Some out -> (List.length s <= List.length out)%nat.
Proof.
  revert out. induction s as [|c s IH]; intros out H.
  - injection H as <-. reflexivity.
  - apply UrlEncode_cons in H as (e & r & He & Hr & ->).
    specialize (IH r Hr). rewrite length_app.
    destruct (UrlEncode_char_cases beyond c) as [[_ H] | [[_ H] | [_ H]]];
      rewrite H in He; [| |discriminate He]; injection He as <-;
      cbn [List.length]; lia.
Qed.

(** X7. [UrlEncode] returns its input unchanged exactly when every
    character of the input is a letter, a digit, [-], [_], [.] or [~], or
    a character above 255 for which [isalnum] answers true. *)
Theorem UrlEncode_is_the_identity_on_unreserved_strings_only beyond
    (s : list wchar_t) :
  UrlEncode beyond s = Some s
  <-> forallb (fun c => is_unreserved c
                        || ((256 <=? c)%N && answers beyond c true)) s
      = true.
Proof.
  split.
  - induction s as [|c s IH]; [reflexivity|].
    intros H. apply UrlEncode_cons in H as (e & r & He & Hr & Hout).
    cbn [forallb].
    destruct (UrlEncode_char_cases beyond c) as [[Hc H] | [[_ H] | [_ H]]];
      rewrite H in He; [| |discriminate He]; injection He as <-.
    + cbn [app] in Hout. injection Hout as <-.
      apply kept_by_UrlEncode_true in Hc. rewrite Hc. now apply IH.
    + apply (f_equal (@List.length _)) in Hout.
      unfold widen in Hout.
      cbn [List.length app Hexlify list_ascii_of_string map] in Hout.
      pose proof (UrlEncode_length_ge beyond s r Hr). lia.
  - induction s as [|c s IH]; [reflexivity|].
    cbn [UrlEncode forallb]. intros [Hc Hs]%andb_true_iff.
    apply kept_by_UrlEncode_true in Hc.
    now rewrite (UrlEncode_char_kept _ _ Hc), (IH Hs).
Qed.

Lemma UrlEncode_app beyond (s t : list wchar_t) :
  UrlEncode beyond (s ++ t)
  = match UrlEncode beyond s, UrlEncode beyond t with
    | Some a, Some b => Some (a ++ b)%list
    | _, _ => None
    end.
Proof.
  induction s as [|c s IH].
  - cbn [app UrlEncode]. now destruct (UrlEncode beyond t).
  - cbn [app UrlEncode]. rewrite IH.
    destruct (UrlEncode_char beyond c) as [e|]; [|reflexivity].
    destruct (UrlEncode beyond s) as [a|]; [|reflexivity].
    destruct (UrlEncode beyond t) as [b|]; [|reflexivity].
    now rewrite app_assoc.
Qed.

(** X25. [UrlEncode] escapes a character by its low byte only: a character
    above 255 that [isalnum] does not class as alphanumeric is written as
    the character of its low byte is, when that one is escaped, so that two
    different inputs get the same encoding. *)
Theorem UrlEncode_escapes_the_low_byte_only beyond
    (pre post : list wchar_t) (c : wchar_t) :
  (256 <= c)%N ->
  beyond c = Some false ->
  is_unreserved (c mod 256)%N = false ->
  (pre ++ c :: post)%list <> (pre ++ (c mod 256)%N :: post)%list
  /\ UrlEncode beyond (pre ++ c :: post)
     = UrlEncode beyond (pre ++ (c mod 256)%N :: post).
Proof.
  intros Hc Hb Hu. split.
  - intros H. apply app_inv_head in H. injection H as H.
    pose proof (N.mod_lt c 256 ltac:(discriminate)). lia.
  - rewrite !UrlEncode_app. cbn [UrlEncode].
    assert (Hk : kept_by_UrlEncode beyond c = Some false)
      by (now rewrite (kept_beyond_255 _ _ Hc)).
    assert (Hk' : kept_by_UrlEncode beyond (c mod 256)%N = Some false).
    { rewrite kept_below_256; [now rewrite Hu|].
      apply N.mod_lt. discriminate. }
    rewrite (UrlEncode_char_escape _ _ Hk), (UrlEncode_char_escape _ _ Hk').
    now rewrite N.Div0.mod_mod.
Qed.

Lemma UrlEncode_low_byte_witness :
  [288]%N <> [32]%N
  /\ UrlEncode never_alnum [288]%N = UrlEncode never_alnum [32]%N
  /\ UrlEncode never_alnum [32]%N = Some (widen "%20").
Proof.
  destruct (UrlEncode_escapes_the_low_byte_only never_alnum [] [] 288%N
              ltac:(vm_compute; discriminate) eq_refl eq_refl)
    as [Hne Heq].
  split; [exact Hne|]. split; [exact Heq | reflexivity].
Defined.

(* ================================================================== *)
(** ** The results and the termination of the wait *)

Lemma pass_events_result port process stopInfo evs returnValue :
  pass_events port process stopInfo evs (Break returnValue) ->
  (returnValue = WAIT_TIMEOUT /\ exists now, evs = [EvGetTickCount now])
  \/ (returnValue = ERROR_SUCCESS
      /\ exists now, evs = [EvGetTickCount now; EvConnect port true])
  \/ (returnValue = ERROR_SYSTEM_PROCESS_TERMINATED /\ process <> 0
      /\ exists pre, evs = (pre ++ [EvWaitForSingleObject process 0 true])%list)
  \/ (returnValue = ERROR_OPERATION_ABORTED /\ stopSignal stopInfo = true
      /\ exists pre,
           evs = (pre ++ [EvCheckSignal (stopReasons stopInfo) true])%list).
Proof.
  inversion 1; subst.
  - left. split; [reflexivity | now exists now].
  - right; left. split; [reflexivity | now exists now].
  - right; right; left. repeat split; [assumption|].
    now exists [EvGetTickCount now; EvConnect port false].
  - right; right; right. repeat split; [assumption|].
    unfold cancel_check.
    match goal with H : stopSignal stopInfo = true |- _ => rewrite H end.
    exists ([EvGetTickCount now; EvConnect port false] ++ alive_check process)%list.
    now rewrite <- !app_assoc.
Qed.

Lemma run_events_result port process stopInfo evs returnValue :
  run_events port process stopInfo evs returnValue ->
  (returnValue = WAIT_TIMEOUT
   /\ exists pre now, evs = (pre ++ [EvGetTickCount now])%list)
  \/ (returnValue = ERROR_SUCCESS
      /\ exists pre, evs = (pre ++ [EvConnect port true])%list)
  \/ (returnValue = ERROR_SYSTEM_PROCESS_TERMINATED /\ process <> 0
      /\ exists pre, evs = (pre ++ [EvWaitForSingleObject process 0 true])%list)
  \/ (returnValue = ERROR_OPERATION_ABORTED /\ stopSignal stopInfo = true
      /\ exists pre,
           evs = (pre ++ [EvCheckSignal (stopReasons stopInfo) true])%list).
Proof.
  induction 1 as [evs r Hp | evs evs' r Hp Hr IH].
  - apply pass_events_result in Hp
      as [(-> & now & ->) | [(-> & now & ->) | [(-> & Hn & pre & ->)
                                               | (-> & Hs & pre & ->)]]].
    + left. split; [reflexivity|]. now exists [], now.
    + right; left. split; [reflexivity|]. now exists [EvGetTickCount now].
    + right; right; left. repeat split; [assumption|]. now exists pre.
    + right; right; right. repeat split; [assumption|]. now exists pre.
  - destruct IH as [(-> & pre & now & ->) | [(-> & pre & ->)
                    | [(-> & Hn & pre & ->) | (-> & Hs & pre & ->)]]].
    + left. split; [reflexivity|]. exists (evs ++ pre)%list, now.
      now rewrite app_assoc.
    + right; left. split; [reflexivity|]. exists (evs ++ pre)%list.
      now rewrite app_assoc.
    + right; right; left. repeat split; [assumption|].
      exists (evs ++ pre)%list. now rewrite app_assoc.
    + right; right; right. repeat split; [assumption|].
      exists (evs ++ pre)%list. now rewrite app_assoc.
Qed.

Lemma USHORT_range (p : Z) : 0 <= USHORT p <= 65535.
Proof.
  unfold USHORT. pose proof (Z.mod_pos_bound p 65536 eq_refl). lia.
Qed.

(** X8. What [WaitForConnectability] returns is justified by its last
    call. It returns [ERROR_UNKNOWN_PORT] exactly when the port, as a
    [USHORT], is 0, and then without any call to the system. Otherwise the
    result is [WAIT_TIMEOUT] after a reading of the tick counter,
    [ERROR_SUCCESS] after a connection attempt that succeeded,
    [ERROR_SYSTEM_PROCESS_TERMINATED] only with a process handle that is
    not null and was just found signalled, or [ERROR_OPERATION_ABORTED]
    only with a stop signal that was just found raised; nothing else is
    returned. *)
Theorem WaitForConnectability_result_is_justified E fuel port timeout process stopInfo w returnValue w' :
  WaitForConnectability E fuel port timeout process stopInfo w
    = Some (returnValue, w') ->
  (returnValue = ERROR_UNKNOWN_PORT /\ USHORT port = 0
   /\ calls_between w w'
        [EvWaitForConnectability 0 (DWORD timeout) ERROR_UNKNOWN_PORT])
  \/ (USHORT port <> 0
      /\ exists evs,
           calls_between w w'
             (evs ++ [EvWaitForConnectability (USHORT port) (DWORD timeout)
                        returnValue])
           /\ ((returnValue = WAIT_TIMEOUT
                /\ exists pre now, evs = (pre ++ [EvGetTickCount now])%list)
               \/ (returnValue = ERROR_SUCCESS
                   /\ exists pre,
                        evs = (pre ++ [EvConnect (USHORT port) true])%list)
               \/ (returnValue = ERROR_SYSTEM_PROCESS_TERMINATED
                   /\ process <> 0
                   /\ exists pre,
                        evs = (pre ++ [EvWaitForSingleObject process 0 true])%list)
               \/ (returnValue = ERROR_OPERATION_ABORTED
                   /\ stopSignal stopInfo = true
                   /\ exists pre,
                        evs = (pre ++ [EvCheckSignal (stopReasons stopInfo)
                                         true])%list))).
Proof.
  intros H. pose proof (USHORT_range port) as Hr.
  destruct (Z.eq_dec (USHORT port) 0) as [H0 | H0].
  - left. unfold WaitForConnectability in H. rewrite H0 in H.
    cbn [Z.leb Z.compare orb] in H. injection H as <- <-.
    split; [reflexivity|]. split; [exact H0 | apply trace_emit].
  - right. split; [exact H0|].
    apply WaitForConnectability_calls in H as (start & evs & Hc & Hrun).
    + exists (EvGetTickCount start :: evs). split; [exact Hc|].
      apply run_events_result in Hrun
        as [(-> & pre & now & ->) | [(-> & pre & ->)
            | [(-> & Hn & pre & ->) | (-> & Hs & pre & ->)]]].
      * left. split; [reflexivity|]. now exists (EvGetTickCount start :: pre), now.
      * right; left. split; [reflexivity|]. now exists (EvGetTickCount start :: pre).
      * right; right; left. repeat split; [assumption|].
        now exists (EvGetTickCount start :: pre).
      * right; right; right. repeat split; [assumption|].
        now exists (EvGetTickCount start :: pre).
    + unfold valid_port. apply andb_true_iff.
      split; [apply Z.ltb_lt | apply Z.leb_le]; lia.
Qed.

Lemma body_n_tick E port start maxWait process stopInfo w :
  n_tick (snd (WaitForConnectability_body E port start maxWait process
                 stopInfo w)) = S (n_tick w).
Proof.
  cbv beta iota zeta delta [WaitForConnectability_body GetTickCount
    try_connect WaitForSingleObject CheckSignal].
  repeat (world_simpl; case_if); reflexivity.
Qed.

Lemma deadline_test_after (t0 timeout o : Z) :
  0 <= timeout <= MAXDWORD ->
  0 <= o ->
  o < 4294967296 \/ timeout = 0 ->
  deadline_passed (DWORD t0) timeout (DWORD (t0 + o)) = false ->
  o < timeout.
Proof.
  intros Ht Ho Hb. unfold deadline_passed. intros H.
  apply orb_false_iff in H as [H1 H2].
  apply Z.ltb_ge in H1. apply Z.leb_gt in H2.
  pose proof (DWORD_range t0) as Hs. unfold MAXDWORD in *.
  assert (Hnow : DWORD (t0 + o) = DWORD (DWORD t0 + o)).
  { unfold DWORD. rewrite Zplus_mod_idemp_l. reflexivity. }
  rewrite Hnow in *. clear Hnow.
  set (s := DWORD t0) in *. clearbody s.
  destruct Hb as [Hb | ->].
  - destruct (Z_lt_ge_dec (s + o) 4294967296) as [Hlt | Hge].
    + rewrite (DWORD_small (s + o)) in * by (unfold MAXDWORD; lia).
      destruct (Z_lt_ge_dec (s + timeout) 4294967296) as [Hlt' | Hge'].
      * rewrite DWORD_small in H2 by (unfold MAXDWORD; lia). lia.
      * rewrite DWORD_overflowed in H2 by lia. lia.
    + rewrite (DWORD_overflowed (s + o)) in * by lia. lia.
  - rewrite Z.add_0_r in H2. rewrite (DWORD_small s) in H2 by (unfold MAXDWORD; lia).
    lia.
Qed.

Lemma loop_returns_within E port timeout process stopInfo (t0 : Z) :
  0 <= timeout <= MAXDWORD ->
  (forall k, 1 <= tick_at E (S k) - tick_at E k <= 4294967296 - timeout) ->
  forall (n : nat) (w : World),
    0 <= tick_at E (n_tick w) - t0 ->
    tick_at E (n_tick w) - t0 < 4294967296 \/ timeout = 0 ->
    timeout - (tick_at E (n_tick w) - t0) <= Z.of_nat n ->
    WaitForConnectability_loop E (S n) port (DWORD t0) timeout process
      stopInfo w <> None.
Proof.
  intros Ht Htick. induction n as [|n IH]; intros w Ho Hb Hn.
  - cbn [WaitForConnectability_loop].
    destruct (WaitForConnectability_body E port (DWORD t0) timeout process
                stopInfo w) as [[r|] w1] eqn:Hbody; [discriminate|].
    exfalso.
    assert (Hpass : deadline_passed (DWORD t0) timeout
                      (DWORD (tick_at E (n_tick w))) = false).
    { destruct (deadline_passed _ _ _) eqn:Hd; [|reflexivity].
      apply <- (body_timeout_iff E port (DWORD t0) timeout process stopInfo w) in Hd.
      rewrite Hbody in Hd. discriminate Hd. }
    replace (tick_at E (n_tick w)) with (t0 + (tick_at E (n_tick w) - t0))
      in Hpass by lia.
    apply deadline_test_after in Hpass; [lia | assumption..].
  - cbn [WaitForConnectability_loop].
    destruct (WaitForConnectability_body E port (DWORD t0) timeout process
                stopInfo w) as [[r|] w1] eqn:Hbody; [discriminate|].
    assert (Hpass : deadline_passed (DWORD t0) timeout
                      (DWORD (tick_at E (n_tick w))) = false).
    { destruct (deadline_passed _ _ _) eqn:Hd; [|reflexivity].
      apply <- (body_timeout_iff E port (DWORD t0) timeout process stopInfo w) in Hd.
      rewrite Hbody in Hd. discriminate Hd. }
    replace (tick_at E (n_tick w)) with (t0 + (tick_at E (n_tick w) - t0))
      in Hpass by lia.
    apply deadline_test_after in Hpass; [|assumption..].
    pose proof (body_n_tick E port (DWORD t0) timeout process stopInfo w) as Hk.
    rewrite Hbody in Hk. cbn [snd] in Hk.
    pose proof (Htick (n_tick w)) as Hstep.
    apply IH; rewrite Hk; [lia | left; lia | lia].
Qed.

Lemma WaitForConnectability_result_witness :
  exists w',
    WaitForConnectability dying_env 2 1080 20000 44 sample_stop World0
    = Some (ERROR_SYSTEM_PROCESS_TERMINATED, w')
    /\ 44 <> 0.
Proof.
  assert (Hrun : exists w',
             WaitForConnectability dying_env 2 1080 20000 44 sample_stop
               World0
             = Some (ERROR_SYSTEM_PROCESS_TERMINATED, w')).
  { vm_compute. eexists. reflexivity. }
  destruct Hrun as (w' & Hrun). exists w'. split; [exact Hrun|].
  destruct (WaitForConnectability_result_is_justified dying_env 2 1080 20000
              44 sample_stop World0 ERROR_SYSTEM_PROCESS_TERMINATED w' Hrun)
    as [(Hr & _) | (_ & evs & _ & [(Hr & _) | [(Hr & _)
                                   | [(_ & Hn & _) | (Hr & _)]]])];
    try discriminate Hr.
  exact Hn.
Defined.

(** X9. [WaitForConnectability] comes back: when the tick counter advances
    between two readings, by at least one millisecond and by no more than
    2^32 milliseconds less the timeout, the call returns after at most
    [timeout] passes of its loop (one pass when the timeout is 0), whatever
    the connection attempts, the process and the stop signal do. *)
Theorem WaitForConnectability_returns_within_the_timeout E port timeout process stopInfo w (fuel : nat) :
  0 <= timeout <= MAXDWORD ->
  (forall k, 1 <= tick_at E (S k) - tick_at E k <= 4294967296 - timeout) ->
  (1 <= fuel)%nat ->
  timeout <= Z.of_nat fuel ->
  WaitForConnectability E fuel port timeout process stopInfo w <> None.
Proof.
  intros Ht Htick H1 Hfuel. unfold WaitForConnectability.
  case_if; [discriminate|].
  cbv beta iota zeta delta [GetTickCount].
  rewrite (DWORD_small timeout Ht).
  destruct fuel as [|n]; [lia|].
  match goal with
  | |- context [WaitForConnectability_loop E (S n) ?p ?s ?t ?pr ?st ?w1] =>
      pose proof (loop_returns_within E p timeout pr st
                    (tick_at E (n_tick w)) Ht Htick n w1) as Hl
  end.
  cbn [emit n_tick] in Hl.
  pose proof (Htick (n_tick w)) as Hstep.
  assert (Hsome : WaitForConnectability_loop E (S n) (USHORT port)
                    (DWORD (tick_at E (n_tick w))) timeout process stopInfo
                    (emit (EvGetTickCount (DWORD (tick_at E (n_tick w))))
                       {| n_tick := S (n_tick w); n_connect := n_connect w;
                          n_signalled := n_signalled w; n_stop := n_stop w;
                          n_extract := n_extract w; n_create := n_create w;
                          n_attach := n_attach w;
                          n_terminate := n_terminate w;
                          trace := trace w |}) <> None).
  { destruct (Z.eq_dec timeout 0) as [H0 | H0].
    - apply Hl; [lia | now right | lia].
    - apply Hl; [lia | left; lia | lia]. }
  destruct (WaitForConnectability_loop _ _ _ _ _ _ _ _) as [[r w']|];
    [discriminate | contradiction].
Qed.

Lemma WaitForConnectability_returns_witness :
  WaitForConnectability sample_env 100 1080 100 0 sample_stop World0 <> None.
Proof.
  apply WaitForConnectability_returns_within_the_timeout.
  - unfold MAXDWORD. lia.
  - intros k. cbn [tick_at sample_env]. lia.
  - lia.
  - lia.
Defined.

(* ================================================================== *)
(** ** The anatomy of a connection attempt *)

Lemma TestForOpenPort_loop_port E fuel stopInfo :
  forall (n : nat) (targetPort maxPort : Z) (w : World) port w',
    INT_MIN <= targetPort < INT_MAX ->
    maxPort < INT_MAX ->
    TestForOpenPort_loop E fuel n targetPort maxPort stopInfo w
      = Some (true, port, w') ->
    targetPort <= port <= Z.max targetPort maxPort
    /\ valid_port port = true.
Proof.
  induction n as [|n IH]; intros targetPort maxPort w port w' Ht Hm H;
    [discriminate|].
  cbn [TestForOpenPort_loop] in H. fold (valid_port targetPort) in H.
  rewrite !(INT_small (targetPort + 1)) in H
    by (unfold INT_MIN, INT_MAX in *; lia).
  destruct (valid_port targetPort) eqn:Hv.
  - destruct (WaitForConnectability E fuel targetPort 100 0 stopInfo w)
      as [[r w1]|]; [|discriminate].
    destruct (negb (r =? ERROR_SUCCESS)).
    + injection H as <- <-. split; [lia | exact Hv].
    + destruct (targetPort + 1 <=? maxPort) eqn:Hle; [|discriminate].
      apply Z.leb_le in Hle.
      apply IH in H as [H1 H2]; [|lia|exact Hm]. split; [lia | exact H2].
  - destruct (targetPort + 1 <=? maxPort) eqn:Hle; [|discriminate].
    apply Z.leb_le in Hle.
    apply IH in H as [H1 H2]; [|lia|exact Hm]. split; [lia | exact H2].
Qed.

Lemma LaunchPlonk_cases E this commandLine w :
  match SSHTransportBase.LaunchPlonk E this commandLine w with
  | (true, this', w') =>
      exists pi,
        m_localSocksProxyPort this' = m_localSocksProxyPort this
        /\ m_stopInfo this' = m_stopInfo this
        /\ hProcess (m_plonkProcessInfo this') = hProcess pi
        /\ calls_between w w'
             [EvCreateProcess (c_str (m_plonkPath this)) commandLine true;
              EvCloseHandle (hThread pi); EvWaitForInputIdle (hProcess pi)]
  | (false, this', w') =>
      calls_between w w'
        [EvCreateProcess (c_str (m_plonkPath this)) commandLine false]
  end.
Proof.
  unfold SSHTransportBase.LaunchPlonk, CreateProcess, calls_between.
  destruct (create_at E (n_create w)) as [pi|]; cbn [is_some].
  - exists pi. repeat split. rewrite !trace_emit. world_simpl.
    rewrite <- !app_assoc. reflexivity.
  - rewrite trace_emit. reflexivity.
Qed.

Lemma TransportConnectHelper_anatomy (C : SSHTransportClass)
      E fuel this sessionInfo w c this1 w1 :
  @SSHTransportBase.TransportConnectHelper C E fuel this sessionInfo w
    = Some (c, this1, w1) ->
  exists before after,
    calls_between w w1 (before ++ after)
    /\ existsb is_launch before = false
    /\ ((after = [] /\ c = Thrown TransportFailed)
        \/ exists thisp params ok post b1 b2,
             before = (b1 ++ EvCleanup :: b2)%list
             /\ (SSHTransportBase.has_process_handle this = true ->
                 In (EvCloseHandle (hProcess (m_plonkProcessInfo this))) b2)
             /\ (m_plonkPath thisp = m_plonkPath this
                 \/ exists k, extract_at E k = Some (m_plonkPath thisp))
             /\ m_stopInfo thisp = m_stopInfo this
             /\ 1080 <= m_localSocksProxyPort thisp <= 1090
             /\ @virtual_GetSSHParams C E thisp sessionInfo
                  (m_localSocksProxyPort thisp)
                  (SSHTransportBase.sshPassword sessionInfo)
                  SSHTransportBase.no_params = (true, params)
             /\ after
                = EvSetPlonkSSHHostKey (o_serverAddress params)
                    (o_serverPort params) (o_serverHostKey params)
                  :: EvCreateProcess (c_str (m_plonkPath thisp))
                       (c_str (o_plonkCommandLine params)) ok
                  :: post
             /\ ((ok = false /\ post = [] /\ c = Thrown TransportFailed)
                 \/ (ok = true
                     /\ exists pi start polls r tail,
                          post
                          = (EvCloseHandle (hThread pi)
                             :: EvWaitForInputIdle (hProcess pi)
                             :: EvGetTickCount start
                             :: polls
                             ++ EvWaitForConnectability
                                  (m_localSocksProxyPort thisp) 20000 r
                             :: tail)%list
                          /\ run_events (m_localSocksProxyPort thisp)
                               (hProcess pi) (m_stopInfo this) polls r
                          /\ m_localSocksProxyPort this1
                             = m_localSocksProxyPort thisp
                          /\ hProcess (m_plonkProcessInfo this1) = hProcess pi
                          /\ ((r = ERROR_OPERATION_ABORTED
                               /\ c = Thrown Abort /\ tail = [])
                              \/ (r <> ERROR_OPERATION_ABORTED
                                  /\ r <> ERROR_SUCCESS
                                  /\ c = Thrown TransportFailed /\ tail = [])
                              \/ (r = ERROR_SUCCESS
                                  /\ c = Returned tt
                                  /\ tail
                                     = [EvSetSocksProxyPort
                                          (m_localSocksProxyPort thisp)]))))).
Proof.
  unfold SSHTransportBase.TransportConnectHelper.
  assert (Hx : exists ok thisx wx evsx,
             (if nonempty (m_plonkPath this) then (true, this, w)
              else match ExtractExecutable E w with
                   | (Some path, w0) =>
                       (true, SSHTransportBase.set_plonkPath this path, w0)
                   | (None, w0) => (false, this, w0)
                   end) = (ok, thisx, wx)
             /\ calls_between w wx evsx
             /\ existsb is_launch evsx = false
             /\ m_plonkProcessInfo thisx = m_plonkProcessInfo this
             /\ m_stopInfo thisx = m_stopInfo this
             /\ (m_plonkPath thisx = m_plonkPath this
                 \/ exists k, extract_at E k = Some (m_plonkPath thisx))).
  { destruct (nonempty (m_plonkPath this)).
    - exists true, this, w, []. repeat split; [apply calls_between_refl | now left].
    - unfold ExtractExecutable.
      destruct (extract_at E (n_extract w)) as [path|] eqn:Hp.
      + do 4 eexists. split; [reflexivity|].
        split; [unfold calls_between; cbn; reflexivity|]. repeat split.
        right. now exists (n_extract w).
      + do 4 eexists. split; [reflexivity|].
        split; [unfold calls_between; cbn; reflexivity|]. repeat split. now left. }
  destruct Hx as (ok & thisx & wx & evsx & -> & Hcx & Hlx & Hpi & Hstop & Hpath).
  destruct ok.
  2:{ intros [= <- <- <-]. exists evsx, []. rewrite app_nil_r.
      split; [exact Hcx|]. split; [exact Hlx|]. now left. }
  rewrite Cleanup_returns.
  destruct (Cleanup_events E thisx wx) as (evsc & Hcc & Hsc & Hclose & _).
  set (wc := snd (SSHTransportBase.Cleanup E thisx wx)) in *.
  cbv beta iota zeta.
  destruct (TestForOpenPort E fuel _ 10 _ wc)
    as [[[okp port] wt]|] eqn:Ht; [|discriminate].
  pose proof Ht as Hport.
  apply TestForOpenPort_loop_events in Ht as (evst & Hct & Hwt).
  assert (Hbefore : calls_between w wt (evsx ++ EvCleanup :: evsc ++ evst)).
  { eapply calls_between_trans; [exact Hcx|].
    change (EvCleanup :: evsc ++ evst)%list
      with ((EvCleanup :: evsc) ++ evst)%list.
    eapply calls_between_trans; eassumption. }
  assert (Hnl : existsb is_launch (evsx ++ EvCleanup :: evsc ++ evst) = false).
  { rewrite existsb_app, Hlx. cbn [existsb is_launch orb].
    rewrite existsb_app, (stop_events_no_launch _ Hsc),
      (wait_events_no_launch _ Hwt). reflexivity. }
  destruct okp.
  2:{ intros [= <- <- <-]. do 2 eexists. split; [|split; [exact Hnl|]].
      - rewrite app_nil_r. exact Hbefore.
      - now left. }
  unfold TestForOpenPort in Hport.
  apply TestForOpenPort_loop_port in Hport as [Hrange Hvalid];
    [| vm_compute; split; [discriminate | reflexivity]
     | vm_compute; reflexivity ].
  cbn [m_localSocksProxyPort SSHTransportBase.set_localSocksProxyPort
       SSHTransportBase.set_plonkProcessInfo m_stopInfo m_plonkPath
       m_plonkProcessInfo] in *.
  unfold DEFAULT_PLONK_SOCKS_PROXY_PORT in Hrange.
  change (INT (1080 + 10)) with 1090 in Hrange.
  match goal with
  | |- context [@virtual_GetSSHParams C E ?t sessionInfo ?p ?pw ?o] =>
      set (thisp := t)
  end.
  destruct (@virtual_GetSSHParams C E thisp sessionInfo _ _ _)
    as [okg params] eqn:Hparams.
  destruct okg.
  2:{ intros [= <- <- <-]. do 2 eexists. split; [|split; [exact Hnl|]].
      - rewrite app_nil_r. exact Hbefore.
      - now left. }
  assert (Hpp : m_localSocksProxyPort thisp = port) by reflexivity.
  assert (Hps : m_stopInfo thisp = m_stopInfo this) by exact Hstop.
  assert (Hpq : m_plonkPath thisp = m_plonkPath thisx) by reflexivity.
  clearbody thisp.
  match goal with
  | |- context [SSHTransportBase.LaunchPlonk E thisp ?cl ?w0] =>
      pose proof (LaunchPlonk_cases E thisp cl w0) as Hl;
      destruct (SSHTransportBase.LaunchPlonk E thisp cl w0)
        as [[launched thisl] wl]
  end.
  assert (Hclose' : SSHTransportBase.has_process_handle this = true ->
                    In (EvCloseHandle (hProcess (m_plonkProcessInfo this)))
                      (evsc ++ evst)).
  { intros Hh. unfold SSHTransportBase.has_process_handle in *.
    rewrite Hpi in Hclose. destruct (Hclose Hh) as (evs' & -> & _).
    apply in_or_app. left. apply in_or_app. right. now left. }
  assert (Hpath' : m_plonkPath thisp = m_plonkPath this
                   \/ exists k, extract_at E k = Some (m_plonkPath thisp))
    by (rewrite Hpq; exact Hpath).
  assert (Hrange' : 1080 <= m_localSocksProxyPort thisp <= 1090)
    by (rewrite Hpp; lia).
  rewrite <- Hpp in Hparams.
  match type of Hl with
  | context [calls_between ?w0 _ _] =>
      assert (Hk : calls_between wt w0
                     [EvSetPlonkSSHHostKey (o_serverAddress params)
                        (o_serverPort params) (o_serverHostKey params)])
        by apply calls_between_emit;
      set (wk := w0) in *
  end.
  destruct launched.
  2:{ intros [= <- <- <-].
      exists (evsx ++ EvCleanup :: evsc ++ evst)%list. eexists.
      split; [|split; [exact Hnl|]].
      - eapply calls_between_trans; [exact Hbefore|].
        eapply (calls_between_trans _ _ _ [_] [_]); [exact Hk | exact Hl].
      - right. exists thisp, params, false, [], evsx, (evsc ++ evst)%list.
        repeat split; try assumption; try lia. now left. }
  destruct Hl as (pi & Hlp & Hls & Hlh & Hlc).
  destruct (WaitForConnectability E fuel _ _ _ _ wl)
    as [[r ww]|] eqn:Hw; [|discriminate].
  rewrite Hlp, Hls, Hlh in Hw.
  apply WaitForConnectability_calls in Hw as (start & polls & Hwc & Hrun);
    [|rewrite Hpp, (USHORT_valid _ Hvalid); exact Hvalid].
  rewrite Hpp, (USHORT_valid _ Hvalid), <- Hpp in Hwc, Hrun.
  change (DWORD (SSH_CONNECTION_TIMEOUT_SECONDS * 1000)) with 20000 in Hwc.
  rewrite Hps in Hrun.
  assert (Hall : forall tail wz,
             calls_between ww wz tail ->
             calls_between w wz
               ((evsx ++ EvCleanup :: evsc ++ evst)
                  ++ EvSetPlonkSSHHostKey (o_serverAddress params)
                       (o_serverPort params) (o_serverHostKey params)
                  :: EvCreateProcess (c_str (m_plonkPath thisp))
                       (c_str (o_plonkCommandLine params)) true
                  :: EvCloseHandle (hThread pi)
                  :: EvWaitForInputIdle (hProcess pi)
                  :: EvGetTickCount start
                  :: polls
                  ++ EvWaitForConnectability (m_localSocksProxyPort thisp)
                       20000 r
                  :: tail)).
  { intros tail wz Hz.
    eapply calls_between_trans; [exact Hbefore|].
    eapply (calls_between_trans _ _ _ [_]); [exact Hk|].
    eapply (calls_between_trans _ _ _ [_; _; _]); [exact Hlc|].
    replace (EvGetTickCount start
             :: polls
             ++ EvWaitForConnectability (m_localSocksProxyPort thisp) 20000 r
             :: tail)%list
      with ((EvGetTickCount start
             :: polls
             ++ [EvWaitForConnectability (m_localSocksProxyPort thisp)
                   20000 r]) ++ tail)%list
      by (cbn [app]; rewrite <- app_assoc; reflexivity).
    eapply calls_between_trans; [exact Hwc | exact Hz]. }
  match goal with
  | |- _ = Some (c, this1, w1) -> ?G =>
      assert (Hshape : forall tail wz,
                 calls_between ww wz tail ->
                 (r = ERROR_OPERATION_ABORTED /\ c = Thrown Abort /\ tail = []
                  \/ r <> ERROR_OPERATION_ABORTED /\ r <> ERROR_SUCCESS
                     /\ c = Thrown TransportFailed /\ tail = []
                  \/ r = ERROR_SUCCESS /\ c = Returned tt
                     /\ tail = [EvSetSocksProxyPort
                                  (m_localSocksProxyPort thisp)]) ->
                 m_localSocksProxyPort this1 = m_localSocksProxyPort thisp ->
                 hProcess (m_plonkProcessInfo this1) = hProcess pi ->
                 wz = w1 -> G)
  end.
  { intros tail wz Hz Hcase Hp1 Hh1 <-.
    exists (evsx ++ EvCleanup :: evsc ++ evst)%list. eexists.
    split; [exact (Hall tail wz Hz)|]. split; [exact Hnl|].
    right. exists thisp, params, true. eexists. exists evsx, (evsc ++ evst)%list.
    repeat (split; [first [reflexivity | assumption]|]).
    right. split; [reflexivity|].
    exists pi, start, polls, r, tail.
    repeat (split; [first [reflexivity | assumption]|]). exact Hcase. }
  destruct (ERROR_OPERATION_ABORTED =? r) eqn:Ha.
  - apply Z.eqb_eq in Ha. intros [= <- <- <-].
    apply (Hshape [] ww); try assumption; try reflexivity.
    + apply calls_between_refl.
    + left. now repeat split.
  - apply Z.eqb_neq in Ha.
    destruct (ERROR_SUCCESS =? r) eqn:Hs; cbn [negb].
    + apply Z.eqb_eq in Hs. intros [= <- <- <-].
      apply (Hshape [EvSetSocksProxyPort (m_localSocksProxyPort thisp)]
               (emit (EvSetSocksProxyPort (m_localSocksProxyPort thisl)) ww));
        try assumption; try reflexivity.
      * rewrite Hlp. apply calls_between_emit.
      * right; right. now repeat split.
    + apply Z.eqb_neq in Hs. intros [= <- <- <-].
      apply (Hshape [] ww); try assumption; try reflexivity.
      * apply calls_between_refl.
      * right; left. repeat split; congruence.
Qed.

Lemma has_nul_string_of_uint (d : Decimal.uint) :
  has_nul (NilEmpty.string_of_uint d) = false.
Proof. induction d; cbn; auto. Qed.

Lemma has_nul_print_int (n : Z) : has_nul (print_int n) = false.
Proof.
  unfold print_int. destruct (Z.to_int n) as [d | d]; cbn;
    apply has_nul_string_of_uint.
Qed.

(** In the command line either variant builds, handed over as a C string,
    the local port follows [-D] when the path of the executable holds no
    NUL. *)
Lemma local_port_in_launched_command_line (C : SSHTransportClass)
      E this sessionInfo port pw out params :
  C = SSHTransport.class \/ C = OSSHTransport.class ->
  has_nul (m_plonkPath this) = false ->
  @virtual_GetSSHParams C E this sessionInfo port pw out = (true, params) ->
  occurs_in (" -D " ++ print_int port) (c_str (o_plonkCommandLine params)).
Proof.
  intros HC Hpath Hparams.
  assert (Hbase : exists rest,
             o_plonkCommandLine params
             = ((m_plonkPath this
                   ++ " -ssh -C -N -batch -P "
                   ++ print_int (GetSSHObfuscatedPort sessionInfo)
                   ++ " -l "
                   ++ c_str (NarrowToTString E (GetSSHUsername sessionInfo))
                   ++ " -pw " ++ c_str (NarrowToTString E pw))
                  ++ (" -D " ++ print_int port) ++ rest)%string).
  { destruct HC as [-> | ->]; cbn [virtual_GetSSHParams SSHTransport.class
      OSSHTransport.class] in Hparams.
    - unfold SSHTransport.GetSSHParams in Hparams.
      cbn [SSHTransportBase.GetSSHParams] in Hparams.
      injection Hparams as <-. cbn [o_plonkCommandLine o_serverAddress].
      unfold SSHTransportBase.plonk_args.
      eexists. rewrite !append_assoc. reflexivity.
    - unfold OSSHTransport.GetSSHParams in Hparams.
      destruct (_ || _); [discriminate|].
      cbn [SSHTransportBase.GetSSHParams] in Hparams.
      injection Hparams as <-. cbn [o_plonkCommandLine o_serverAddress].
      unfold SSHTransportBase.plonk_args.
      eexists. rewrite !append_assoc. reflexivity. }
  destruct Hbase as (rest & ->).
  rewrite <- append_assoc.
  rewrite c_str_append.
  - eexists. eexists. rewrite append_assoc. reflexivity.
  - rewrite !has_nul_append, Hpath, !has_nul_print_int, !has_nul_c_str.
    reflexivity.
Qed.

Lemma run_events_are_polls port process stopInfo evs r :
  run_events port process stopInfo evs r -> forallb is_poll_event evs = true.
Proof. apply run_events_poll. Qed.

(** X10. A connection attempt of either variant that returns normally has
    used one local port throughout: the port the transport reports lies in
    1080..1090, the command line of the one process it created (whose
    handle the transport keeps) contains [-D] followed by that port, the
    wait that followed the launch probed that port and ended with
    [ERROR_SUCCESS], and the last call hands that port to the system proxy
    settings. The path of the executable is assumed to hold no NUL. *)
Theorem successful_attempt_uses_the_negotiated_port (C : SSHTransportClass) E fuel this sessionInfo w this' w' :
  C = SSHTransport.class \/ C = OSSHTransport.class ->
  has_nul (m_plonkPath this) = false ->
  (forall k path, extract_at E k = Some path -> has_nul path = false) ->
  @SSHTransportBase.TransportConnect C E fuel this sessionInfo w
    = Some (Returned tt, this', w') ->
  let port := m_localSocksProxyPort this' in
  1080 <= port <= 1090
  /\ exists before path commandLine pi start polls,
       calls_between w w'
         (before
            ++ [EvCreateProcess path commandLine true;
                EvCloseHandle (hThread pi);
                EvWaitForInputIdle (hProcess pi);
                EvGetTickCount start]
            ++ polls
            ++ [EvWaitForConnectability port 20000 ERROR_SUCCESS;
                EvSetSocksProxyPort port])
       /\ existsb is_launch before = false
       /\ forallb is_poll_event polls = true
       /\ occurs_in (" -D " ++ print_int port) commandLine
       /\ hProcess (m_plonkProcessInfo this') = hProcess pi.
Proof.
  intros HC Hpath Hextract. unfold SSHTransportBase.TransportConnect.
  destruct (negb _); [discriminate|].
  destruct (SSHTransportBase.TransportConnectHelper E fuel this sessionInfo w)
    as [[[[[]|e] this1] w1]|] eqn:Hh; try discriminate.
  intros [= <- <-].
  apply TransportConnectHelper_anatomy in Hh
    as (before & after & Hcalls & Hnl & [[_ Hc] | Hlaunch]);
    [discriminate Hc|].
  destruct Hlaunch as (thisp & params & ok & post & b1 & b2 & -> & _ & Hp
                       & _ & Hrange & Hparams & -> & [(_ & _ & Hc) | Hok]);
    [discriminate Hc|].
  destruct Hok as (-> & pi & start & polls & r & tail & -> & Hrun & Hport
                   & Hproc & [(_ & Hc & _) | [(_ & _ & Hc & _)
                                              | (-> & _ & ->)]]);
    try discriminate Hc.
  cbv zeta. rewrite Hport. split; [exact Hrange|].
  exists ((b1 ++ EvCleanup :: b2)
            ++ [EvSetPlonkSSHHostKey (o_serverAddress params)
                  (o_serverPort params) (o_serverHostKey params)])%list,
    (c_str (m_plonkPath thisp)), (c_str (o_plonkCommandLine params)),
    pi, start, polls.
  split; [|split; [|split; [|split]]].
  - rewrite <- !app_assoc. cbn [app]. rewrite <- !app_assoc in Hcalls.
    cbn [app] in Hcalls. exact Hcalls.
  - rewrite existsb_app, Hnl. reflexivity.
  - exact (run_events_are_polls _ _ _ _ _ Hrun).
  - apply (local_port_in_launched_command_line C E thisp sessionInfo
             (m_localSocksProxyPort thisp)
             (SSHTransportBase.sshPassword sessionInfo)
             SSHTransportBase.no_params params HC); [|exact Hparams].
    destruct Hp as [-> | (k & Hk)]; [exact Hpath | exact (Hextract _ _ Hk)].
  - exact Hproc.
Qed.

Lemma successful_attempt_witness :
  exists this' w',
    @SSHTransportBase.TransportConnect SSHTransport.class connecting_env 2
      sample_transport sample_session World0
    = Some (Returned tt, this', w')
    /\ 1080 <= m_localSocksProxyPort this' <= 1090.
Proof.
  assert (Hrun : exists this' w',
             @SSHTransportBase.TransportConnect SSHTransport.class
               connecting_env 2 sample_transport sample_session World0
             = Some (Returned tt, this', w')).
  { vm_compute. do 2 eexists. reflexivity. }
  destruct Hrun as (this' & w' & Hrun). exists this', w'.
  split; [exact Hrun|].
  refine (proj1 (successful_attempt_uses_the_negotiated_port
                   SSHTransport.class connecting_env 2 sample_transport
                   sample_session World0 this' w' (or_introl eq_refl)
                   eq_refl _ Hrun)).
  intros k path [= <-]. reflexivity.
Defined.

Lemma calls_between_unique (w w' : World) (a b : list Event) :
  calls_between w w' a -> calls_between w w' b -> a = b.
Proof.
  unfold calls_between. intros Ha Hb. rewrite Ha in Hb.
  now apply app_inv_head in Hb.
Qed.

Lemma launch_position (a b pre post : list Event) (x e : Event) :
  existsb is_launch a = false ->
  existsb is_launch b = false ->
  is_launch e = true ->
  (a ++ x :: b = pre ++ e :: post)%list ->
  pre = a /\ e = x /\ post = b.
Proof.
  intros Ha Hb He. revert pre.
  induction a as [|y a IH]; intros [|z pre] H; cbn [app] in H.
  - injection H as -> ->. now repeat split.
  - injection H as -> H. exfalso.
    assert (Hin : existsb is_launch b = true)
      by (rewrite H, existsb_app; cbn [existsb]; rewrite He;
          now rewrite orb_true_r).
    congruence.
  - injection H as -> H. cbn [existsb] in Ha. rewrite He in Ha.
    discriminate Ha.
  - injection H as -> H. cbn [existsb] in Ha.
    apply orb_false_iff in Ha as [_ Ha].
    destruct (IH Ha pre H) as (-> & -> & ->). now repeat split.
Qed.

Lemma no_launch_position (l pre post : list Event) (e : Event) :
  existsb is_launch l = false -> is_launch e = true ->
  l <> (pre ++ e :: post)%list.
Proof.
  intros Hl He ->. rewrite existsb_app in Hl. cbn [existsb] in Hl.
  rewrite He, orb_true_r in Hl. discriminate Hl.
Qed.

(** The calls of a whole attempt: those of [TransportConnectHelper], then
    those of the [Cleanup] of the handler when the helper threw. *)
Lemma TransportConnect_calls (C : SSHTransportClass)
      E fuel this sessionInfo w c this' w' :
  @SSHTransportBase.TransportConnect C E fuel this sessionInfo w
    = Some (c, this', w') ->
  (c = Thrown TransportFailed /\ w' = w)
  \/ exists this1 w1 tail,
       @SSHTransportBase.TransportConnectHelper C E fuel this sessionInfo w
         = Some (c, this1, w1)
       /\ calls_between w1 w' tail
       /\ existsb is_launch tail = false
       /\ ((c = Returned tt /\ this' = this1 /\ tail = [])
           \/ exists e evs, c = Thrown e /\ tail = EvCleanup :: evs).
Proof.
  unfold SSHTransportBase.TransportConnect.
  destruct (negb _).
  - intros [= <- <- <-]. now left.
  - destruct (SSHTransportBase.TransportConnectHelper E fuel this
                sessionInfo w) as [[[[[]|e] this1] w1]|] eqn:Hh;
      [| |discriminate].
    + intros [= <- <- <-]. right. exists this1, w1, [].
      split; [reflexivity|]. split; [apply calls_between_refl|].
      split; [reflexivity|]. left. now repeat split.
    + rewrite Cleanup_returns. intros [= <- <- <-]. right.
      destruct (Cleanup_events E this1 w1) as (evs & Ht & Hs & _).
      exists this1, w1, (EvCleanup :: evs).
      split; [reflexivity|]. split; [exact Ht|].
      split; [cbn [existsb is_launch orb]; now apply stop_events_no_launch|].
      right. now exists e, evs.
Qed.

Lemma run_events_no_launch port process stopInfo evs r :
  run_events port process stopInfo evs r -> existsb is_launch evs = false.
Proof.
  intros H. apply run_events_poll in H.
  apply wait_events_no_launch. now apply is_poll_is_wait.
Qed.

(** X11. A connection attempt creates at most one process, and only after
    it has cleaned up: whenever [CreateProcess] is called, no other call of
    it comes before or after in the attempt, [Cleanup] has run before it,
    and the handle of the process the transport held at the start, if any,
    has been closed before it. *)
Theorem process_is_created_once_and_after_cleanup (C : SSHTransportClass) E fuel this sessionInfo w c this' w'
        (pre post : list Event) (e : Event) :
  @SSHTransportBase.TransportConnect C E fuel this sessionInfo w
    = Some (c, this', w') ->
  calls_between w w' (pre ++ e :: post) ->
  is_launch e = true ->
  existsb is_launch pre = false
  /\ existsb is_launch post = false
  /\ In EvCleanup pre
  /\ (SSHTransportBase.has_process_handle this = true ->
      In (EvCloseHandle (hProcess (m_plonkProcessInfo this))) pre).
Proof.
  intros H Hcalls He.
  apply TransportConnect_calls in H
    as [(_ & ->) | (this1 & w1 & tail & Hh & Ht & Hlt & _)].
  { exfalso.
    pose proof (calls_between_unique _ _ _ _ (calls_between_refl w) Hcalls) as Hx.
    destruct pre; discriminate Hx. }
  apply TransportConnectHelper_anatomy in Hh
    as (before & after & Hc & Hnl & Hafter).
  pose proof (calls_between_trans _ _ _ _ _ Hc Ht) as Hall.
  pose proof (calls_between_unique _ _ _ _ Hcalls Hall) as Heq.
  destruct Hafter as [[-> _] | Hlaunch].
  { exfalso. cbn [app] in Heq. rewrite app_nil_r in Heq. symmetry in Heq.
    revert Heq. apply no_launch_position; [|exact He].
    now rewrite existsb_app, Hnl, Hlt. }
  destruct Hlaunch as (thisp & params & ok & post0 & b1 & b2 & -> & Hclose
                       & _ & _ & _ & _ & -> & Hpost).
  assert (Hpost0 : existsb is_launch post0 = false).
  { destruct Hpost as [(_ & -> & _) | (_ & pi & start & polls & r & tl & ->
                                        & Hrun & _ & _ & Htl)];
      [reflexivity|].
    cbn [existsb is_launch orb]. rewrite existsb_app.
    rewrite (run_events_no_launch _ _ _ _ _ Hrun).
    destruct Htl as [(_ & _ & ->) | [(_ & _ & _ & ->) | (_ & _ & ->)]];
      reflexivity. }
  symmetry in Heq.
  replace (((b1 ++ EvCleanup :: b2)
              ++ EvSetPlonkSSHHostKey (o_serverAddress params)
                   (o_serverPort params) (o_serverHostKey params)
              :: EvCreateProcess (c_str (m_plonkPath thisp))
                   (c_str (o_plonkCommandLine params)) ok :: post0)
             ++ tail)%list
    with (((b1 ++ EvCleanup :: b2)
             ++ [EvSetPlonkSSHHostKey (o_serverAddress params)
                   (o_serverPort params) (o_serverHostKey params)])
            ++ EvCreateProcess (c_str (m_plonkPath thisp))
                 (c_str (o_plonkCommandLine params)) ok
            :: (post0 ++ tail))%list in Heq
    by (rewrite <- !app_assoc; reflexivity).
  apply launch_position in Heq as (-> & -> & ->);
    [| now rewrite existsb_app, Hnl
     | now rewrite existsb_app, Hpost0, Hlt
     | exact He].
  split; [now rewrite existsb_app, Hnl|].
  split; [now rewrite existsb_app, Hpost0, Hlt|].
  split.
  - apply in_or_app. left. apply in_or_app. right. now left.
  - intros Hh. apply in_or_app. left. apply in_or_app. right. right.
    now apply Hclose.
Qed.

Lemma process_is_created_once_witness :
  exists w',
    @SSHTransportBase.TransportConnect SSHTransport.class connecting_env 2
      connected_transport sample_session World0
    = Some (Returned tt, connected_transport, w')
    /\ In (EvCloseHandle 44)
         [EvCleanup; EvAttachConsole 7 false; EvTerminateProcess 44 true;
          EvWaitForSingleObject 44 5000 false; EvCloseHandle 44;
          EvGetTickCount 0; EvGetTickCount 50; EvConnect 1080 false;
          EvCheckSignal 1 false; EvGetTickCount 100;
          EvWaitForConnectability 1080 100 258;
          EvSetPlonkSSHHostKey "203.0.113.5" 8080 "AAAAB3NzaC1yc2E="].
Proof.
  assert (Hrun : exists w',
             @SSHTransportBase.TransportConnect SSHTransport.class
               connecting_env 2 connected_transport sample_session World0
             = Some (Returned tt, connected_transport, w')
             /\ trace w'
                = [EvCleanup; EvAttachConsole 7 false;
                   EvTerminateProcess 44 true;
                   EvWaitForSingleObject 44 5000 false; EvCloseHandle 44;
                   EvGetTickCount 0; EvGetTickCount 50; EvConnect 1080 false;
                   EvCheckSignal 1 false; EvGetTickCount 100;
                   EvWaitForConnectability 1080 100 258;
                   EvSetPlonkSSHHostKey "203.0.113.5" 8080 "AAAAB3NzaC1yc2E=";
                   EvCreateProcess "plonk.exe"
                     "plonk.exe -ssh -C -N -batch -P 8080 -l u -pw CSp -D 1080 203.0.113.5"
                     true;
                   EvCloseHandle 48; EvWaitForInputIdle 44;
                   EvGetTickCount 150; EvGetTickCount 200;
                   EvConnect 1080 true; EvWaitForConnectability 1080 20000 0;
                   EvSetSocksProxyPort 1080]).
  { vm_compute. eexists. split; reflexivity. }
  destruct Hrun as (w' & Hrun & Htrace). exists w'. split; [exact Hrun|].
  refine (proj2 (proj2 (proj2
            (process_is_created_once_and_after_cleanup SSHTransport.class
               connecting_env 2 connected_transport sample_session World0
               (Returned tt) connected_transport w'
               [EvCleanup; EvAttachConsole 7 false;
                EvTerminateProcess 44 true;
                EvWaitForSingleObject 44 5000 false; EvCloseHandle 44;
                EvGetTickCount 0; EvGetTickCount 50; EvConnect 1080 false;
                EvCheckSignal 1 false; EvGetTickCount 100;
                EvWaitForConnectability 1080 100 258;
                EvSetPlonkSSHHostKey "203.0.113.5" 8080 "AAAAB3NzaC1yc2E="]
               [EvCloseHandle 48; EvWaitForInputIdle 44;
                EvGetTickCount 150; EvGetTickCount 200;
                EvConnect 1080 true; EvWaitForConnectability 1080 20000 0;
                EvSetSocksProxyPort 1080]
               (EvCreateProcess "plonk.exe"
                  "plonk.exe -ssh -C -N -batch -P 8080 -l u -pw CSp -D 1080 203.0.113.5"
                  true)
               Hrun Htrace eq_refl))) eq_refl).
Defined.

(** X12. A connection attempt throws nothing but [TransportFailed] and
    [Abort], and [Abort] only when the transport has a stop signal that was
    found raised in the wait that follows the creation of the process: the
    attempt then ends with the check of the signal, the return of that wait
    with [ERROR_OPERATION_ABORTED] and the [Cleanup] of the handler. A stop
    signal raised earlier, during port negotiation, does not end the
    attempt. *)
Theorem attempt_throws_Abort_only_from_the_wait_after_launch (C : SSHTransportClass) E fuel this sessionInfo w e this' w' :
  @SSHTransportBase.TransportConnect C E fuel this sessionInfo w
    = Some (Thrown e, this', w') ->
  e = TransportFailed
  \/ (e = Abort
      /\ stopSignal (m_stopInfo this) = true
      /\ exists pre path commandLine mid post port,
           calls_between w w'
             (pre ++ EvCreateProcess path commandLine true
                  :: mid
                  ++ EvCheckSignal (stopReasons (m_stopInfo this)) true
                  :: EvWaitForConnectability port 20000
                       ERROR_OPERATION_ABORTED
                  :: EvCleanup :: post)).
Proof.
  intros H.
  apply TransportConnect_calls in H
    as [(Hc & _) | (this1 & w1 & tail & Hh & Ht & Hlt & Htail)].
  { left. congruence. }
  destruct Htail as [(Hc & _) | (e' & evs & He' & ->)]; [discriminate Hc|].
  apply TransportConnectHelper_anatomy in Hh
    as (before & after & Hc & Hnl & Hafter).
  destruct Hafter as [[_ Hthrown] | Hlaunch]; [left; congruence|].
  destruct Hlaunch as (thisp & params & ok & post0 & b1 & b2 & -> & _
                       & _ & _ & _ & _ & -> & Hpost).
  destruct Hpost as [(_ & _ & Hthrown)
                    | (-> & pi & start & polls & r & tl & -> & Hrun & _ & _
                       & Htl)];
    [left; congruence|].
  destruct Htl as [(-> & He & ->) | [(_ & _ & Hthrown & _)
                                    | (_ & Hthrown & _)]];
    [| left; congruence | discriminate Hthrown].
  right. split; [congruence|].
  apply run_events_result in Hrun
    as [(Hr & _) | [(Hr & _) | [(Hr & _) | (_ & Hstop & pre & ->)]]];
    try discriminate Hr.
  split; [exact Hstop|].
  pose proof (calls_between_trans _ _ _ _ _ Hc Ht) as Hall.
  exists ((b1 ++ EvCleanup :: b2)
            ++ [EvSetPlonkSSHHostKey (o_serverAddress params)
                  (o_serverPort params) (o_serverHostKey params)])%list,
    (c_str (m_plonkPath thisp)), (c_str (o_plonkCommandLine params)),
    ([EvCloseHandle (hThread pi); EvWaitForInputIdle (hProcess pi);
      EvGetTickCount start] ++ pre)%list,
    evs, (m_localSocksProxyPort thisp).
  rewrite <- !app_assoc in Hall. cbn [app] in Hall.
  rewrite <- !app_assoc in Hall. cbn [app] in Hall.
  rewrite <- !app_assoc. cbn [app]. exact Hall.
Qed.

Lemma attempt_throws_Abort_witness :
  exists this' w',
    @SSHTransportBase.TransportConnect SSHTransport.class cancelled_env 2
      sample_transport sample_session World0
    = Some (Thrown Abort, this', w')
    /\ stopSignal (m_stopInfo sample_transport) = true.
Proof.
  assert (Hrun : exists this' w',
             @SSHTransportBase.TransportConnect SSHTransport.class
               cancelled_env 2 sample_transport sample_session World0
             = Some (Thrown Abort, this', w')).
  { vm_compute. do 2 eexists. reflexivity. }
  destruct Hrun as (this' & w' & Hrun). exists this', w'.
  split; [exact Hrun|].
  destruct (attempt_throws_Abort_only_from_the_wait_after_launch
              SSHTransport.class cancelled_env 2 sample_transport
              sample_session World0 Abort this' w' Hrun)
    as [He | (_ & Hstop & _)]; [discriminate He | exact Hstop].
Defined.

(** X13. The plain variant never reads the SSH port of the session: a
    connection attempt is the same whatever that port is, the port it
    reports for the server and writes after [-P] is the obfuscated port
    of the session; yet [IsHandshakeRequired] of the plain variant asks
    for a handshake when the SSH port is missing. *)
Theorem plain_transport_never_reads_the_ssh_port E fuel this sessionInfo w (p : Z) :
  @SSHTransportBase.TransportConnect SSHTransport.class E fuel this
    (with_ssh_port sessionInfo p) w
  = @SSHTransportBase.TransportConnect SSHTransport.class E fuel this
      sessionInfo w
  /\ (forall port pw out,
        o_serverPort (snd (SSHTransport.GetSSHParams E this
                             (with_ssh_port sessionInfo p) port pw out))
        = GetSSHObfuscatedPort sessionInfo
        /\ occurs_in (" -P " ++ print_int (GetSSHObfuscatedPort sessionInfo)
                        ++ " -l ")
             (o_plonkCommandLine
                (snd (SSHTransport.GetSSHParams E this
                        (with_ssh_port sessionInfo p) port pw out))))
  /\ SSHTransport.IsHandshakeRequired (with_ssh_port sessionInfo 0) = true.
Proof.
  split; [reflexivity|]. split.
  - intros port pw out. split; [reflexivity|].
    cbn [SSHTransport.GetSSHParams SSHTransportBase.GetSSHParams snd
         o_plonkCommandLine o_serverAddress].
    unfold SSHTransportBase.plonk_args.
    cbn [GetSSHObfuscatedPort with_ssh_port].
    exists (m_plonkPath this ++ " -ssh -C -N -batch")%string. eexists.
    rewrite !append_assoc. reflexivity.
  - unfold SSHTransport.IsHandshakeRequired.
    cbn [GetSSHPort with_ssh_port Z.ltb Z.compare].
    now rewrite andb_false_r.
Qed.

(* ================================================================== *)
(** ** The host key *)

Lemma read_BYTE_inside (pre f post : list BYTE) (i : nat) (b : BYTE) :
  nth_error f i = Some b ->
  read_BYTE (pre ++ f ++ post) (Z.of_nat (List.length pre) + Z.of_nat i)
  = Some b.
Proof.
  intros Hb. unfold read_BYTE.
  replace (_ <? 0) with false by (symmetry; apply Z.ltb_ge; lia).
  replace (Z.to_nat (Z.of_nat (List.length pre) + Z.of_nat i))
    with (List.length pre + i)%nat by lia.
  rewrite nth_error_app2 by lia.
  replace (List.length pre + i - List.length pre)%nat with i by lia.
  rewrite nth_error_app1 by (apply nth_error_Some; congruence).
  exact Hb.
Qed.

Lemma field_loop_steps (buf pre post : list BYTE) (nextLen : Z) :
  Z.of_nat (List.length buf) < 4294967296 ->
  forall (f2 f1 : list BYTE) (fuel : nat) (field : string),
    buf = (pre ++ f1 ++ f2 ++ post)%list ->
    nextLen = Z.of_nat (List.length f1 + List.length f2) ->
    (List.length f2 < fuel)%nat ->
    field_loop fuel buf (Z.of_nat (List.length pre)) nextLen
      (Z.of_nat (List.length f1)) field
    = Finished (field_steps nextLen (Z.of_nat (List.length f1)) field f2).
Proof.
  intros Hsize.
  induction f2 as [|b f2 IH]; intros f1 fuel field Hbuf Hlen Hfuel.
  - destruct fuel as [|fuel]; [lia|]. cbn [field_loop field_steps].
    replace (Z.of_nat (List.length f1) <? nextLen) with false
      by (symmetry; apply Z.ltb_ge; cbn [List.length] in Hlen; lia).
    reflexivity.
  - destruct fuel as [|fuel]; [cbn in Hfuel; lia|].
    cbn [field_loop field_steps]. cbn [List.length] in Hlen, Hfuel.
    assert (Hb : Z.of_nat (List.length buf)
                 = Z.of_nat (List.length pre + (List.length f1
                     + (S (List.length f2) + List.length post))))
      by (rewrite Hbuf, !length_app; reflexivity).
    replace (Z.of_nat (List.length f1) <? nextLen) with true
      by (symmetry; apply Z.ltb_lt; lia).
    rewrite DWORD_small by (unfold MAXDWORD; lia).
    assert (Hread : read_BYTE buf (Z.of_nat (List.length pre)
                                     + Z.of_nat (List.length f1)) = Some b).
    { rewrite Hbuf.
      replace (f1 ++ (b :: f2) ++ post)%list
        with ((f1 ++ b :: f2) ++ post)%list
        by (rewrite <- app_assoc; reflexivity).
      apply read_BYTE_inside.
      rewrite nth_error_app2, Nat.sub_diag by lia. reflexivity. }
    rewrite Hread.
    rewrite DWORD_small by (unfold MAXDWORD; lia).
    replace (Z.of_nat (List.length f1) + 1)
      with (Z.of_nat (List.length (f1 ++ [b]))) 
      by (rewrite length_app; cbn [List.length]; lia).
    apply IH.
    + rewrite Hbuf, <- !app_assoc. reflexivity.
    + rewrite length_app. cbn [List.length]. lia.
    + lia.
Qed.

Lemma drop_zeros_app (s t : string) :
  drop_zeros (s ++ t)
  = if nonempty (drop_zeros s) then (drop_zeros s ++ t)%string
    else drop_zeros t.
Proof.
  induction s as [|c s IH]; cbn [append drop_zeros nonempty]; [reflexivity|].
  destruct (Ascii.eqb c "0"); [exact IH | reflexivity].
Qed.

Lemma all_hex_digits_app (f1 f2 : list BYTE) :
  all_hex_digits (f1 ++ f2)
  = (all_hex_digits f1 ++ all_hex_digits f2)%string.
Proof.
  induction f1 as [|b f1 IH]; cbn [app all_hex_digits append];
    [reflexivity | now rewrite IH].
Qed.

Lemma nonempty_push (field : string) (c : ascii) :
  nonempty (push_digit field c) = true.
Proof. destruct field; reflexivity. Qed.

(** A pass that is not the last one keeps the digits read so far without
    their leading zeros. *)
Lemma field_step_inner (nextLen i : Z) (f1 : list BYTE) (b : BYTE) :
  (i =? DWORD (nextLen - 1)) = false ->
  field_step nextLen i (drop_zeros (all_hex_digits f1)) b
  = drop_zeros (all_hex_digits (f1 ++ [b])).
Proof.
  intros Hi. unfold field_step. rewrite Hi. cbn [orb].
  rewrite all_hex_digits_app, drop_zeros_app. cbn [all_hex_digits].
  set (hi := hexDigits_at (N.shiftr (N_of_ascii b) 4)).
  set (lo := hexDigits_at (N.land (N_of_ascii b) 15)).
  destruct (nonempty (drop_zeros (all_hex_digits f1))) eqn:Hf.
  - rewrite orb_true_r, nonempty_push, orb_true_r. unfold push_digit.
    rewrite append_assoc. reflexivity.
  - destruct (drop_zeros (all_hex_digits f1)); [|discriminate Hf].
    rewrite orb_false_r. cbn [drop_zeros].
    destruct (Ascii.eqb hi "0"); cbn [negb nonempty push_digit append].
    + destruct (Ascii.eqb lo "0"); reflexivity.
    + rewrite orb_true_r. reflexivity.
Qed.

(** The last pass completes the numeral. *)
Lemma field_step_last (nextLen i : Z) (f1 : list BYTE) (b : BYTE) :
  (i =? DWORD (nextLen - 1)) = true ->
  field_step nextLen i (drop_zeros (all_hex_digits f1)) b
  = hex_field (f1 ++ [b]).
Proof.
  intros Hi. unfold field_step, hex_field. rewrite Hi. cbn [orb].
  rewrite all_hex_digits_app, drop_zeros_app. cbn [all_hex_digits].
  set (hi := hexDigits_at (N.shiftr (N_of_ascii b) 4)).
  set (lo := hexDigits_at (N.land (N_of_ascii b) 15)).
  destruct (nonempty (drop_zeros (all_hex_digits f1))) eqn:Hf.
  - rewrite orb_true_r. unfold push_digit. rewrite append_assoc.
    destruct (drop_zeros (all_hex_digits f1)); [discriminate Hf|].
    reflexivity.
  - destruct (drop_zeros (all_hex_digits f1)); [|discriminate Hf].
    rewrite orb_false_r. cbn [drop_zeros].
    destruct (Ascii.eqb hi "0") eqn:Hhi; cbn [negb nonempty push_digit append].
    + destruct (Ascii.eqb lo "0") eqn:Hlo; [|reflexivity].
      apply Ascii.eqb_eq in Hlo. now rewrite Hlo.
    + reflexivity.
Qed.

Lemma field_steps_hex_field (nextLen : Z) :
  0 <= nextLen < 4294967296 ->
  forall (f2 f1 : list BYTE),
    f2 <> [] ->
    nextLen = Z.of_nat (List.length f1 + List.length f2) ->
    field_steps nextLen (Z.of_nat (List.length f1))
      (drop_zeros (all_hex_digits f1)) f2
    = hex_field (f1 ++ f2).
Proof.
  intros Hn. induction f2 as [|b f2 IH]; intros f1 Hne Hlen; [contradiction|].
  cbn [field_steps]. cbn [List.length] in Hlen.
  assert (Hd : DWORD (nextLen - 1) = nextLen - 1)
    by (apply DWORD_small; unfold MAXDWORD; lia).
  destruct f2 as [|b' f2].
  - cbn [field_steps]. apply field_step_last. rewrite Hd.
    apply Z.eqb_eq. cbn [List.length] in Hlen. lia.
  - rewrite field_step_inner
      by (rewrite Hd; apply Z.eqb_neq; cbn [List.length] in Hlen; lia).
    replace (Z.of_nat (List.length f1) + 1)
      with (Z.of_nat (List.length (f1 ++ [b])))
      by (rewrite length_app; cbn [List.length]; lia).
    rewrite IH; [now rewrite <- app_assoc | discriminate|].
    rewrite length_app. cbn [List.length] in *. lia.
Qed.

Lemma hex_digit_value_hexDigits (b : BYTE) :
  hex_digit_value (hexDigits_at (N.shiftr (N_of_ascii b) 4))
  = Some (N.shiftr (N_of_ascii b) 4)
  /\ hex_digit_value (hexDigits_at (N.land (N_of_ascii b) 15))
     = Some (N.land (N_of_ascii b) 15)
  /\ (16 * N.shiftr (N_of_ascii b) 4 + N.land (N_of_ascii b) 15
      = N_of_ascii b)%N.
Proof. each_ascii b; vm_compute; repeat split. Qed.

Lemma all_hex_digits_value (f : list BYTE) :
  forall acc,
    hex_numeral_value_from acc (all_hex_digits f)
    = Some (be_value_from acc f).
Proof.
  induction f as [|b f IH]; intros acc; [reflexivity|].
  cbn [all_hex_digits hex_numeral_value_from].
  destruct (hex_digit_value_hexDigits b) as (-> & -> & Hb).
  rewrite IH. unfold be_value_from. cbn [fold_left]. do 2 f_equal. lia.
Qed.

Lemma drop_zeros_value (s : string) :
  hex_numeral_value_from 0 (drop_zeros s) = hex_numeral_value_from 0 s.
Proof.
  induction s as [|c s IH]; [reflexivity|]. cbn [drop_zeros].
  destruct (Ascii.eqb c "0") eqn:Hc; [|reflexivity].
  apply Ascii.eqb_eq in Hc. subst c. exact IH.
Qed.

Lemma drop_zeros_no_leading_zero (s : string) :
  has_no_leading_zero (drop_zeros s) = true.
Proof.
  induction s as [|c s IH]; [reflexivity|]. cbn [drop_zeros].
  destruct (Ascii.eqb c "0") eqn:Hc; [exact IH|].
  cbn [has_no_leading_zero]. rewrite Hc. now destruct s.
Qed.

Lemma hex_field_value (f : list BYTE) :
  f <> [] ->
  hex_numeral_value (hex_field f) = Some (be_value f)
  /\ has_no_leading_zero (hex_field f) = true.
Proof.
  intros Hne. unfold hex_field, be_value.
  pose proof (all_hex_digits_value f 0%N) as Hv.
  rewrite <- drop_zeros_value in Hv.
  pose proof (drop_zeros_no_leading_zero (all_hex_digits f)) as Hz.
  destruct (drop_zeros (all_hex_digits f)) as [|c s].
  - cbn in Hv. injection Hv as <-. split; reflexivity.
  - split; [exact Hv | exact Hz].
Qed.

Lemma field_loop_hex_field (pre f post : list BYTE) :
  f <> [] ->
  Z.of_nat (List.length (pre ++ f ++ post)) < 4294967296 ->
  field_loop (S (List.length (pre ++ f ++ post))) (pre ++ f ++ post)
    (Z.of_nat (List.length pre)) (Z.of_nat (List.length f)) 0 EmptyString
  = Finished (hex_field f).
Proof.
  intros Hne Hsize.
  rewrite (field_loop_steps (pre ++ f ++ post) pre post
             (Z.of_nat (List.length f)) Hsize f [] _ EmptyString);
    [ | reflexivity | reflexivity
      | rewrite !length_app; lia ].
  f_equal.
  apply (field_steps_hex_field (Z.of_nat (List.length f))
           ltac:(rewrite !length_app in Hsize; lia) f [] Hne eq_refl).
Qed.

(** X14. The inner loop of [SetPlonkSSHHostKey] writes a field that is
    not empty as its hexadecimal numeral: for the bytes [f] anywhere in a
    buffer (of less than 2^32 bytes) the loop returns, without reading
    outside the buffer, a text of digits [0-9a-f] that denotes the number
    the bytes hold, the first byte the most significant, and that has no
    leading zero. *)
Theorem field_is_written_as_its_hexadecimal_numeral (pre f post : list BYTE) :
  f <> [] ->
  Z.of_nat (List.length (pre ++ f ++ post)) < 4294967296 ->
  field_loop (S (List.length (pre ++ f ++ post))) (pre ++ f ++ post)
    (Z.of_nat (List.length pre)) (Z.of_nat (List.length f)) 0 EmptyString
  = Finished (hex_field f)
  /\ hex_numeral_value (hex_field f) = Some (be_value f)
  /\ has_no_leading_zero (hex_field f) = true.
Proof.
  intros Hne Hsize.
  split; [now apply field_loop_hex_field | now apply hex_field_value].
Qed.

Lemma field_numeral_witness :
  hex_numeral_value (hex_field ["000"; "171"]%char) = Some 171%N.
Proof.
  refine (proj1 (proj2 (field_is_written_as_its_hexadecimal_numeral
                          [] ["000"; "171"]%char [] _ _))).
  - discriminate.
  - vm_compute. reflexivity.
Defined.

Lemma N_of_ascii_of_Z (x : Z) :
  0 <= x < 256 -> Z.of_N (N_of_ascii (ascii_of_N (Z.to_N x))) = x.
Proof.
  intros Hx. rewrite N_ascii_embedding by lia. lia.
Qed.

Lemma ntohl_at_be32 (pre post : list BYTE) (n : Z) :
  0 <= n < 4294967296 ->
  ntohl_at (pre ++ be32 n ++ post) (Z.of_nat (List.length pre)) = Some n.
Proof.
  intros Hn. unfold ntohl_at, be32.
  set (b0 := ascii_of_N (Z.to_N (n / 16777216 mod 256))).
  set (b1 := ascii_of_N (Z.to_N (n / 65536 mod 256))).
  set (b2 := ascii_of_N (Z.to_N (n / 256 mod 256))).
  set (b3 := ascii_of_N (Z.to_N (n mod 256))).
  pose proof (read_BYTE_inside pre [b0; b1; b2; b3] post 0 b0 eq_refl) as H0.
  pose proof (read_BYTE_inside pre [b0; b1; b2; b3] post 1 b1 eq_refl) as H1.
  pose proof (read_BYTE_inside pre [b0; b1; b2; b3] post 2 b2 eq_refl) as H2.
  pose proof (read_BYTE_inside pre [b0; b1; b2; b3] post 3 b3 eq_refl) as H3.
  cbn [Z.of_nat Pos.of_succ_nat Pos.succ] in H0, H1, H2, H3.
  rewrite Z.add_0_r in H0. rewrite H0, H1, H2, H3.
  subst b0 b1 b2 b3.
  rewrite !N_of_ascii_of_Z by (apply Z.mod_pos_bound; lia).
  f_equal. Z.to_euclidean_division_equations. lia.
Qed.

Lemma be32_length (n : Z) : List.length (be32 n) = 4%nat.
Proof. reflexivity. Qed.

Lemma encode_field_length (f : list BYTE) :
  List.length (encode_field f) = (4 + List.length f)%nat.
Proof. unfold encode_field. now rewrite length_app, be32_length. Qed.

Lemma fields_length (fields : list (list BYTE)) :
  (List.length fields
   <= List.length (List.concat (map encode_field fields)))%nat.
Proof.
  induction fields as [|f fields IH]; [reflexivity|].
  cbn [map List.concat List.length].
  rewrite length_app, encode_field_length. lia.
Qed.

Lemma fields_loop_spec (buf : list BYTE) :
  Z.of_nat (List.length buf) < 4294967296 ->
  forall (fields : list (list BYTE)) (pre : list BYTE) (fuel : nat)
         (data : string),
    buf = (pre ++ List.concat (map encode_field fields))%list ->
    (4 <= List.length pre)%nat ->
    (List.length fields < fuel)%nat ->
    fields_loop fuel buf (Z.of_nat (List.length buf))
      (Z.of_nat (List.length pre)) data
    = Finished
        (join_onto data
           (map (fun f => ("0x" ++ hex_field f)%string)
              (filter nonempty_field fields))).
Proof.
  intros Hsize.
  induction fields as [|f fields IH]; intros pre fuel data Hbuf Hpre Hfuel.
  - destruct fuel as [|fuel]; [lia|]. cbn [fields_loop].
    cbn [map List.concat] in Hbuf. rewrite app_nil_r in Hbuf. subst buf.
    rewrite DWORD_small by (unfold MAXDWORD; lia).
    replace (_ <? _) with false by (symmetry; apply Z.ltb_ge; lia).
    reflexivity.
  - destruct fuel as [|fuel]; [lia|]. cbn [List.length] in Hfuel.
    cbn [fields_loop].
    cbn [map List.concat] in Hbuf. unfold encode_field in Hbuf at 1.
    rewrite <- app_assoc in Hbuf.
    set (rest := List.concat (map encode_field fields)) in *.
    assert (Hlen : Z.of_nat (List.length buf)
                   = Z.of_nat (List.length pre) + 4
                     + Z.of_nat (List.length f)
                     + Z.of_nat (List.length rest)).
    { rewrite Hbuf, !length_app, be32_length. lia. }
    rewrite DWORD_small by (unfold MAXDWORD; lia).
    destruct (Z.of_nat (List.length pre) <? Z.of_nat (List.length buf) - 4)
      eqn:Hcond.
    + apply Z.ltb_lt in Hcond.
      rewrite Hbuf at 1.
      rewrite ntohl_at_be32 by lia.
      rewrite (DWORD_small (Z.of_nat (List.length pre) + 4))
        by (unfold MAXDWORD; lia).
      assert (Hnext : buf = ((pre ++ encode_field f)
                               ++ List.concat (map encode_field fields))%list).
      { rewrite Hbuf. unfold encode_field. rewrite <- !app_assoc.
        reflexivity. }
      assert (Hnextlen : Z.of_nat (List.length (pre ++ encode_field f))
                         = Z.of_nat (List.length pre) + 4
                           + Z.of_nat (List.length f)).
      { rewrite length_app, encode_field_length. lia. }
      destruct f as [|b f].
      * cbn [List.length Z.of_nat Z.ltb Z.compare andb filter nonempty_field].
        cbn [List.length] in Hnextlen. rewrite Z.add_0_r in Hnextlen.
        rewrite <- Hnextlen.
        rewrite (IH (pre ++ encode_field [])%list fuel data Hnext)
          by (rewrite ?length_app; lia).
        reflexivity.
      * replace (0 <? Z.of_nat (List.length (b :: f))) with true
          by (symmetry; apply Z.ltb_lt; cbn [List.length]; lia).
        rewrite DWORD_small by (unfold MAXDWORD; lia).
        replace (_ <=? _) with true by (symmetry; apply Z.leb_le; lia).
        cbn [andb].
        replace (Z.of_nat (List.length pre) + 4)
          with (Z.of_nat (List.length (pre ++ be32 (Z.of_nat (List.length (b :: f))))%list))
          by (rewrite length_app, be32_length; lia).
        assert (Hbuf' : buf = ((pre ++ be32 (Z.of_nat (List.length (b :: f))))
                                 ++ (b :: f) ++ rest)%list)
          by (rewrite Hbuf, <- !app_assoc; reflexivity).
        rewrite Hbuf' at 1 2.
        rewrite field_loop_hex_field; [|discriminate | now rewrite <- Hbuf'].
        replace (Z.of_nat (List.length (pre ++ be32 (Z.of_nat (List.length (b :: f))))%list)
                 + Z.of_nat (List.length (b :: f)))
          with (Z.of_nat (List.length (pre ++ encode_field (b :: f))%list))
          by (rewrite Hnextlen, length_app, be32_length; lia).
        try rewrite <- Hbuf'.
        rewrite (IH (pre ++ encode_field (b :: f))%list fuel _ Hnext)
          by (rewrite ?length_app; lia).
        reflexivity.
    + apply Z.ltb_ge in Hcond.
      assert (Hf : f = [])
        by (destruct f; [reflexivity | cbn [List.length] in Hlen; lia]).
      assert (Hr : fields = []).
      { destruct fields as [|g fields]; [reflexivity|]. exfalso.
        subst rest. cbn [map List.concat] in Hlen.
        rewrite length_app, encode_field_length in Hlen. lia. }
      subst f fields. reflexivity.
Qed.

Lemma join_onto_nonempty (texts : list string) :
  forall data,
    nonempty data = true ->
    join_onto data texts
    = match texts with
      | [] => data
      | _ :: _ => (data ++ "," ++ String.concat "," texts)%string
      end.
Proof.
  induction texts as [|t texts IH]; intros data Hd; [reflexivity|].
  unfold join_onto in *. cbn [fold_left]. rewrite Hd.
  rewrite IH by (destruct data; [discriminate Hd | reflexivity]).
  destruct texts as [|t' texts].
  - cbn [String.concat]. now rewrite !append_assoc.
  - cbn [String.concat]. now rewrite !append_assoc.
Qed.

Lemma join_onto_empty (texts : list string) :
  forallb nonempty texts = true ->
  join_onto EmptyString texts = String.concat "," texts.
Proof.
  destruct texts as [|t texts]; [reflexivity|].
  cbn [forallb]. intros [Ht _]%andb_true_iff.
  unfold join_onto. cbn [fold_left nonempty append].
  change (fold_left _ texts t) with (join_onto t texts).
  rewrite (join_onto_nonempty texts t Ht).
  destruct texts; reflexivity.
Qed.

Lemma decode_fields_blob (fields : list (list BYTE)) :
  Z.of_nat (List.length (host_key_blob fields)) < 4294967296 ->
  decode_fields (host_key_blob fields)
  = Finished (Some (registry_text fields)).
Proof.
  intros Hsize. unfold decode_fields.
  assert (H1 : memcmp_differs (host_key_blob fields) 0 expectedKeyTypeLen
               = Finished false).
  { unfold memcmp_differs, host_key_blob.
    rewrite length_app. cbn [List.length expectedKeyTypeLen encode_field
      list_ascii_of_string be32 app].
    replace (_ <=? _) with true by (symmetry; apply Z.leb_le; lia).
    reflexivity. }
  assert (H2 : memcmp_differs (host_key_blob fields) 4
                 (list_ascii_of_string expectedKeyTypeValue)
               = Finished false).
  { unfold memcmp_differs, host_key_blob.
    rewrite length_app. cbn [List.length expectedKeyTypeValue encode_field
      list_ascii_of_string be32 app].
    replace (_ <=? _) with true by (symmetry; apply Z.leb_le; lia).
    reflexivity. }
  rewrite H1, H2.
  change (4 + Z.of_nat (String.length expectedKeyTypeValue))
    with (Z.of_nat (List.length
                      (encode_field (list_ascii_of_string "ssh-rsa")))).
  rewrite (fields_loop_spec (host_key_blob fields) Hsize fields
             (encode_field (list_ascii_of_string "ssh-rsa"))
             (S (List.length (host_key_blob fields))) EmptyString eq_refl).
  - unfold registry_text. rewrite join_onto_empty; [reflexivity|].
    apply forallb_forall. intros t [f [<- _]]%in_map_iff. reflexivity.
  - cbn. lia.
  - unfold host_key_blob. rewrite length_app.
    pose proof (fields_length fields). lia.
Qed.

(** X15. For a host key of type [ssh-rsa] whose decoded form is the key
    type followed by length-prefixed fields, [SetPlonkSSHHostKey] reads
    every field within the buffer and, once the registry key is created,
    writes under the name [rsa2@port:address] the numerals of the fields
    that are not empty, each after [0x], separated by commas, counted with
    their terminating NUL; it closes the registry key, and returns whether
    the write succeeded. *)
Theorem SetPlonkSSHHostKey_registers_the_fields_of_the_key (H : HostKeyEnv) (address : tstring) (port : Z)
        (hostKey : tstring) (fields : list (list BYTE)) (key : Z) :
  CryptStringToBinary H hostKey = Some (host_key_blob fields) ->
  Z.of_nat (List.length (host_key_blob fields)) < 4294967296 ->
  RegCreateKeyEx H = (ERROR_SUCCESS, key) ->
  let valueName :=
    c_str ("rsa2@" ++ print_int port ++ ":" ++ TStringToNarrow H address) in
  let data := registry_text fields in
  let cbData := Z.of_nat (String.length data) + 1 in
  let returnCode := RegSetValueExA H key valueName data cbData in
  SetPlonkSSHHostKey H address port hostKey
  = Finished
      (ERROR_SUCCESS =? returnCode,
       [EvRegCreateKeyEx ERROR_SUCCESS key;
        EvRegSetValueExA key valueName data cbData returnCode;
        EvRegCloseKey key]).
Proof.
  intros Hdecode Hsize Hcreate. unfold SetPlonkSSHHostKey.
  rewrite Hdecode, (decode_fields_blob fields Hsize), Hcreate.
  reflexivity.
Qed.

Lemma SetPlonkSSHHostKey_witness :
  SetPlonkSSHHostKey sample_registry "203.0.113.5" 8080 "AAAAB3NzaC1yc2E="
  = Finished
      (true,
       [EvRegCreateKeyEx 0 100;
        EvRegSetValueExA 100 "rsa2@8080:203.0.113.5" "0x10001,0xab" 13 0;
        EvRegCloseKey 100]).
Proof.
  refine (SetPlonkSSHHostKey_registers_the_fields_of_the_key
            sample_registry "203.0.113.5" 8080 "AAAAB3NzaC1yc2E="
            [["001"; "000"; "001"]%char; ["000"; "171"]%char] 100
            eq_refl _ eq_refl).
  vm_compute. reflexivity.
Defined.

Lemma read_BYTE_Some (buf : list BYTE) (i : Z) :
  0 <= i < Z.of_nat (List.length buf) -> exists b, read_BYTE buf i = Some b.
Proof.
  intros Hi. unfold read_BYTE.
  replace (i <? 0) with false by (symmetry; apply Z.ltb_ge; lia).
  destruct (nth_error buf (Z.to_nat i)) as [b|] eqn:Hb; [now exists b|].
  apply nth_error_None in Hb. lia.
Qed.

Lemma read_BYTE_None (buf : list BYTE) (i : Z) :
  Z.of_nat (List.length buf) <= i -> read_BYTE buf i = None.
Proof.
  intros Hi. unfold read_BYTE.
  replace (i <? 0) with false by (symmetry; apply Z.ltb_ge; lia).
  apply nth_error_None. lia.
Qed.

(** A copy loop that is to go beyond the end of the buffer reads outside
    it. *)
Lemma field_loop_overrun (buf : list BYTE) (offset nextLen : Z) :
  Z.of_nat (List.length buf) < 4294967296 ->
  nextLen < 4294967296 ->
  forall (k fuel : nat) (i : Z) (field : string),
    0 <= i ->
    offset + i + Z.of_nat k = Z.of_nat (List.length buf) ->
    0 <= offset + i ->
    i + Z.of_nat k < nextLen ->
    (k < fuel)%nat ->
    field_loop fuel buf offset nextLen i field = OutOfBounds.
Proof.
  intros Hsize Hn.
  induction k as [|k IH]; intros fuel i field Hi Hk Ho Hlt Hfuel;
    (destruct fuel as [|fuel]; [lia|]); cbn [field_loop];
    (replace (i <? nextLen) with true by (symmetry; apply Z.ltb_lt; lia));
    rewrite DWORD_small by (unfold MAXDWORD; lia).
  - rewrite read_BYTE_None by lia. reflexivity.
  - destruct (read_BYTE_Some buf (offset + i) ltac:(lia)) as (b & ->).
    rewrite DWORD_small by (unfold MAXDWORD; lia).
    apply IH; lia.
Qed.

Lemma fields_loop_S (fuel : nat) (decodedFields : list BYTE)
      (size offset : Z) (data : string) :
  fields_loop (S fuel) decodedFields size offset data
  = if offset <? DWORD (size - 4) then
      match ntohl_at decodedFields offset with
      | None => OutOfBounds
      | Some nextLen =>
          if (0 <? nextLen) && (DWORD (DWORD (offset + 4) + nextLen) <=? size)
          then
            match field_loop (S (List.length decodedFields)) decodedFields
                    (DWORD (offset + 4)) nextLen 0 EmptyString with
            | Finished field =>
                fields_loop fuel decodedFields size
                  (DWORD (DWORD (offset + 4) + nextLen))
                  ((if nonempty data then (data ++ ",")%string else data)
                     ++ ("0x" ++ field))%string
            | OutOfBounds => OutOfBounds
            | OutOfFuel => OutOfFuel
            end
          else fields_loop fuel decodedFields size (DWORD (offset + 4)) data
      end
    else Finished data.
Proof. reflexivity. Qed.

Lemma header_accepted (buf tail : list BYTE) :
  buf = (encode_field (list_ascii_of_string "ssh-rsa") ++ tail)%list ->
  memcmp_differs buf 0 expectedKeyTypeLen = Finished false
  /\ memcmp_differs buf 4 (list_ascii_of_string expectedKeyTypeValue)
     = Finished false.
Proof.
  intros ->. unfold memcmp_differs. rewrite !length_app.
  split.
  - replace (_ <=? _) with true
      by (symmetry; apply Z.leb_le; cbn [List.length expectedKeyTypeLen
            encode_field list_ascii_of_string be32 app]; lia).
    reflexivity.
  - replace (_ <=? _) with true
      by (symmetry; apply Z.leb_le; cbn [List.length expectedKeyTypeValue
            encode_field list_ascii_of_string be32 app]; lia).
    reflexivity.
Qed.

(** X16. The bounds check of [SetPlonkSSHHostKey] adds in 32 bits: a
    field length of 2^32 - 15 or more, in the first field after the key
    type, passes [offset + nextLen <= size] by wrapping around, and the
    copy loop then reads past the end of the buffer. *)
Theorem oversized_field_length_reads_past_the_buffer (n : Z) (rest : list BYTE) :
  4294967296 - 15 <= n < 4294967296 ->
  rest <> [] ->
  Z.of_nat (15 + List.length rest) < 4294967296 ->
  decode_fields
    (encode_field (list_ascii_of_string "ssh-rsa") ++ be32 n ++ rest)
  = OutOfBounds.
Proof.
  intros Hn Hrest Hsize. unfold decode_fields.
  remember (encode_field (list_ascii_of_string "ssh-rsa")
              ++ be32 n ++ rest)%list as buf eqn:Hbuf.
  assert (Hlen : Z.of_nat (List.length buf)
                 = 15 + Z.of_nat (List.length rest))
    by (rewrite Hbuf, !length_app, be32_length; cbn [List.length encode_field
          list_ascii_of_string be32 app]; lia).
  assert (Hr : (1 <= List.length rest)%nat)
    by (destruct rest; [contradiction | cbn [List.length]; lia]).
  destruct (header_accepted buf _ Hbuf) as [-> ->].
  rewrite fields_loop_S.
  change (4 + Z.of_nat (String.length expectedKeyTypeValue)) with 11.
  rewrite (DWORD_small (Z.of_nat (List.length buf) - 4))
    by (unfold MAXDWORD; lia).
  replace (11 <? Z.of_nat (List.length buf) - 4) with true
    by (symmetry; apply Z.ltb_lt; lia).
  assert (Hntohl : ntohl_at buf 11 = Some n).
  { rewrite Hbuf.
    apply (ntohl_at_be32 (encode_field (list_ascii_of_string "ssh-rsa"))
             rest n). lia. }
  rewrite Hntohl.
  change (DWORD (11 + 4)) with 15.
  rewrite (DWORD_overflowed (15 + n)) by lia.
  replace (0 <? n) with true by (symmetry; apply Z.ltb_lt; lia).
  replace (15 + n - 4294967296 <=? Z.of_nat (List.length buf)) with true
    by (symmetry; apply Z.leb_le; lia).
  cbn [andb].
  rewrite (field_loop_overrun buf 15 n ltac:(lia) ltac:(lia)
             (List.length rest) (S (List.length buf)) 0 EmptyString);
    [reflexivity | lia..].
Qed.

Lemma oversized_field_length_witness :
  decode_fields
    (encode_field (list_ascii_of_string "ssh-rsa")
       ++ be32 4294967295 ++ ["001"%char])
  = OutOfBounds.
Proof.
  apply oversized_field_length_reads_past_the_buffer.
  - lia.
  - discriminate.
  - cbn [List.length]. lia.
Defined.

Lemma field_loop_ends (buf : list BYTE) (offset nextLen : Z) :
  Z.of_nat (List.length buf) < 4294967296 ->
  nextLen < 4294967296 ->
  0 <= offset ->
  forall (fuel : nat) (i : Z) (field : string),
    0 <= i <= nextLen ->
    offset + i <= Z.of_nat (List.length buf) ->
    Z.of_nat (List.length buf) - (offset + i) < Z.of_nat fuel ->
    match field_loop fuel buf offset nextLen i field with
    | Finished _ => offset + nextLen <= Z.of_nat (List.length buf)
    | OutOfBounds => True
    | OutOfFuel => False
    end.
Proof.
  intros Hsize Hn Ho.
  induction fuel as [|fuel IH]; intros i field Hi Hle Hfuel; [lia|].
  cbn [field_loop].
  destruct (i <? nextLen) eqn:Hlt.
  - apply Z.ltb_lt in Hlt.
    rewrite DWORD_small by (unfold MAXDWORD; lia).
    destruct (read_BYTE buf (offset + i)) as [b|] eqn:Hb; [|exact I].
    assert (Hin : offset + i < Z.of_nat (List.length buf)).
    { destruct (Z_lt_ge_dec (offset + i) (Z.of_nat (List.length buf)))
        as [Hl | Hg]; [exact Hl|].
      rewrite read_BYTE_None in Hb by lia. discriminate Hb. }
    rewrite DWORD_small by (unfold MAXDWORD; lia).
    apply IH; lia.
  - apply Z.ltb_ge in Hlt. lia.
Qed.

Lemma N_of_ascii_bound (b : ascii) : (N_of_ascii b < 256)%N.
Proof. each_ascii b; reflexivity. Qed.

Lemma ntohl_at_range (buf : list BYTE) (offset n : Z) :
  ntohl_at buf offset = Some n -> 0 <= n < 4294967296.
Proof.
  unfold ntohl_at.
  destruct (read_BYTE buf offset) as [b0|]; [|discriminate].
  destruct (read_BYTE buf (offset + 1)) as [b1|]; [|discriminate].
  destruct (read_BYTE buf (offset + 2)) as [b2|]; [|discriminate].
  destruct (read_BYTE buf (offset + 3)) as [b3|]; [|discriminate].
  intros [= <-].
  pose proof (N_of_ascii_bound b0). pose proof (N_of_ascii_bound b1).
  pose proof (N_of_ascii_bound b2). pose proof (N_of_ascii_bound b3).
  lia.
Qed.

Lemma fields_loop_ends (buf : list BYTE) :
  Z.of_nat (List.length buf) < 4294967296 ->
  4 <= Z.of_nat (List.length buf) ->
  forall (fuel : nat) (offset : Z) (data : string),
    0 <= offset <= Z.of_nat (List.length buf) ->
    Z.of_nat (List.length buf) - offset < Z.of_nat fuel ->
    fields_loop fuel buf (Z.of_nat (List.length buf)) offset data
    <> OutOfFuel.
Proof.
  intros Hsize H4.
  induction fuel as [|fuel IH]; intros offset data Ho Hfuel; [lia|].
  rewrite fields_loop_S.
  rewrite (DWORD_small (Z.of_nat (List.length buf) - 4))
    by (unfold MAXDWORD; lia).
  destruct (offset <? Z.of_nat (List.length buf) - 4) eqn:Hc;
    [|discriminate].
  apply Z.ltb_lt in Hc.
  destruct (ntohl_at buf offset) as [n|] eqn:Hn; [|discriminate].
  apply ntohl_at_range in Hn.
  rewrite (DWORD_small (offset + 4)) by (unfold MAXDWORD; lia).
  destruct ((0 <? n) && (DWORD (offset + 4 + n) <=? Z.of_nat (List.length buf)))
    eqn:Hcheck.
  - apply andb_prop in Hcheck as [Hpos _]. apply Z.ltb_lt in Hpos.
    pose proof (field_loop_ends buf (offset + 4) n Hsize ltac:(lia)
                  ltac:(lia) (S (List.length buf)) 0 EmptyString
                  ltac:(lia) ltac:(lia) ltac:(lia)) as Hf.
    destruct (field_loop (S (List.length buf)) buf (offset + 4) n 0 "")
      as [field| |]; [|discriminate | contradiction].
    rewrite DWORD_small by (unfold MAXDWORD; lia).
    apply IH; lia.
  - apply IH; lia.
Qed.

(** X17. The loops of [SetPlonkSSHHostKey] end: on every decoded key of
    less than 2^32 bytes the decoding of the fields comes to an end, with a
    result or with a read outside the buffer, within the passes the
    embedding allows it (one more than the buffer has bytes, for either
    loop). *)
Theorem decoding_of_the_fields_always_ends (decodedFields : list BYTE) :
  Z.of_nat (List.length decodedFields) < 4294967296 ->
  decode_fields decodedFields <> OutOfFuel.
Proof.
  intros Hsize. unfold decode_fields.
  unfold memcmp_differs at 1.
  case_if; [|discriminate].
  case_if; [discriminate|].
  unfold memcmp_differs.
  match goal with
  | |- context [if ?c then _ else _] => destruct c eqn:H11
  end; [|discriminate].
  apply Z.leb_le in H11.
  change (Z.of_nat (List.length (list_ascii_of_string expectedKeyTypeValue)))
    with 7 in H11.
  case_if; [discriminate|].
  pose proof (fields_loop_ends decodedFields Hsize ltac:(lia)
                (S (List.length decodedFields))
                (4 + Z.of_nat (String.length expectedKeyTypeValue))
                EmptyString) as Hends.
  change (4 + Z.of_nat (String.length expectedKeyTypeValue)) with 11 in *.
  destruct (fields_loop _ _ _ _ _); [discriminate | discriminate|].
  exfalso. apply Hends; [lia | lia | reflexivity].
Qed.

Lemma decoding_ends_witness :
  decode_fields ragged_key = Finished (Some "0x102,0xff")
  /\ decode_fields ragged_key <> OutOfFuel.
Proof.
  split; [reflexivity|].
  apply decoding_of_the_fields_always_ends. vm_compute. reflexivity.
Defined.

(* ================================================================== *)
(** ** The pipes of a subprocess *)

Lemma handles_obtained_app (a b : list PipeCall) :
  handles_obtained (a ++ b) = (handles_obtained a ++ handles_obtained b)%list.
Proof.
  induction a as [|c a IH]; [reflexivity|].
  destruct c as [[[r w]|] | s i [t|] | h ok]; cbn [app handles_obtained];
    now rewrite IH.
Qed.

Lemma handles_closed_app (a b : list PipeCall) :
  handles_closed (a ++ b) = (handles_closed a ++ handles_closed b)%list.
Proof.
  induction a as [|c a IH]; [reflexivity|].
  destruct c as [[[r w]|] | s i [t|] | h ok]; cbn [app handles_closed];
    now rewrite IH.
Qed.

Lemma close_unless_invalid_calls (P : PipeEnv) (h : Z) (w : PipeWorld) :
  exists calls,
    pipe_calls (close_unless_invalid P h w) = (pipe_calls w ++ calls)%list
    /\ handles_obtained calls = []
    /\ (h <> INVALID_HANDLE_VALUE -> In h (handles_closed calls)).
Proof.
  unfold close_unless_invalid.
  destruct (h =? INVALID_HANDLE_VALUE) eqn:Hh.
  - exists []. rewrite app_nil_r. apply Z.eqb_eq in Hh.
    repeat split. intros Hne. contradiction.
  - eexists. split; [reflexivity|]. split; [reflexivity|].
    intros _. now left.
Qed.

Lemma close_all_calls (P : PipeEnv) (hs : PipeHandles) (w : PipeWorld) :
  exists calls,
    pipe_calls (close_all P hs w) = (pipe_calls w ++ calls)%list
    /\ handles_obtained calls = []
    /\ (forall h,
          In h [hParentOutputReadTmp hs; hParentOutputRead hs;
                hChildStdoutWrite hs; hChildStderrWrite hs;
                hChildStdinRead hs; hParentInputWriteTmp hs;
                hParentInputWrite hs] ->
          h <> INVALID_HANDLE_VALUE -> In h (handles_closed calls)).
Proof.
  unfold close_all.
  destruct (close_unless_invalid_calls P (hParentOutputReadTmp hs) w)
    as (c1 & H1 & O1 & C1).
  set (w1 := close_unless_invalid P (hParentOutputReadTmp hs) w) in *.
  destruct (close_unless_invalid_calls P (hParentOutputRead hs) w1)
    as (c2 & H2 & O2 & C2).
  set (w2 := close_unless_invalid P (hParentOutputRead hs) w1) in *.
  destruct (close_unless_invalid_calls P (hChildStdoutWrite hs) w2)
    as (c3 & H3 & O3 & C3).
  set (w3 := close_unless_invalid P (hChildStdoutWrite hs) w2) in *.
  destruct (close_unless_invalid_calls P (hChildStderrWrite hs) w3)
    as (c4 & H4 & O4 & C4).
  set (w4 := close_unless_invalid P (hChildStderrWrite hs) w3) in *.
  destruct (close_unless_invalid_calls P (hChildStdinRead hs) w4)
    as (c5 & H5 & O5 & C5).
  set (w5 := close_unless_invalid P (hChildStdinRead hs) w4) in *.
  destruct (close_unless_invalid_calls P (hParentInputWriteTmp hs) w5)
    as (c6 & H6 & O6 & C6).
  set (w6 := close_unless_invalid P (hParentInputWriteTmp hs) w5) in *.
  destruct (close_unless_invalid_calls P (hParentInputWrite hs) w6)
    as (c7 & H7 & O7 & C7).
  exists (c1 ++ c2 ++ c3 ++ c4 ++ c5 ++ c6 ++ c7)%list.
  split; [|split].
  - rewrite H7, H6, H5, H4, H3, H2, H1, <- !app_assoc. reflexivity.
  - rewrite !handles_obtained_app, O1, O2, O3, O4, O5, O6, O7. reflexivity.
  - intros h Hin Hne. rewrite !handles_closed_app, !in_app_iff.
    cbn [In] in Hin.
    destruct Hin as [<- | [<- | [<- | [<- | [<- | [<- | [<- | []]]]]]]];
      auto 10.
Qed.

Ltac pipe_simpl :=
  cbn [n_pipe n_duplicate n_close pipe_calls fst snd
       hParentOutputReadTmp hParentOutputRead hChildStdoutWrite
       hChildStderrWrite hChildStdinRead hParentInputWriteTmp
       hParentInputWrite].

Ltac pipe_simpl_in H :=
  cbn [n_pipe n_duplicate n_close pipe_calls fst snd
       hParentOutputReadTmp hParentOutputRead hChildStdoutWrite
       hChildStderrWrite hChildStdinRead hParentInputWriteTmp
       hParentInputWrite] in H.

Ltac pipe_cases :=
  repeat (pipe_simpl;
          match goal with
          | |- context [CreatePipe_at ?P ?k] =>
              destruct (CreatePipe_at P k) as [[? ?]|] eqn:?
          | |- context [DuplicateHandle_at ?P ?k] =>
              destruct (DuplicateHandle_at P k) eqn:?
          | |- context [CloseHandle_at ?P ?k] =>
              destruct (CloseHandle_at P k) eqn:?
          end).

Ltac in_closed Hcl Hne :=
  first [ left; reflexivity
        | apply Hcl; [cbn [In]; tauto | exact Hne]
        | right; in_closed Hcl Hne ].

(** X18. [CreateSubprocessPipes] leaks no handle: when it returns, every
    handle that [CreatePipe] or [DuplicateHandle] gave it (and that is not
    [INVALID_HANDLE_VALUE]) has been passed to [CloseHandle] or, on
    success only, is handed to the caller; on failure the caller gets
    [INVALID_HANDLE_VALUE] five times, and on success only handles that
    were created in the call. *)
Theorem CreateSubprocessPipes_leaks_no_handle (P : PipeEnv) (w : PipeWorld) (ok : bool)
        (pipes : SubprocessPipes) (w' : PipeWorld) :
  CreateSubprocessPipes P w = (ok, pipes, w') ->
  exists calls,
    pipe_calls w' = (pipe_calls w ++ calls)%list
    /\ (forall h,
          In h (handles_obtained calls) ->
          h <> INVALID_HANDLE_VALUE ->
          In h (handles_closed calls) \/ (ok = true /\ In h (pipes_of pipes)))
    /\ (ok = false -> pipes = no_pipes)
    /\ (ok = true ->
        forall h, In h (pipes_of pipes) -> In h (handles_obtained calls)).
Proof.
  cbv beta iota zeta delta [CreateSubprocessPipes CreatePipe DuplicateHandle
    ClosePipeHandle].
  pipe_cases.
  all: pipe_simpl; intros [= <- <- <-].
  all: try match goal with
         | |- context [close_all ?P ?hs ?w0] =>
             destruct (close_all_calls P hs w0) as (closes & Hc & Ho & Hcl);
             pipe_simpl_in Hc; pipe_simpl_in Hcl;
             rewrite Hc, <- ?app_assoc; cbn [app];
             eexists; split; [reflexivity|];
             split; [|split; [reflexivity | discriminate]];
             intros h Hin Hne; left;
             cbn [handles_obtained handles_closed] in *;
             rewrite ?Ho in Hin; cbn [In] in Hin;
             repeat (destruct Hin as [<- | Hin]); try contradiction;
             cbn [In];
             in_closed Hcl Hne
         end.
  rewrite <- ?app_assoc; cbn [app].
  eexists. split; [reflexivity|].
  unfold pipes_of.
  cbn [handles_obtained handles_closed o_parentOutputPipe
       o_parentInputPipe o_childStdinPipe o_childStdoutPipe
       o_childStderrPipe In].
  split; [|split; [discriminate | intros _ h Hh; tauto]].
  intros h Hin Hne. tauto.
Qed.

Lemma CreateSubprocessPipes_witness :
  exists calls,
    pipe_calls (snd (CreateSubprocessPipes sample_pipes_failing PipeWorld0))
    = calls
    /\ In 31 (handles_obtained calls)
    /\ In 31 (handles_closed calls).
Proof.
  destruct (CreateSubprocessPipes_leaks_no_handle sample_pipes_failing
              PipeWorld0 false no_pipes
              (snd (CreateSubprocessPipes sample_pipes_failing PipeWorld0))
              eq_refl)
    as (calls & Hcalls & Hclosed & _).
  exists calls. split; [exact Hcalls|].
  assert (Hin : In 31 (handles_obtained calls)).
  { vm_compute in Hcalls. rewrite <- Hcalls. vm_compute. tauto. }
  split; [exact Hin|].
  destruct (Hclosed 31 Hin ltac:(discriminate)) as [H | [H _]];
    [exact H | discriminate H].
Defined.

(* ================================================================== *)
(** ** The device region *)

Lemma match_entries_spec (json : list DialingCodeEntry) (code tr : wstring) :
  forall a b,
    match_entries json code tr a b
    = ((a ++ countries_for json code)%list, (b ++ countries_for json tr)%list).
Proof.
  induction json as [|e json IH]; intros a b.
  - cbn [match_entries countries_for flat_map]. now rewrite !app_nil_r.
  - cbn [match_entries]. rewrite IH. unfold countries_for. cbn [flat_map].
    f_equal.
    + destruct (nonempty (entry_dialing_code e)
                && String.eqb (entry_dialing_code e) code);
        cbn [andb]; [|reflexivity].
      destruct (nonempty (entry_country_code e)); [|reflexivity].
      now rewrite <- app_assoc.
    + destruct (nonempty (entry_dialing_code e)
                && String.eqb (entry_dialing_code e) tr);
        cbn [andb]; [|reflexivity].
      destruct (nonempty (entry_country_code e)); [|reflexivity].
      now rewrite <- app_assoc.
Qed.

Lemma dialing_code_countries_spec (R : RegionEnv) :
  dialing_code_countries R = candidate_countries R.
Proof.
  unfold dialing_code_countries, candidate_countries.
  destruct (GetCountryDialingCode R) as [[|] code]; [|reflexivity].
  cbn [andb].
  destruct (nonempty code); [|now destruct (country_dialing_codes R)].
  destruct (country_dialing_codes R) as [json|]; [|reflexivity].
  rewrite match_entries_spec. cbn [app].
  destruct (countries_for json code) as [|c cs]; cbn [nonempty_list negb andb].
  - now destruct (countries_for json (truncated code)).
  - reflexivity.
Qed.

(** X19. The loop of [GetDeviceRegion] collects the countries of the
    entries with the dialing code of the system, those of the truncated
    dialing code only when there are none; and the region is decided so:
    when there are such countries and the generic country (US) is not
    among them, the region is one of them, the country of the UI locale if
    it is among them and the first one otherwise; in every other case the
    region is the country of the UI locale alone, empty for a locale that
    is not in the map. *)
Theorem GetDeviceRegion_decision (R : RegionEnv) :
  GetDeviceRegion R
  = if nonempty_list (candidate_countries R)
       && negb (found_in (candidate_countries R) GENERIC_COUNTRY)
    then
      if nonempty (locale_country R)
         && found_in (candidate_countries R) (locale_country R)
      then locale_country R
      else hd EmptyString (candidate_countries R)
    else locale_country R.
Proof.
  unfold GetDeviceRegion. rewrite dialing_code_countries_spec.
  fold (locale_country R).
  destruct (nonempty_list (candidate_countries R)
            && negb (found_in (candidate_countries R) GENERIC_COUNTRY));
    [reflexivity|].
  now destruct (locale_country R).
Qed.

Lemma found_in_In (v : list wstring) (x : wstring) :
  found_in v x = true <-> In x v.
Proof.
  induction v as [|y v IH]; cbn [found_in In]; [split; [discriminate | tauto]|].
  rewrite orb_true_iff, String.eqb_eq, IH. tauto.
Qed.

Lemma countries_for_In (json : list DialingCodeEntry) (code c : wstring) :
  In c (countries_for json code) ->
  exists entry,
    In entry json
    /\ entry_dialing_code entry = code
    /\ nonempty code = true
    /\ nonempty (entry_country_code entry) = true
    /\ c = transform toupper (entry_country_code entry).
Proof.
  unfold countries_for. rewrite in_flat_map. intros (e & He & Hc).
  destruct (nonempty (entry_dialing_code e)) eqn:Hd; [|destruct Hc].
  destruct (String.eqb (entry_dialing_code e) code) eqn:Heq; [|destruct Hc].
  destruct (nonempty (entry_country_code e)) eqn:Hn; [|destruct Hc].
  cbn [andb In] in Hc. destruct Hc as [<- | []].
  apply String.eqb_eq in Heq. exists e. subst code. now repeat split.
Qed.

Lemma candidate_countries_In (R : RegionEnv) (c : wstring) :
  In c (candidate_countries R) ->
  exists code json entry,
    GetCountryDialingCode R = (true, code)
    /\ country_dialing_codes R = Some json
    /\ In entry json
    /\ nonempty (entry_dialing_code entry) = true
    /\ (entry_dialing_code entry = code
        \/ (countries_for json code = []
            /\ entry_dialing_code entry = truncated code))
    /\ c = transform toupper (entry_country_code entry).
Proof.
  unfold candidate_countries.
  destruct (GetCountryDialingCode R) as [[|] code]; [|intros []].
  destruct (country_dialing_codes R) as [json|]; [|intros []].
  destruct (nonempty code) eqn:Hcode; [|intros []].
  destruct (countries_for json code) as [|c0 cs] eqn:Hfull.
  - intros Hin. apply countries_for_In in Hin as (e & He & Hd & Hn & _ & Hc).
    exists code, json, e. repeat split; try assumption.
    + now rewrite Hd.
    + right. now split.
  - rewrite <- Hfull. intros Hin.
    apply countries_for_In in Hin as (e & He & Hd & Hn & _ & Hc).
    exists code, json, e. repeat split; try assumption.
    + now rewrite Hd.
    + now left.
Qed.

Lemma map_at_In (map : list (wstring * wstring)) (key : wstring) :
  nonempty (map_at map key) = true -> In (key, map_at map key) map.
Proof.
  induction map as [|[k v] map IH]; cbn [map_at In]; [discriminate|].
  destruct (String.eqb k key) eqn:Hk.
  - apply String.eqb_eq in Hk. subst k. now left.
  - intros H. right. now apply IH.
Qed.

(** X20. A region that is not empty is justified: it is the country code,
    in upper case, of an entry of the table whose dialing code is that of
    the system (or that dialing code less its last character, when no
    entry has the full one), or it is the country the locale map gives for
    the UI locale in upper case. *)
Theorem GetDeviceRegion_is_justified (R : RegionEnv) :
  nonempty (GetDeviceRegion R) = true ->
  (exists code json entry,
      GetCountryDialingCode R = (true, code)
      /\ country_dialing_codes R = Some json
      /\ In entry json
      /\ nonempty (entry_dialing_code entry) = true
      /\ (entry_dialing_code entry = code
          \/ (countries_for json code = []
              /\ entry_dialing_code entry = truncated code))
      /\ GetDeviceRegion R = transform toupper (entry_country_code entry))
  \/ In (transform toupper (g_uiLocale R), GetDeviceRegion R)
       localeToCountryMap.
Proof.
  unfold GetDeviceRegion. rewrite dialing_code_countries_spec.
  fold (locale_country R).
  destruct (nonempty_list (candidate_countries R)
            && negb (found_in (candidate_countries R) GENERIC_COUNTRY)).
  - destruct (nonempty (locale_country R)
              && found_in (candidate_countries R) (locale_country R)) eqn:Hl.
    + intros Hne. right. now apply map_at_In.
    + intros Hne. left. apply candidate_countries_In.
      destruct (candidate_countries R) as [|c cs]; [discriminate Hne|].
      now left.
  - destruct (nonempty (locale_country R)) eqn:Hl; [|discriminate].
    intros _. right. now apply map_at_In.
Qed.

Lemma GetDeviceRegion_witness :
  (exists code json entry,
      GetCountryDialingCode sample_region = (true, code)
      /\ country_dialing_codes sample_region = Some json
      /\ In entry json
      /\ nonempty (entry_dialing_code entry) = true
      /\ (entry_dialing_code entry = code
          \/ (countries_for json code = []
              /\ entry_dialing_code entry = truncated code))
      /\ "IR" = transform toupper (entry_country_code entry))
  \/ In ("FA", "IR") localeToCountryMap.
Proof.
  exact (GetDeviceRegion_is_justified sample_region eq_refl).
Defined.

(* ================================================================== *)
(** ** The extraction of the executable *)

(** The calls of the loop of [ExtractExecutable] and how it is left: one
    call of [CreateFile], or two with [TerminateProcessByName] between
    them. *)
Lemma create_loop_shapes (F : FileEnv) (filePath exeFilename : tstring)
      (succeedIfExists : bool) (k : nat) (calls : list FileCall) :
  forall fuel outcome calls',
    create_loop F fuel filePath exeFilename succeedIfExists false k
      calls = Some (outcome, calls') ->
    exists new,
      calls' = (calls ++ new)%list
      /\ ((exists h e,
             new = [EvCreateFile filePath h e]
             /\ h <> INVALID_HANDLE_VALUE /\ outcome = FileCreated h)
          \/ (exists e,
                new = [EvCreateFile filePath INVALID_HANDLE_VALUE e]
                /\ e <> ERROR_SHARING_VIOLATION /\ outcome = FileRefused)
          \/ (new = [EvCreateFile filePath INVALID_HANDLE_VALUE
                       ERROR_SHARING_VIOLATION]
              /\ succeedIfExists = true /\ outcome = FileExists)
          \/ (exists h e,
                new = [EvCreateFile filePath INVALID_HANDLE_VALUE
                         ERROR_SHARING_VIOLATION;
                       EvTerminateProcessByName exeFilename;
                       EvCreateFile filePath h e]
                /\ succeedIfExists = false
                /\ ((h <> INVALID_HANDLE_VALUE /\ outcome = FileCreated h)
                    \/ (h = INVALID_HANDLE_VALUE /\ outcome = FileRefused)))).
Proof.
  intros fuel outcome calls'.
  destruct fuel as [|fuel]; [discriminate|]. cbn [create_loop].
  destruct (CreateFile_at F k) as [h e].
  destruct (h =? INVALID_HANDLE_VALUE) eqn:Hh.
  - apply Z.eqb_eq in Hh. subst h. cbn [negb andb].
    destruct (ERROR_SHARING_VIOLATION =? e) eqn:He.
    + apply Z.eqb_eq in He. subst e.
      destruct succeedIfExists.
      * intros [= <- <-]. eexists. split; [reflexivity|].
        right; right; left. now repeat split.
      * destruct fuel as [|fuel]; [discriminate|]. cbn [create_loop].
        destruct (CreateFile_at F (S k)) as [h' e'].
        destruct (h' =? INVALID_HANDLE_VALUE) eqn:Hh'.
        -- apply Z.eqb_eq in Hh'. subst h'. cbn [negb andb].
           intros [= <- <-]. eexists.
           split; [rewrite <- !app_assoc; reflexivity|].
           right; right; right. exists INVALID_HANDLE_VALUE, e'.
           split; [reflexivity|]. split; [reflexivity|]. right. now split.
        -- apply Z.eqb_neq in Hh'. intros [= <- <-]. eexists.
           split; [rewrite <- !app_assoc; reflexivity|].
           right; right; right. exists h', e'.
           split; [reflexivity|]. split; [reflexivity|]. left. now split.
    + apply Z.eqb_neq in He. intros [= <- <-]. eexists.
      split; [reflexivity|]. right; left. exists e.
      repeat split. congruence.
  - apply Z.eqb_neq in Hh. intros [= <- <-]. eexists.
    split; [reflexivity|]. left. exists h, e. now repeat split.
Qed.

Lemma create_loop_returns (F : FileEnv) (filePath exeFilename : tstring)
      (succeedIfExists : bool) (k : nat) (calls : list FileCall) (fuel : nat) :
  create_loop F (S (S fuel)) filePath exeFilename succeedIfExists false k
    calls <> None.
Proof.
  cbn [create_loop].
  destruct (CreateFile_at F k) as [h e].
  destruct (h =? INVALID_HANDLE_VALUE); [|discriminate].
  destruct (negb false && (ERROR_SHARING_VIOLATION =? e)); [|discriminate].
  destruct succeedIfExists; [discriminate|].
  destruct (CreateFile_at F (S k)) as [h' e'].
  destruct (h' =? INVALID_HANDLE_VALUE); discriminate.
Qed.

(** X21. [ExtractExecutable] comes back after at most two passes of its
    loop: it calls [CreateFile] at most twice and
    [TerminateProcessByName] at most once, and not at all when it was
    asked to succeed if the file exists. *)
Theorem ExtractExecutable_tries_at_most_twice (F : FileEnv) (fuel : nat) (resourceID : Z)
        (exeFilename path : tstring) (succeedIfExists : bool) :
  (2 <= fuel)%nat ->
  exists ok path' calls,
    FileExtraction.ExtractExecutable F fuel resourceID exeFilename path
      succeedIfExists = Some (ok, path', calls)
    /\ (List.length (filter is_CreateFile calls) <= 2)%nat
    /\ (List.length (filter is_TerminateProcessByName calls) <= 1)%nat
    /\ (succeedIfExists = true ->
        existsb is_TerminateProcessByName calls = false).
Proof.
  intros Hfuel. destruct fuel as [|[|fuel]]; [lia | lia|].
  unfold FileExtraction.ExtractExecutable.
  destruct (GetResourceBytes F resourceID) as [data|];
    [|do 3 eexists; split; [reflexivity|]; cbn; repeat split; lia].
  destruct (GetTempPath F) as [tempPath|];
    [|do 3 eexists; split; [reflexivity|]; cbn; repeat split; lia].
  destruct (PathCombine F (c_str tempPath) exeFilename) as [filePath|];
    [|do 3 eexists; split; [reflexivity|]; cbn; repeat split; lia].
  destruct (create_loop F (S (S fuel)) filePath exeFilename succeedIfExists
              false 0 _) as [[outcome calls]|] eqn:Hloop;
    [|exfalso; revert Hloop; apply create_loop_returns].
  apply create_loop_shapes in Hloop as (new & -> & Hshape).
  destruct Hshape as [(h & e & -> & Hh & ->) | [(e & -> & He & ->)
    | [(-> & Hs & ->) | (h & e & -> & Hs & [(Hh & ->) | (Hh & ->)])]]].
  all: try destruct (WriteFile F h data) as [ok written].
  all: repeat match goal with
         | |- context [if ?c then _ else _] => destruct c
         end.
  all: do 3 eexists; (split; [reflexivity|]).
  all: rewrite ?filter_app, ?existsb_app, ?length_app;
    cbn [filter existsb is_CreateFile is_TerminateProcessByName List.length
         app orb].
  all: repeat split; try lia; try reflexivity; try congruence.
Qed.

Lemma ExtractExecutable_tries_witness :
  exists ok path' calls,
    FileExtraction.ExtractExecutable sample_files 2 101 "plonk.exe" "" false
    = Some (ok, path', calls)
    /\ (List.length (filter is_CreateFile calls) <= 2)%nat
    /\ (List.length (filter is_TerminateProcessByName calls) <= 1)%nat
    /\ (false = true -> existsb is_TerminateProcessByName calls = false).
Proof.
  apply (ExtractExecutable_tries_at_most_twice sample_files 2 101
           "plonk.exe" "" false).
  lia.
Defined.

(** X22. What the result of [ExtractExecutable] means. On failure [path]
    is left as it was. On success [path] is the combined path, and either
    the whole resource was written to the file created last, flushed, and
    the file closed, or the caller asked to succeed if the file exists and
    the file was in use: then nothing was written. In every case a file
    that was created has been closed. *)
Theorem ExtractExecutable_result_is_justified (F : FileEnv) (fuel : nat) (resourceID : Z)
        (exeFilename path : tstring) (succeedIfExists : bool)
        (ok : bool) (path' : tstring) (calls : list FileCall) :
  FileExtraction.ExtractExecutable F fuel resourceID exeFilename path
    succeedIfExists = Some (ok, path', calls) ->
  (ok = false -> path' = path)
  /\ (ok = true ->
      exists data tempPath,
        GetResourceBytes F resourceID = Some data
        /\ GetTempPath F = Some tempPath
        /\ PathCombine F (c_str tempPath) exeFilename = Some path'
        /\ ((exists pre h e,
               h <> INVALID_HANDLE_VALUE
               /\ calls
                  = (pre
                     ++ [EvCreateFile path' h e;
                         EvWriteFile h data true
                           (Z.of_nat (List.length data));
                         EvFlushFileBuffers h true;
                         EvCloseFile h])%list)
            \/ (succeedIfExists = true
                /\ existsb is_WriteFile calls = false
                /\ exists pre,
                     calls
                     = (pre
                        ++ [EvCreateFile path' INVALID_HANDLE_VALUE
                              ERROR_SHARING_VIOLATION])%list)))
  /\ (forall p h e,
        In (EvCreateFile p h e) calls ->
        h <> INVALID_HANDLE_VALUE ->
        exists pre post,
          calls = (pre ++ EvCreateFile p h e :: post)%list
          /\ In (EvCloseFile h) post).
Proof.
  unfold FileExtraction.ExtractExecutable.
  destruct (GetResourceBytes F resourceID) as [data|].
  2:{ intros [= <- <- <-]. split; [reflexivity|]. split; [discriminate|].
      intros p h e [Hin | []]. discriminate Hin. }
  destruct (GetTempPath F) as [tempPath|].
  2:{ intros [= <- <- <-]. split; [reflexivity|]. split; [discriminate|].
      intros p h e Hin. cbn [app In] in Hin.
      destruct Hin as [Hin | [Hin | []]]; discriminate Hin. }
  destruct (PathCombine F (c_str tempPath) exeFilename) as [filePath|] eqn:Hpc.
  2:{ intros [= <- <- <-]. split; [reflexivity|]. split; [discriminate|].
      intros p h e Hin. cbn [app In] in Hin.
      destruct Hin as [Hin | [Hin | [Hin | []]]]; discriminate Hin. }
  destruct (create_loop F fuel filePath exeFilename succeedIfExists
              false 0 _) as [[outcome calls0]|] eqn:Hloop; [|discriminate].
  apply create_loop_shapes in Hloop as (new & -> & Hshape).
  destruct Hshape as [(h & e & -> & Hh & ->) | [(e & -> & He & ->)
    | [(-> & Hs & ->) | (h & e & -> & Hs & [(Hh & ->) | (Hh & ->)])]]].
  all: try destruct (WriteFile F h data) as [wok written] eqn:Hw.
  all: repeat match goal with
         | |- context [if ?c then _ else _] => destruct c eqn:?
         end.
  all: intros [= <- <- <-].
  all: rewrite <- ?app_assoc; cbn [app].
  all: split; [first [reflexivity | discriminate]|].
  all: split.
  all: try discriminate.
  all: try (intros p0 h0 e0 Hin Hne; cbn [In] in Hin;
            repeat (destruct Hin as [Hin | Hin]; try discriminate Hin;
                    try contradiction);
            injection Hin as <- <- <-; try contradiction;
            first [ exists [EvGetResourceBytes resourceID true;
                            EvGetTempPath true;
                            EvPathCombine (c_str tempPath) exeFilename true];
                    eexists; split; [reflexivity | cbn [In]; tauto]
                  | exists [EvGetResourceBytes resourceID true;
                            EvGetTempPath true;
                            EvPathCombine (c_str tempPath) exeFilename true;
                            EvCreateFile filePath INVALID_HANDLE_VALUE
                              ERROR_SHARING_VIOLATION;
                            EvTerminateProcessByName exeFilename];
                    eexists; split; [reflexivity | cbn [In]; tauto] ]).
  all: intros _; exists data, tempPath; repeat (split; [reflexivity|]).
  all: split; [exact Hpc|].
  all: try (right; split; [exact Hs|]; split; [reflexivity|];
            now exists [EvGetResourceBytes resourceID true;
                        EvGetTempPath true;
                        EvPathCombine (c_str tempPath) exeFilename true]).
  all: left.
  all: apply orb_false_iff in Heqb as [Hwok Hwritten];
    apply negb_false_iff in Hwok, Hwritten, Heqb0;
    apply Z.eqb_eq in Hwritten; subst wok written; rewrite Heqb0.
  - exists [EvGetResourceBytes resourceID true; EvGetTempPath true;
            EvPathCombine (c_str tempPath) exeFilename true], h, e.
    now split.
  - exists [EvGetResourceBytes resourceID true; EvGetTempPath true;
            EvPathCombine (c_str tempPath) exeFilename true;
            EvCreateFile filePath INVALID_HANDLE_VALUE
              ERROR_SHARING_VIOLATION;
            EvTerminateProcessByName exeFilename], h, e.
    now split.
Qed.

Lemma ExtractExecutable_result_witness :
  exists data, GetResourceBytes sample_files 101 = Some data.
Proof.
  destruct (proj1 (proj2 (ExtractExecutable_result_is_justified sample_files
                            2 101 "plonk.exe" "" true true
                            "C:\Temp\plonk.exe"
                            [EvGetResourceBytes 101 true; EvGetTempPath true;
                             EvPathCombine "C:\Temp" "plonk.exe" true;
                             EvCreateFile "C:\Temp\plonk.exe" (-1) 32]
                            eq_refl)) eq_refl)
    as (data & _ & Hdata & _).
  exists data. exact Hdata.
Defined.

(* ================================================================== *)
(** ** The periodic check and the supported systems *)

(** X23. A transport whose connection attempt failed, on a descriptor
    with a host key, reports itself lost: [DoPeriodicCheck] returns false
    without waiting on any handle, whatever the system would answer; and
    so it does after [Cleanup]. *)
Theorem DoPeriodicCheck_after_a_failed_attempt (C : SSHTransportClass) E fuel this sessionInfo w e this' w'
        (WaitForSingleObject_0 : Z -> Z) (GetLastError : Z) :
  SSHTransportBase.IsServerSSHCapable sessionInfo = true ->
  @SSHTransportBase.TransportConnect C E fuel this sessionInfo w
    = Some (Thrown e, this', w') ->
  DoPeriodicCheck WaitForSingleObject_0 GetLastError this' = Returned false
  /\ DoPeriodicCheck WaitForSingleObject_0 GetLastError
       (snd (fst (SSHTransportBase.Cleanup E this w)))
     = Returned false.
Proof.
  intros Hcap Hrun.
  apply (TransportConnect_thrown C E fuel this sessionInfo w e this' w' Hcap)
    in Hrun as (this1 & w1 & _ & -> & _).
  split; reflexivity.
Qed.

Lemma DoPeriodicCheck_witness :
  exists this' w',
    @SSHTransportBase.TransportConnect SSHTransport.class dying_env 2
      sample_transport sample_session World0
    = Some (Thrown TransportFailed, this', w')
    /\ DoPeriodicCheck (fun _ => WAIT_TIMEOUT) 0 this' = Returned false.
Proof.
  assert (Hrun : exists this' w',
             @SSHTransportBase.TransportConnect SSHTransport.class dying_env 2
               sample_transport sample_session World0
             = Some (Thrown TransportFailed, this', w')).
  { vm_compute. do 2 eexists. reflexivity. }
  destruct Hrun as (this' & w' & Hrun). exists this', w'.
  split; [exact Hrun|].
  exact (proj1 (DoPeriodicCheck_after_a_failed_attempt SSHTransport.class
                  dying_env 2 sample_transport sample_session World0
                  TransportFailed this' w' (fun _ => WAIT_TIMEOUT) 0
                  eq_refl Hrun)).
Defined.

(** X24. [IsOSSupported] answers true on the first call exactly for
    versions above 6.0, and its cache is sound: once a version has been
    read, every later call gives the same answer whatever the system then
    says; a call in which the version cannot be read answers true when
    nothing is cached and leaves the cache as it was. *)
Theorem IsOSSupported_threshold_and_cache (dwMajorVersion dwMinorVersion : Z) :
  let call := IsOSSupported (Some (dwMajorVersion, dwMinorVersion)) 0 in
  (fst call = true
   <-> 6 < dwMajorVersion \/ (dwMajorVersion = 6 /\ 0 < dwMinorVersion))
  /\ (forall later, IsOSSupported later (snd call) = call)
  /\ (forall cachedResult,
        IsOSSupported None cachedResult
        = (if cachedResult =? 0 then true else 0 <? cachedResult,
           cachedResult)).
Proof.
  cbv zeta. unfold IsOSSupported. cbn [Z.eqb negb fst snd].
  split; [|split].
  - rewrite orb_true_iff, andb_true_iff, !Z.ltb_lt, Z.eqb_eq. reflexivity.
  - intros later.
    destruct ((6 <? dwMajorVersion)
              || (dwMajorVersion =? 6) && (0 <? dwMinorVersion));
      reflexivity.
  - intros c. destruct (c =? 0); reflexivity.
Qed.
